(** * Seq80x25: the audio-effects processor of [audio_effects.py]

    A shallow embedding of the class [AudioEffects]: the eight effect
    stages and the chain executor [apply_multiple_effects], over an
    interface of the float operations the code performs.  The interface
    has two instances: the exact real numbers (arithmetic without
    rounding, used for the statements about formulas) and the kernel's
    binary64 floats (used to run the arithmetic-only stages as the
    interpreter would, infinities and NaN included). *)

From Stdlib Require Import String ZArith Bool List Lia.
From Stdlib Require Import Reals Lra.
From Stdlib Require Import Floats.
Import ListNotations.
Local Open Scope Z_scope.

(** ** Exceptions and results *)

(** The exceptions a stage can raise. *)
Inductive Exn : Type :=
| IndexError
| ValueError
| TypeError
| ZeroDivisionError
| OverflowError.

(** The outcome of an expression: a value, or a raised exception. *)
Inductive Res (A : Type) : Type :=
| Ok (a : A)
| Raise (e : Exn).
Arguments Ok {A} a.
Arguments Raise {A} e.

Definition res_bind {A B : Type} (r : Res A) (k : A -> Res B) : Res B :=
  match r with
  | Ok a => k a
  | Raise e => Raise e
  end.

Definition is_ok {A : Type} (r : Res A) : bool :=
  match r with Ok _ => true | Raise _ => false end.

(** ** The float operations of the code *)

(** What the code does with Python floats and numpy's [float64]: the four
    operations, negation, [abs], the comparisons (all false on NaN),
    conversion from an [int], the quotient of two [int]s (Python's true
    division, also used for decimal literals: [0.3] is [of_frac 3 10]),
    and [int(x)], which truncates toward zero and raises on NaN
    ([ValueError]) and on an infinity ([OverflowError]). *)
Class Float64 (F : Type) : Type := {
  of_int : Z -> F;
  of_frac : Z -> Z -> F;
  fadd : F -> F -> F;
  fsub : F -> F -> F;
  fmul : F -> F -> F;
  fdiv : F -> F -> F;
  fneg : F -> F;
  fabs : F -> F;
  fle : F -> F -> bool;
  flt : F -> F -> bool;
  feqb : F -> F -> bool;
  to_int : F -> Res Z
}.

(** numpy's elementary functions and the constant [np.pi]. *)
Class Elementary (F : Type) : Type := {
  fpi : F;
  fsin : F -> F;
  fcos : F -> F;
  fexp : F -> F;
  ftanh : F -> F
}.

(** ** Python values that are not floats *)

(** The members of [class EffectType(Enum)]. *)
Inductive EffectType : Type :=
| REVERB
| DELAY
| CHORUS
| FLANGER
| DISTORTION
| FILTER
| COMPRESSOR
| TREMOLO.

Definition EffectType_eqb (a b : EffectType) : bool :=
  match a, b with
  | REVERB, REVERB | DELAY, DELAY | CHORUS, CHORUS | FLANGER, FLANGER
  | DISTORTION, DISTORTION | FILTER, FILTER | COMPRESSOR, COMPRESSOR
  | TREMOLO, TREMOLO => true
  | _, _ => false
  end.

(** The values a keyword argument of a stage can hold: a float or a
    string. *)
Inductive PyVal (F : Type) : Type :=
| PyFloat (x : F)
| PyStr (s : string).
Arguments PyFloat {F} x.
Arguments PyStr {F} s.

(** [v == "..."]: a float is equal to no string. *)
Definition py_eq_str {F : Type} (v : PyVal F) (s : string) : bool :=
  match v with
  | PyStr s' => String.eqb s' s
  | PyFloat _ => false
  end.

(** What [effect_config.get('type')] can be: a member of [EffectType],
    some other value (a string, say), or [None] when the key is absent. *)
Inductive PyTag : Type :=
| TagMember (e : EffectType)
| TagStr (s : string)
| TagNone.

(** [effect_type == EffectType.X]: a member is equal to itself only; a
    string, even the member's own value, is not equal to it. *)
Definition tag_is (t : PyTag) (e : EffectType) : bool :=
  match t with
  | TagMember e' => EffectType_eqb e' e
  | TagStr _ | TagNone => false
  end.

(** One entry of an effect chain: [{'type': ..., 'params': {...}}], the
    parameters as the pairs of the dictionary (the first pair of a name
    is the one that counts). *)
Record EffectConfig (F : Type) : Type := mkEffectConfig {
  cfg_type : PyTag;
  cfg_params : list (string * PyVal F)
}.
Arguments mkEffectConfig {F}.
Arguments cfg_type {F}.
Arguments cfg_params {F}.

(** [range(lo, hi)] as a list of [int]s. *)
Definition range (lo hi : Z) : list Z :=
  map (fun k => lo + Z.of_nat k) (seq 0 (Z.to_nat (hi - lo))).

(** [len(a)]. *)
Definition len {A : Type} (a : list A) : Z := Z.of_nat (length a).

(** The list [a] with position [n] replaced by [x] (unchanged when [n] is
    out of range; the callers check the range first). *)
Fixpoint list_set {A : Type} (a : list A) (n : nat) (x : A) : list A :=
  match a, n with
  | [], _ => []
  | _ :: t, O => x :: t
  | h :: t, S m => h :: list_set t m x
  end.

(** numpy's index rule for a one-dimensional array of length [n]: an
    index in [-n, 0) counts from the end, one in [0, n) is itself, any
    other raises [IndexError]. *)
Definition np_index (n i : Z) : Res nat :=
  let j := if i <? 0 then i + n else i in
  if (0 <=? j) && (j <? n) then Ok (Z.to_nat j) else Raise IndexError.

(** [a[i]]. *)
Definition np_get {A : Type} (a : list A) (i : Z) : Res A :=
  res_bind (np_index (len a) i) (fun j =>
    match nth_error a j with
    | Some x => Ok x
    | None => Raise IndexError
    end).

(** [a[i] = x]. *)
Definition np_set {A : Type} (a : list A) (i : Z) (x : A) : Res (list A) :=
  res_bind (np_index (len a) i) (fun j => Ok (list_set a j x)).

(** ** The processor and the interpreter's state *)

(** An instance of [class AudioEffects]: its three attributes. *)
Record AudioEffects (F : Type) : Type := mkAudioEffects {
  sample_rate : Z;
  delay_buffer : list F;
  delay_index : Z
}.
Arguments mkAudioEffects {F}.
Arguments sample_rate {F}.
Arguments delay_buffer {F}.
Arguments delay_index {F}.

(** What a call can read and change: the processor [self] and numpy's
    global random state, held as the normal variates it has yet to hand
    out ([np_random k] is the [k]-th next one). *)
Record World (F : Type) : Type := mkWorld {
  self : AudioEffects F;
  np_random : nat -> F
}.
Arguments mkWorld {F}.
Arguments self {F}.
Arguments np_random {F}.

(** A computation: from a state to an outcome and the state it leaves.
    An exception keeps the state reached when it was raised. *)
Definition M (F A : Type) : Type := World F -> Res A * World F.

Definition ret {F A : Type} (a : A) : M F A := fun w => (Ok a, w).

Definition raise {F A : Type} (e : Exn) : M F A := fun w => (Raise e, w).

Definition bind {F A B : Type} (m : M F A) (k : A -> M F B) : M F B :=
  fun w =>
    match m w with
    | (Ok a, w') => k a w'
    | (Raise e, w') => (Raise e, w')
    end.

Definition lift {F A : Type} (r : Res A) : M F A := fun w => (r, w).

Notation "x <- m ;; k" := (bind m (fun x => k))
  (at level 61, m at next level, right associativity).
Notation "m ;;; k" := (bind m (fun _ => k))
  (at level 61, right associativity).

(** [for x in xs: acc = body(x, acc)], the loop variable [acc] standing
    for the local variables the body updates. *)
Fixpoint for_each {F A S : Type} (xs : list A) (body : A -> S -> M F S)
    (acc : S) : M F S :=
  match xs with
  | [] => ret acc
  | x :: rest => acc' <- body x acc ;; for_each rest body acc'
  end.

(** Reading and writing the attributes of [self]. *)
Definition get_sample_rate {F : Type} : M F Z :=
  fun w => (Ok (sample_rate (self w)), w).

Definition get_delay_buffer {F : Type} : M F (list F) :=
  fun w => (Ok (delay_buffer (self w)), w).

Definition get_delay_index {F : Type} : M F Z :=
  fun w => (Ok (delay_index (self w)), w).

Definition set_delay_buffer {F : Type} (b : list F) : M F unit :=
  fun w =>
    (Ok tt,
     mkWorld (mkAudioEffects (sample_rate (self w)) b (delay_index (self w)))
             (np_random w)).

Definition set_delay_index {F : Type} (i : Z) : M F unit :=
  fun w =>
    (Ok tt,
     mkWorld (mkAudioEffects (sample_rate (self w)) (delay_buffer (self w)) i)
             (np_random w)).

(** [np.random.randn(n)]: the next [n] variates, which are then used up. *)
Definition randn {F : Type} (n : Z) : M F (list F) :=
  fun w =>
    if n <? 0 then (Raise ValueError, w)
    else
      (Ok (map (np_random w) (seq 0 (Z.to_nat n))),
       mkWorld (self w) (fun k => np_random w (Z.to_nat n + k)%nat)).

(** Python's [a % b] and [a / b] on [int]s. *)
Definition py_mod (a b : Z) : Res Z :=
  if b =? 0 then Raise ZeroDivisionError else Ok (a mod b).

Notation "x <~ r ;; k" := (res_bind r (fun x => k))
  (at level 61, r at next level, right associativity).

(** The pure counterpart of [for_each], for loops that touch no attribute. *)
Fixpoint res_for {A S : Type} (xs : list A) (body : A -> S -> Res S)
    (acc : S) : Res S :=
  match xs with
  | [] => Ok acc
  | x :: rest => acc' <~ body x acc ;; res_for rest body acc'
  end.

(** ** numpy on one-dimensional arrays *)

Section Numpy.
Context {F : Type} `{Float64 F}.

(** [x != x]: true on NaN only. *)
Definition is_nan (x : F) : bool := negb (feqb x x).

(** [np.maximum] and [np.minimum] on scalars: a NaN operand wins. *)
Definition np_maximum (a b : F) : F :=
  if is_nan a then a else if is_nan b then b
  else if fle b a then a else b.

Definition np_minimum (a b : F) : F :=
  if is_nan a then a else if is_nan b then b
  else if fle a b then a else b.

(** [np.zeros(n)], [np.zeros_like(a)], [np.copy(a)], [np.abs(a)]. *)
Definition np_zeros (n : Z) : Res (list F) :=
  if n <? 0 then Raise ValueError else Ok (repeat (of_int 0) (Z.to_nat n)).

Definition np_zeros_like (a : list F) : list F := map (fun _ => of_int 0) a.

Definition np_copy (a : list F) : list F := a.

Definition np_abs (a : list F) : list F := map fabs a.

(** [np.sum(a)], added left to right from zero (numpy may pair the terms
    in another order, which changes the rounding only). *)
Definition np_sum (a : list F) : F := fold_left fadd a (of_int 0).

(** [np.max(a)]; an empty array has no maximum. *)
Definition np_max (a : list F) : Res F :=
  match a with
  | [] => Raise ValueError
  | x :: rest => Ok (fold_left np_maximum rest x)
  end.

(** [np.clip(a, lo, hi)]. *)
Definition np_clip (a : list F) (lo hi : F) : list F :=
  map (fun x => np_minimum (np_maximum x lo) hi) a.

(** An elementwise operation on two arrays, with numpy's broadcasting:
    equal lengths pair up, an array of one element is stretched, any
    other pair of lengths raises [ValueError]. *)
Definition np_zip (op : F -> F -> F) (a b : list F) : Res (list F) :=
  if (length a =? length b)%nat then
    Ok (map (fun p => op (fst p) (snd p)) (combine a b))
  else
    match a, b with
    | [x], _ => Ok (map (fun y => op x y) b)
    | _, [y] => Ok (map (fun x => op x y) a)
    | _, _ => Raise ValueError
    end.

(** [np.linspace(start, stop, num)], endpoint included: [num - 1] equal
    steps, and the last element set to [stop] itself. *)
Definition np_linspace (start stop : F) (num : Z) : Res (list F) :=
  if num <? 0 then Raise ValueError
  else
    let div := num - 1 in
    let delta := fsub stop start in
    let y := map of_int (range 0 num) in
    let y :=
      if 0 <? div then
        let step := fdiv delta (of_int div) in
        if feqb step (of_int 0)
        then map (fun v => fmul (fdiv v (of_int div)) delta) y
        else map (fun v => fmul v step) y
      else map (fun v => fmul v delta) y in
    let y := map (fun v => fadd v start) y in
    if 1 <? num then Ok (list_set y (Z.to_nat (num - 1)) stop) else Ok y.

(** The full linear convolution: entry [k] is the sum of [a[j] * v[k-j]]
    over the [j] for which both indices exist. *)
Definition convolve_full (a v : list F) : list F :=
  map (fun k =>
         np_sum
           (flat_map
              (fun j =>
                 if (j <=? k)%nat && (k - j <? length v)%nat
                 then [fmul (nth j a (of_int 0)) (nth (k - j) v (of_int 0))]
                 else [])
              (seq 0 (length a))))
      (seq 0 (length a + length v - 1)).

(** [np.convolve(a, v, mode='same')]: the longer operand comes first, an
    empty operand raises, and the result is the middle [max(M, N)]
    entries of the full convolution. *)
Definition np_convolve_same (a v : list F) : Res (list F) :=
  let '(a, v) := if (length a <? length v)%nat then (v, a) else (a, v) in
  if (length a =? 0)%nat then Raise ValueError
  else if (length v =? 0)%nat then Raise ValueError
  else
    Ok (firstn (length a) (skipn ((length v - 1) / 2) (convolve_full a v))).

(** [a / b] on two [int]s, and [x / n] on a Python float and an [int]. *)
Definition py_truediv (a b : Z) : Res F :=
  if b =? 0 then Raise ZeroDivisionError else Ok (of_frac a b).

Definition py_fdiv (x : F) (n : Z) : Res F :=
  if n =? 0 then Raise ZeroDivisionError else Ok (fdiv x (of_int n)).

End Numpy.

(** ** The effect stages *)

Section Stages.
Context {F : Type} `{Float64 F} `{Elementary F}.

(** [AudioEffects(sample_rate)]: [np.zeros] refuses a negative length. *)
Definition init (sample_rate : Z) : Res (AudioEffects F) :=
  buf <~ np_zeros (sample_rate * 2) ;;
  Ok (mkAudioEffects sample_rate buf 0).

(** [(1 - mix) * audio + mix * wet], the dry/wet mix closing [apply_delay]
    and [apply_chorus]. *)
Definition mix_dry_wet (mix : F) (audio wet : list F) : Res (list F) :=
  np_zip fadd (map (fun x => fmul (fsub (of_int 1) mix) x) audio)
              (map (fun x => fmul mix x) wet).

Definition apply_reverb (audio : list F) (room_size damping : F)
    : M F (list F) :=
  if fle room_size (of_int 0) then ret audio
  else
    sr <- get_sample_rate ;;
    reverb_length <-
      lift (to_int (fmul (fmul room_size (of_int sr)) (of_frac 1 10))) ;;
    ramp <- lift (np_linspace (of_int 0) (of_int 1) reverb_length) ;;
    let decay := map (fun x => fexp (fmul (fneg damping) x)) ramp in
    noise <- randn reverb_length ;;
    impulse <- lift (np_zip fmul noise decay) ;;
    let total := np_sum (np_abs impulse) in
    let impulse := map (fun x => fmul (fdiv x total) (of_frac 3 10)) impulse in
    reverb_audio <- lift (np_convolve_same audio impulse) ;;
    let wet_mix := room_size in
    let dry_mix := fsub (of_int 1) wet_mix in
    lift (np_zip fadd (map (fun x => fmul dry_mix x) audio)
                      (map (fun x => fmul wet_mix x) reverb_audio)).

(** One turn of the loop of [apply_delay]. *)
Definition delay_step (audio : list F) (delay_samples : Z) (feedback : F)
    (i : Z) (output : list F) : M F (list F) :=
  output <-
    (if delay_samples <=? i then
       buf <- get_delay_buffer ;;
       idx <- get_delay_index ;;
       tap <- lift (np_get buf idx) ;;
       let delayed_sample := fmul tap feedback in
       o <- lift (np_get output i) ;;
       lift (np_set output i (fadd o delayed_sample))
     else ret output) ;;
  buf <- get_delay_buffer ;;
  idx <- get_delay_index ;;
  x <- lift (np_get audio i) ;;
  buf' <- lift (np_set buf idx x) ;;
  set_delay_buffer buf' ;;;
  idx <- get_delay_index ;;
  buf <- get_delay_buffer ;;
  idx' <- lift (py_mod (idx + 1) (len buf)) ;;
  set_delay_index idx' ;;;
  ret output.

(** [audio] is an array of the caller's, not the processor's own
    [delay_buffer]. *)
Definition apply_delay (audio : list F) (delay_time feedback mix : F)
    : M F (list F) :=
  if fle delay_time (of_int 0) || fle feedback (of_int 0) then ret audio
  else
    sr <- get_sample_rate ;;
    delay_samples <- lift (to_int (fmul delay_time (of_int sr))) ;;
    output <-
      for_each (range 0 (len audio))
               (delay_step audio delay_samples feedback) (np_copy audio) ;;
    lift (mix_dry_wet mix audio output).

(** The oscillator of [apply_chorus] and [apply_flanger]:
    [np.sin(2 * np.pi * rate * t) * depth * self.sample_rate] over
    [t = np.linspace(0, len(audio) / self.sample_rate, len(audio))]. *)
Definition lfo_times (sr : Z) (audio : list F) : Res (list F) :=
  stop <~ py_truediv (len audio) sr ;;
  np_linspace (of_int 0) stop (len audio).

Definition delay_lfo (sr : Z) (audio : list F) (rate depth : F)
    : Res (list F) :=
  t <~ lfo_times sr audio ;;
  Ok (map (fun ti =>
             fmul (fmul (fsin (fmul (fmul (fmul (of_int 2) fpi) rate) ti))
                        depth)
                  (of_int sr)) t).

(** One turn of the loop of [apply_chorus]. *)
Definition chorus_step (audio lfo : list F) (i : Z) (chorus_audio : list F)
    : Res (list F) :=
  l <~ np_get lfo i ;;
  delay_samples <~ to_int l ;;
  if delay_samples <=? i then
    x <~ np_get audio (i - delay_samples) ;;
    np_set chorus_audio i x
  else Ok chorus_audio.

Definition apply_chorus (audio : list F) (rate depth mix : F)
    : M F (list F) :=
  if fle rate (of_int 0) || fle depth (of_int 0) then ret audio
  else
    sr <- get_sample_rate ;;
    lift (lfo <~ delay_lfo sr audio rate depth ;;
          chorus_audio <~
            res_for (range 0 (len audio)) (chorus_step audio lfo)
                    (np_zeros_like audio) ;;
          mix_dry_wet mix audio chorus_audio).

(** One turn of the loop of [apply_flanger]. *)
Definition flanger_step (lfo : list F) (feedback : F) (i : Z)
    (output : list F) : Res (list F) :=
  l <~ np_get lfo i ;;
  delay_samples <~ to_int l ;;
  if delay_samples <=? i then
    o <~ np_get output i ;;
    d <~ np_get output (i - delay_samples) ;;
    np_set output i (fadd o (fmul feedback d))
  else Ok output.

Definition apply_flanger (audio : list F) (rate depth feedback : F)
    : M F (list F) :=
  if fle rate (of_int 0) || fle depth (of_int 0) then ret audio
  else
    sr <- get_sample_rate ;;
    lift (lfo <~ delay_lfo sr audio rate depth ;;
          output <~
            res_for (range 0 (len audio)) (flanger_step lfo feedback)
                    (np_copy audio) ;;
          peak <~ np_max (np_abs output) ;;
          if flt (of_int 0) peak then
            peak <~ np_max (np_abs output) ;;
            Ok (map (fun x => fmul (fdiv x peak) (of_frac 8 10)) output)
          else Ok output).

Definition apply_distortion (audio : list F) (amount : F) (type_ : PyVal F)
    : M F (list F) :=
  if fle amount (of_int 0) then ret audio
  else if py_eq_str type_ "soft" then
    let gain := fadd (of_int 1) (fmul amount (of_int 5)) in
    ret (map (fun x => ftanh (fmul x gain)) audio)
  else if py_eq_str type_ "hard" then
    let threshold := fsub (of_int 1) amount in
    ret (np_clip audio (fneg threshold) threshold)
  else
    let gain := fadd (of_int 1) (fmul amount (of_int 2)) in
    let output := map (fun x => fmul x gain) audio in
    ret (np_clip output (fneg (of_frac 8 10)) (of_frac 8 10)).

(** One turn of the loop of the low-pass branch. *)
Definition lowpass_step (audio : list F) (b a : F) (i : Z)
    (output : list F) : Res (list F) :=
  x <~ np_get audio i ;;
  y <~ np_get output (i - 1) ;;
  np_set output i (fadd (fmul b x) (fmul a y)).

(** The three filter bodies, each on the normalized cutoff. *)
Definition lowpass (audio : list F) (b : F) : Res (list F) :=
  let a := fsub (of_int 1) b in
  let output := np_zeros_like audio in
  x0 <~ np_get audio 0 ;;
  output <~ np_set output 0 (fmul b x0) ;;
  res_for (range 1 (len audio)) (lowpass_step audio b a) output.

Definition highpass (audio : list F) (b : F) : Res (list F) :=
  let a := fsub (of_int 1) b in
  let output := np_zeros_like audio in
  x0 <~ np_get audio 0 ;;
  output <~ np_set output 0 x0 ;;
  res_for (range 1 (len audio))
          (fun i output =>
             y <~ np_get output (i - 1) ;;
             x <~ np_get audio i ;;
             x' <~ np_get audio (i - 1) ;;
             np_set output i (fmul a (fsub (fadd y x) x')))
          output.

Definition bandpass (audio : list F) (w0 resonance : F) : Res (list F) :=
  let q := resonance in
  let alpha := fdiv (fsin w0) (fmul (of_int 2) q) in
  let b0 := alpha in
  let b1 := of_int 0 in
  let b2 := fneg alpha in
  let a0 := fadd (of_int 1) alpha in
  let a1 := fmul (of_int (-2)) (fcos w0) in
  let a2 := fsub (of_int 1) alpha in
  res_for (range 2 (len audio))
          (fun i output =>
             x <~ np_get audio i ;;
             x1 <~ np_get audio (i - 1) ;;
             x2 <~ np_get audio (i - 2) ;;
             y1 <~ np_get output (i - 1) ;;
             y2 <~ np_get output (i - 2) ;;
             np_set output i
               (fdiv (fsub (fsub (fadd (fadd (fmul b0 x) (fmul b1 x1))
                                       (fmul b2 x2))
                                 (fmul a1 y1))
                           (fmul a2 y2))
                     a0))
          (np_zeros_like audio).

Definition apply_filter (audio : list F) (filter_type : PyVal F)
    (cutoff resonance : F) : M F (list F) :=
  if fle cutoff (of_int 0) then ret audio
  else
    sr <- get_sample_rate ;;
    normalized_cutoff <- lift (py_fdiv (fmul (of_int 2) cutoff) sr) ;;
    if py_eq_str filter_type "lowpass" then
      lift (lowpass audio normalized_cutoff)
    else if py_eq_str filter_type "highpass" then
      lift (highpass audio normalized_cutoff)
    else if py_eq_str filter_type "bandpass" then
      lift (bandpass audio normalized_cutoff resonance)
    else ret audio.

(** One turn of the loop of [apply_compressor]; the loop carries the
    output and the envelope. *)
Definition compressor_step (audio : list F) (threshold ratio : F)
    (attack_samples release_samples : Z) (i : Z) (st : list F * F)
    : Res (list F * F) :=
  let '(output, envelope) := st in
  x <~ np_get audio i ;;
  let envelope :=
    if flt envelope (fabs x)
    then fadd envelope (fdiv (fsub (fabs x) envelope) (of_int attack_samples))
    else fadd envelope (fdiv (fsub (fabs x) envelope) (of_int release_samples))
  in
  if flt threshold envelope then
    let gain := fadd threshold (fdiv (fsub envelope threshold) ratio) in
    output <~ np_set output i (fmul x (fdiv gain envelope)) ;;
    Ok (output, envelope)
  else
    output <~ np_set output i x ;;
    Ok (output, envelope).

Definition apply_compressor (audio : list F)
    (threshold ratio attack release : F) : M F (list F) :=
  if fle threshold (of_int 0) || fle ratio (of_int 1) then ret audio
  else
    sr <- get_sample_rate ;;
    attack_samples <- lift (to_int (fmul attack (of_int sr))) ;;
    release_samples <- lift (to_int (fmul release (of_int sr))) ;;
    st <-
      lift (res_for (range 0 (len audio))
                    (compressor_step audio threshold ratio
                                     attack_samples release_samples)
                    (np_zeros_like audio, of_int 0)) ;;
    ret (fst st).

Definition apply_tremolo (audio : list F) (rate depth : F) : M F (list F) :=
  if fle rate (of_int 0) || fle depth (of_int 0) then ret audio
  else
    sr <- get_sample_rate ;;
    lift (t <~ lfo_times sr audio ;;
          let lfo :=
            map (fun ti =>
                   fsub (of_int 1)
                        (fdiv (fmul depth
                                 (fadd (of_int 1)
                                    (fsin (fmul (fmul (fmul (of_int 2) fpi)
                                                      rate) ti))))
                              (of_int 2)))
                t in
          np_zip fmul audio lfo).

(** ** Calling a stage with keyword arguments *)

Definition Kwargs : Type := list (string * PyVal F).

Fixpoint kw_lookup (name : string) (kw : Kwargs) : option (PyVal F) :=
  match kw with
  | [] => None
  | (k, v) :: rest => if String.eqb k name then Some v else kw_lookup name rest
  end.

(** A call [f(output, **params)] raises [TypeError] when [params] names
    something [f] does not take. *)
Definition kw_known (names : list string) (kw : Kwargs) : bool :=
  forallb (fun p => existsb (String.eqb (fst p)) names) kw.

(** A numeric parameter: the keyword's value, or the default.  The
    chains the program builds give numbers to these parameters
    ([numeric_params] below), and the statements about stage calls made
    from keywords are about such chains.  A string in the place of a
    number is outside them: the source raises where the parameter is
    first used, if it is used; here the call raises [TypeError]. *)
Definition kw_float (name : string) (default : F) (kw : Kwargs) : Res F :=
  match kw_lookup name kw with
  | None => Ok default
  | Some (PyFloat x) => Ok x
  | Some (PyStr _) => Raise TypeError
  end.

(** A parameter compared with strings only: any value goes. *)
Definition kw_any (name : string) (default : PyVal F) (kw : Kwargs)
    : PyVal F :=
  match kw_lookup name kw with
  | None => default
  | Some v => v
  end.

Definition check_names (names : list string) (kw : Kwargs) : M F unit :=
  if kw_known names kw then ret tt else raise TypeError.

Definition call_reverb (audio : list F) (kw : Kwargs) : M F (list F) :=
  check_names ["room_size"; "damping"]%string kw ;;;
  room_size <- lift (kw_float "room_size" (of_frac 1 2) kw) ;;
  damping <- lift (kw_float "damping" (of_frac 1 2) kw) ;;
  apply_reverb audio room_size damping.

Definition call_delay (audio : list F) (kw : Kwargs) : M F (list F) :=
  check_names ["delay_time"; "feedback"; "mix"]%string kw ;;;
  delay_time <- lift (kw_float "delay_time" (of_frac 3 10) kw) ;;
  feedback <- lift (kw_float "feedback" (of_frac 3 10) kw) ;;
  mix <- lift (kw_float "mix" (of_frac 1 2) kw) ;;
  apply_delay audio delay_time feedback mix.

Definition call_chorus (audio : list F) (kw : Kwargs) : M F (list F) :=
  check_names ["rate"; "depth"; "mix"]%string kw ;;;
  rate <- lift (kw_float "rate" (of_frac 3 2) kw) ;;
  depth <- lift (kw_float "depth" (of_frac 2 1000) kw) ;;
  mix <- lift (kw_float "mix" (of_frac 1 2) kw) ;;
  apply_chorus audio rate depth mix.

Definition call_flanger (audio : list F) (kw : Kwargs) : M F (list F) :=
  check_names ["rate"; "depth"; "feedback"]%string kw ;;;
  rate <- lift (kw_float "rate" (of_frac 1 2) kw) ;;
  depth <- lift (kw_float "depth" (of_frac 5 1000) kw) ;;
  feedback <- lift (kw_float "feedback" (of_frac 3 10) kw) ;;
  apply_flanger audio rate depth feedback.

Definition call_distortion (audio : list F) (kw : Kwargs) : M F (list F) :=
  check_names ["amount"; "type_"]%string kw ;;;
  amount <- lift (kw_float "amount" (of_frac 1 2) kw) ;;
  apply_distortion audio amount (kw_any "type_" (PyStr "soft") kw).

Definition call_filter (audio : list F) (kw : Kwargs) : M F (list F) :=
  check_names ["filter_type"; "cutoff"; "resonance"]%string kw ;;;
  cutoff <- lift (kw_float "cutoff" (of_int 1000) kw) ;;
  resonance <- lift (kw_float "resonance" (of_int 1) kw) ;;
  apply_filter audio (kw_any "filter_type" (PyStr "lowpass") kw)
               cutoff resonance.

Definition call_compressor (audio : list F) (kw : Kwargs) : M F (list F) :=
  check_names ["threshold"; "ratio"; "attack"; "release"]%string kw ;;;
  threshold <- lift (kw_float "threshold" (of_frac 1 2) kw) ;;
  ratio <- lift (kw_float "ratio" (of_int 4) kw) ;;
  attack <- lift (kw_float "attack" (of_frac 1 100) kw) ;;
  release <- lift (kw_float "release" (of_frac 1 10) kw) ;;
  apply_compressor audio threshold ratio attack release.

Definition call_tremolo (audio : list F) (kw : Kwargs) : M F (list F) :=
  check_names ["rate"; "depth"]%string kw ;;;
  rate <- lift (kw_float "rate" (of_int 5) kw) ;;
  depth <- lift (kw_float "depth" (of_frac 1 2) kw) ;;
  apply_tremolo audio rate depth.

(** ** The chain executor *)

(** The body of the loop of [apply_multiple_effects]: the [if]/[elif]
    ladder over the entry's type, with no [else]. *)
Definition chain_step (effect_config : EffectConfig F) (output : list F)
    : M F (list F) :=
  let effect_type := cfg_type effect_config in
  let params := cfg_params effect_config in
  if tag_is effect_type REVERB then call_reverb output params
  else if tag_is effect_type DELAY then call_delay output params
  else if tag_is effect_type CHORUS then call_chorus output params
  else if tag_is effect_type FLANGER then call_flanger output params
  else if tag_is effect_type DISTORTION then call_distortion output params
  else if tag_is effect_type FILTER then call_filter output params
  else if tag_is effect_type COMPRESSOR then call_compressor output params
  else if tag_is effect_type TREMOLO then call_tremolo output params
  else ret output.

Definition apply_multiple_effects (audio : list F)
    (effects : list (EffectConfig F)) : M F (list F) :=
  for_each effects chain_step (np_copy audio).

End Stages.

(** ** A stage call as a value *)

(** One call of a stage, with its arguments: what the chain executor
    dispatches to, and what the statements about "every stage" range
    over. *)
Inductive StageCall (F : Type) : Type :=
| CallReverb (room_size damping : F)
| CallDelay (delay_time feedback mix : F)
| CallChorus (rate depth mix : F)
| CallFlanger (rate depth feedback : F)
| CallDistortion (amount : F) (type_ : PyVal F)
| CallFilter (filter_type : PyVal F) (cutoff resonance : F)
| CallCompressor (threshold ratio attack release : F)
| CallTremolo (rate depth : F).
Arguments CallReverb {F}.
Arguments CallDelay {F}.
Arguments CallChorus {F}.
Arguments CallFlanger {F}.
Arguments CallDistortion {F}.
Arguments CallFilter {F}.
Arguments CallCompressor {F}.
Arguments CallTremolo {F}.

Section Calls.
Context {F : Type} `{Float64 F} `{Elementary F}.

Definition run_stage (c : StageCall F) (audio : list F) : M F (list F) :=
  match c with
  | CallReverb room_size damping => apply_reverb audio room_size damping
  | CallDelay delay_time feedback mix =>
      apply_delay audio delay_time feedback mix
  | CallChorus rate depth mix => apply_chorus audio rate depth mix
  | CallFlanger rate depth feedback =>
      apply_flanger audio rate depth feedback
  | CallDistortion amount type_ => apply_distortion audio amount type_
  | CallFilter filter_type cutoff resonance =>
      apply_filter audio filter_type cutoff resonance
  | CallCompressor threshold ratio attack release =>
      apply_compressor audio threshold ratio attack release
  | CallTremolo rate depth => apply_tremolo audio rate depth
  end.

(** The parameters on which a stage is documented to pass its input
    through: the guard that opens each [apply_] method. *)
Definition degenerate (c : StageCall F) : bool :=
  match c with
  | CallReverb room_size _ => fle room_size (of_int 0)
  | CallDelay delay_time feedback _ =>
      fle delay_time (of_int 0) || fle feedback (of_int 0)
  | CallChorus rate depth _ | CallFlanger rate depth _
  | CallTremolo rate depth =>
      fle rate (of_int 0) || fle depth (of_int 0)
  | CallDistortion amount _ => fle amount (of_int 0)
  | CallFilter _ cutoff _ => fle cutoff (of_int 0)
  | CallCompressor threshold ratio _ _ =>
      fle threshold (of_int 0) || fle ratio (of_int 1)
  end.

Definition is_reverb (c : StageCall F) : bool :=
  match c with CallReverb _ _ => true | _ => false end.

Definition is_delay (c : StageCall F) : bool :=
  match c with CallDelay _ _ _ => true | _ => false end.

(** The stage method the executor calls for a member of [EffectType]. *)
Definition call_stage (kind : EffectType) (audio : list F)
    (kw : list (string * PyVal F)) : M F (list F) :=
  match kind with
  | REVERB => call_reverb audio kw
  | DELAY => call_delay audio kw
  | CHORUS => call_chorus audio kw
  | FLANGER => call_flanger audio kw
  | DISTORTION => call_distortion audio kw
  | FILTER => call_filter audio kw
  | COMPRESSOR => call_compressor audio kw
  | TREMOLO => call_tremolo audio kw
  end.

(** An entry whose type is a member of [EffectType]. *)
Definition recognized (cfg : EffectConfig F) : bool :=
  match cfg_type cfg with
  | TagMember _ => true
  | TagStr _ | TagNone => false
  end.

(** The delay line of a processor: the ring and its cursor. *)
Definition delay_line (w : World F) : list F * Z :=
  (delay_buffer (self w), delay_index (self w)).

(** Writing one sample at the cursor of a ring and advancing it. *)
Definition ring_write (line : list F * Z) (x : F) : list F * Z :=
  (list_set (fst line) (Z.to_nat (snd line)) x,
   (snd line + 1) mod len (fst line)).

(** The processor as the constructor leaves it and every stage keeps it:
    a ring of [2 * sample_rate] slots, not empty, the cursor inside. *)
Definition wf_world (w : World F) : Prop :=
  0 < sample_rate (self w) /\
  len (delay_buffer (self w)) = 2 * sample_rate (self w) /\
  0 <= delay_index (self w) < len (delay_buffer (self w)).

(** The state after one turn of the loop of [apply_delay] that reads
    the sample [x]. *)
Definition after_write (w : World F) (x : F) : World F :=
  mkWorld (mkAudioEffects (sample_rate (self w))
             (fst (ring_write (delay_line w) x))
             (snd (ring_write (delay_line w) x)))
          (np_random w).


End Calls.

(** ** What a computation may touch *)

(** A computation that leaves the processor as it found it, whether it
    returns or raises. *)
Definition keeps_self {F A : Type} (m : M F A) : Prop :=
  forall w, self (snd (m w)) = self w.

(** A computation that neither reads nor draws from the random source:
    run on another source, it gives the same outcome and the same
    processor, and hands the source back untouched. *)
Definition rng_free {F A : Type} (m : M F A) : Prop :=
  forall (p : AudioEffects F) (r r' : nat -> F),
    m (mkWorld p r')
    = (fst (m (mkWorld p r)), mkWorld (self (snd (m (mkWorld p r)))) r').

(** A computation that reads nothing of the state but the sample rate,
    which it keeps: run in two states of one sample rate, it gives the
    same outcome. *)
Definition rate_only {F A : Type} (m : M F A) : Prop :=
  forall w w' : World F,
    sample_rate (self w) = sample_rate (self w') ->
    fst (m w) = fst (m w') /\
    sample_rate (self (snd (m w))) = sample_rate (self (snd (m w'))).

(** ** The two number systems *)

(** Exact real arithmetic: every operation without rounding, no NaN and
    no infinity, [int(x)] the truncation toward zero. *)
Module RealModel.

Definition Rleb (x y : R) : bool := if Rle_dec x y then true else false.
Definition Rltb (x y : R) : bool := if Rlt_dec x y then true else false.
Definition Reqb (x y : R) : bool := if Req_dec_T x y then true else false.

Definition Rtrunc (x : R) : Z :=
  if Rle_dec 0 x then Int_part x else (- Int_part (- x))%Z.

#[export] Instance R_Float64 : Float64 R := {|
  of_int := IZR;
  of_frac := fun n d => (IZR n / IZR d)%R;
  fadd := Rplus;
  fsub := Rminus;
  fmul := Rmult;
  fdiv := Rdiv;
  fneg := Ropp;
  fabs := Rabs;
  fle := Rleb;
  flt := Rltb;
  feqb := Reqb;
  to_int := fun x => Ok (Rtrunc x)
|}.

#[export] Instance R_Elementary : Elementary R := {|
  fpi := PI;
  fsin := sin;
  fcos := cos;
  fexp := exp;
  ftanh := tanh
|}.

End RealModel.

(** IEEE binary64, by the kernel's primitive floats: the arithmetic the
    interpreter performs, with its infinities and its NaN.  [of_int] is
    the float nearest to the integer (ties to even), as Python converts
    an [int] of any size that a float can hold (one past the largest
    float, which Python refuses, gives an infinity here); [of_frac] is
    the quotient of two such conversions, rounded once. *)
Module FloatModel.

Definition float_of_int (z : Z) : float :=
  SF2Prim (binary_normalize prec emax z 0 false).

Definition float_to_int (x : float) : Res Z :=
  match Prim2SF x with
  | S754_nan => Raise ValueError
  | S754_infinity _ => Raise OverflowError
  | S754_zero _ => Ok 0
  | S754_finite s m e =>
      let mag := if 0 <=? e then Zpos m * 2 ^ e else Zpos m / 2 ^ (- e) in
      Ok (if s then - mag else mag)
  end.

#[export] Instance float_Float64 : Float64 float := {|
  of_int := float_of_int;
  of_frac := fun n d => PrimFloat.div (float_of_int n) (float_of_int d);
  fadd := PrimFloat.add;
  fsub := PrimFloat.sub;
  fmul := PrimFloat.mul;
  fdiv := PrimFloat.div;
  fneg := PrimFloat.opp;
  fabs := PrimFloat.abs;
  fle := PrimFloat.leb;
  flt := PrimFloat.ltb;
  feqb := PrimFloat.eqb;
  to_int := float_to_int
|}.

(** A processor of the given sample rate as [__init__] leaves it, in a
    state whose random source will only hand out zeros. *)
Definition fresh (sample_rate : Z) : World float :=
  mkWorld (mkAudioEffects sample_rate
             (repeat PrimFloat.zero (Z.to_nat (sample_rate * 2))) 0)
          (fun _ => PrimFloat.zero).

End FloatModel.

Import RealModel.
Import FloatModel.

(** ** Inputs and reference values over the reals *)

Section RealInputs.
Local Open Scope R_scope.

(** A processor of the given sample rate as [__init__] leaves it, with
    the given variates to come. *)
Definition processor (sample_rate : Z) (noise : nat -> R) : World R :=
  mkWorld (mkAudioEffects sample_rate (repeat 0 (Z.to_nat (sample_rate * 2)))
             0%Z)
          noise.

(** A processor at 4 Hz whose ring holds two samples of an earlier
    buffer, 5 and 7, the cursor being back at slot 0. *)
Definition ringing_processor : World R :=
  mkWorld (mkAudioEffects 4 [5; 7; 0; 0; 0; 0; 0; 0] 0%Z) (fun _ => 0).

(** Three entries of a chain: a hard clipping at 0.5, an echo of a
    quarter of a second with the default mix, and a tremolo that says
    [speed] for [rate]. *)
Definition hard_clip_entry : EffectConfig R :=
  mkEffectConfig (TagMember DISTORTION)
    [("amount"%string, PyFloat (1 / 2)); ("type_"%string, PyStr "hard")].

Definition echo_entry : EffectConfig R :=
  mkEffectConfig (TagMember DELAY)
    [("delay_time"%string, PyFloat (1 / 4));
     ("feedback"%string, PyFloat (1 / 2))].

Definition misnamed_entry : EffectConfig R :=
  mkEffectConfig (TagMember TREMOLO) [("speed"%string, PyFloat 5)].

(** The unit impulse [1, 0, ..., 0] with [n] zeros. *)
Definition unit_impulse (n : nat) : list R := 1 :: repeat 0 n.

(** The first [k] values of the low-pass impulse response as the
    specification has it: [b * (1 - b)^i]. *)
Definition decay_run (b : R) (k : nat) : list R :=
  map (fun i => b * (1 - b) ^ i) (seq 0 k).

(** The time of sample [i] of [N] as [np.linspace(0, N / sample_rate, N)]
    has it: [N - 1] steps to the end point [N / sample_rate]. *)
Definition end_point_time (sample_rate N : Z) (i : nat) : R :=
  INR i * (IZR N / IZR sample_rate) / IZR (N - 1).

(** The tremolo output as the specification has it, on the time base
    [t_i = i / sample_rate]. *)
Definition tremolo_on_sample_clock (sample_rate : Z) (rate depth : R)
    (x : list R) (i : nat) : R :=
  nth i x 0
  * (1 - depth * (1 + sin (2 * PI * rate * (INR i / IZR sample_rate))) / 2).

End RealInputs.

(** ** The stage behind each kind of entry *)

(** The member of [EffectType] whose branch of the executor makes the
    call. *)
Definition stage_kind {F : Type} (c : StageCall F) : EffectType :=
  match c with
  | CallReverb _ _ => REVERB
  | CallDelay _ _ _ => DELAY
  | CallChorus _ _ _ => CHORUS
  | CallFlanger _ _ _ => FLANGER
  | CallDistortion _ _ => DISTORTION
  | CallFilter _ _ _ => FILTER
  | CallCompressor _ _ _ _ => COMPRESSOR
  | CallTremolo _ _ => TREMOLO
  end.

(** The parameters each stage method takes besides [audio], as its
    signature names them. *)
Definition stage_keywords (kind : EffectType) : list string :=
  match kind with
  | REVERB => ["room_size"; "damping"]
  | DELAY => ["delay_time"; "feedback"; "mix"]
  | CHORUS => ["rate"; "depth"; "mix"]
  | FLANGER => ["rate"; "depth"; "feedback"]
  | DISTORTION => ["amount"; "type_"]
  | FILTER => ["filter_type"; "cutoff"; "resonance"]
  | COMPRESSOR => ["threshold"; "ratio"; "attack"; "release"]
  | TREMOLO => ["rate"; "depth"]
  end%string.

(** ** The chain the command line builds *)

(** The [effects] branch of [Seq80x25CLI.run] in [cli_tool.py]: the
    options [--reverb], [--delay] and [--distortion] are floats, [None]
    when absent, and each one that is true adds an entry whose type is a
    string. *)
Section CommandLine.
Context {F : Type} `{Float64 F}.

(** [if x:] on an optional float: false on [None] and on zero. *)
Definition py_truthy (x : option F) : bool :=
  match x with
  | None => false
  | Some v => negb (feqb v (of_int 0))
  end.

Definition cli_entry (flag : option F) (cfg : F -> EffectConfig F)
    : list (EffectConfig F) :=
  match flag with
  | Some v => if py_truthy flag then [cfg v] else []
  | None => []
  end.

Definition cli_effects (reverb delay distortion : option F)
    : list (EffectConfig F) :=
  cli_entry reverb (fun v =>
    mkEffectConfig (TagStr "reverb")
      [("room_size"%string, PyFloat v);
       ("damping"%string, PyFloat (of_frac 1 2))])
  ++ cli_entry delay (fun v =>
    mkEffectConfig (TagStr "delay")
      [("delay_time"%string, PyFloat v);
       ("feedback"%string, PyFloat (of_frac 3 10))])
  ++ cli_entry distortion (fun v =>
    mkEffectConfig (TagStr "distortion")
      [("amount"%string, PyFloat v); ("type_"%string, PyStr "soft")]).

End CommandLine.

(** ** The wet sample of the delay *)

(** [output[i]] after turn [i] of the loop of [apply_delay], for the
    input sample [x] and the content [tap] of the ring at the cursor:
    the echo is added from sample [delay_samples] on. *)
Definition delay_wet {F : Type} `{Float64 F} (delay_samples : Z)
    (feedback : F) (i : Z) (x tap : F) : F :=
  if delay_samples <=? i then fadd x (fmul tap feedback) else x.

(** ** The empty buffer *)

(** What each stage does with the empty buffer, past its guard and with
    a sample rate that is not zero: [np.convolve] and [np.max] refuse an
    empty array, the low-pass and the high-pass read [audio[0]], and the
    other stages have nothing to loop over. *)
Definition empty_buffer_outcome {F : Type} (c : StageCall F)
    : Res (list F) :=
  match c with
  | CallReverb _ _ | CallFlanger _ _ _ => Raise ValueError
  | CallFilter filter_type _ _ =>
      if py_eq_str filter_type "lowpass" || py_eq_str filter_type "highpass"
      then Raise IndexError
      else Ok []
  | CallDelay _ _ _ | CallChorus _ _ _ | CallDistortion _ _
  | CallCompressor _ _ _ _ | CallTremolo _ _ => Ok []
  end.

(** ** Entries with fixed parameters *)

(** An entry that gives numbers to the numeric parameters: a string is
    given to [type_] or to [filter_type] only, as in the chains that
    [main] and the command line build. *)
Definition numeric_params {F : Type} (cfg : EffectConfig F) : bool :=
  forallb (fun p : string * PyVal F =>
             match snd p with
             | PyFloat _ => true
             | PyStr _ =>
                 String.eqb (fst p) "type_" || String.eqb (fst p) "filter_type"
             end)
          (cfg_params cfg).

(** The dictionary [params] gives the parameter [name] the value [v]: by
    one of its pairs or, the name being absent, by the default of the
    method's signature. *)
Definition param_is {F : Type} (params : list (string * PyVal F))
    (name : string) (default v : PyVal F) : Prop :=
  In (name, v) params \/ (~ In name (map fst params) /\ v = default).

(** The stage call an entry with fixed parameters stands for.  The
    entry's type is a member of [EffectType]; its [params] is a
    dictionary (no key twice) of names the member's method takes; the
    call is that method on the values [params] gives, every parameter
    it leaves out being at the default of the signature
    ([apply_reverb(self, audio, room_size=0.5, damping=0.5)] and so
    on). *)
Definition stands_for {F : Type} `{Float64 F} (cfg : EffectConfig F)
    (c : StageCall F) : Prop :=
  let params := cfg_params cfg in
  let number name default x :=
    param_is params name (PyFloat default) (PyFloat x) in
  cfg_type cfg = TagMember (stage_kind c) /\
  NoDup (map fst params) /\
  incl (map fst params) (stage_keywords (stage_kind c)) /\
  match c with
  | CallReverb room_size damping =>
      number "room_size" (of_frac 1 2) room_size /\
      number "damping" (of_frac 1 2) damping
  | CallDelay delay_time feedback mix =>
      number "delay_time" (of_frac 3 10) delay_time /\
      number "feedback" (of_frac 3 10) feedback /\
      number "mix" (of_frac 1 2) mix
  | CallChorus rate depth mix =>
      number "rate" (of_frac 3 2) rate /\
      number "depth" (of_frac 2 1000) depth /\
      number "mix" (of_frac 1 2) mix
  | CallFlanger rate depth feedback =>
      number "rate" (of_frac 1 2) rate /\
      number "depth" (of_frac 5 1000) depth /\
      number "feedback" (of_frac 3 10) feedback
  | CallDistortion amount type_ =>
      number "amount" (of_frac 1 2) amount /\
      param_is params "type_" (PyStr "soft") type_
  | CallFilter filter_type cutoff resonance =>
      param_is params "filter_type" (PyStr "lowpass") filter_type /\
      number "cutoff" (of_int 1000) cutoff /\
      number "resonance" (of_int 1) resonance
  | CallCompressor threshold ratio attack release =>
      number "threshold" (of_frac 1 2) threshold /\
      number "ratio" (of_int 4) ratio /\
      number "attack" (of_frac 1 100) attack /\
      number "release" (of_frac 1 10) release
  | CallTremolo rate depth =>
      number "rate" (of_int 5) rate /\
      number "depth" (of_frac 1 2) depth
  end%string.

(** ** The laws of the two monads *)

Section MonadLaws.
Context {F : Type}.

Lemma bind_ret_r {A : Type} (m : M F A) (w : World F) :
  bind m ret w = m w.
Proof.
  unfold bind, ret. destruct (m w) as [[a | e] w']; reflexivity.
Qed.

Lemma bind_assoc {A B C : Type} (m : M F A) (k : A -> M F B)
    (h : B -> M F C) (w : World F) :
  bind (bind m k) h w = bind m (fun a => bind (k a) h) w.
Proof.
  unfold bind. destruct (m w) as [[a | e] w']; reflexivity.
Qed.

Lemma bind_ext {A B : Type} (m : M F A) (k k' : A -> M F B) (w : World F) :
  (forall a w', k a w' = k' a w') -> bind m k w = bind m k' w.
Proof.
  intros E. unfold bind. destruct (m w) as [[a | e] w']; auto.
Qed.

Lemma for_each_app {A S : Type} (xs ys : list A) (body : A -> S -> M F S)
    (acc : S) (w : World F) :
  for_each (xs ++ ys) body acc w
  = bind (for_each xs body acc) (for_each ys body) w.
Proof.
  revert acc w. induction xs as [| x xs IH]; intros acc w; simpl.
  - reflexivity.
  - rewrite bind_assoc. apply bind_ext. intros a w'. apply IH.
Qed.

End MonadLaws.

(** ** The chain executor: order and unknown kinds *)

Section Chain.
Context {F : Type} `{Float64 F} `{Elementary F}.

Lemma chain_step_member (kind : EffectType) (kw : list (string * PyVal F))
    (output : list F) :
  chain_step (mkEffectConfig (TagMember kind) kw) output
  = call_stage kind output kw.
Proof. destruct kind; reflexivity. Qed.

Lemma chain_step_unrecognized (cfg : EffectConfig F) (output : list F) :
  recognized cfg = false -> chain_step cfg output = ret output.
Proof.
  unfold recognized, chain_step. destruct (cfg_type cfg); simpl;
    [discriminate | reflexivity | reflexivity].
Qed.

(** Looking a name up in a dictionary. *)
Lemma kw_lookup_in (kw : list (string * PyVal F)) (name : string)
    (v : PyVal F) :
  NoDup (map fst kw) -> In (name, v) kw -> kw_lookup name kw = Some v.
Proof.
  induction kw as [| [k x] kw IH]; cbn [map fst kw_lookup]; intros Hnd Hin.
  - contradiction.
  - inversion Hnd as [| ? ? Hk Hnd']; subst.
    destruct Hin as [E | Hin].
    + injection E as -> ->. now rewrite String.eqb_refl.
    + destruct (String.eqb k name) eqn:Ek.
      * apply String.eqb_eq in Ek. subst k. exfalso. apply Hk.
        apply (in_map fst) in Hin. exact Hin.
      * now apply IH.
Qed.

Lemma kw_lookup_absent (kw : list (string * PyVal F)) (name : string) :
  ~ In name (map fst kw) -> kw_lookup name kw = None.
Proof.
  induction kw as [| [k x] kw IH]; cbn [map fst kw_lookup]; intros Hn.
  - reflexivity.
  - destruct (String.eqb k name) eqn:Ek.
    + apply String.eqb_eq in Ek. subst k. exfalso. apply Hn. now left.
    + apply IH. intros Hi. apply Hn. now right.
Qed.

Lemma kw_any_param_is (kw : list (string * PyVal F)) (name : string)
    (default v : PyVal F) :
  NoDup (map fst kw) -> param_is kw name default v ->
  kw_any name default kw = v.
Proof.
  intros Hnd [Hin | [Hn ->]]; unfold kw_any.
  - now rewrite (kw_lookup_in kw name v Hnd Hin).
  - now rewrite (kw_lookup_absent kw name Hn).
Qed.

Lemma kw_float_param_is (kw : list (string * PyVal F)) (name : string)
    (default x : F) :
  NoDup (map fst kw) -> param_is kw name (PyFloat default) (PyFloat x) ->
  kw_float name default kw = Ok x.
Proof.
  intros Hnd [Hin | [Hn E]]; unfold kw_float.
  - now rewrite (kw_lookup_in kw name (PyFloat x) Hnd Hin).
  - rewrite (kw_lookup_absent kw name Hn). now injection E as ->.
Qed.

Lemma kw_known_incl (names : list string) (kw : list (string * PyVal F)) :
  incl (map fst kw) names -> kw_known names kw = true.
Proof.
  intros Hi. unfold kw_known. apply forallb_forall. intros [k v] Hin.
  apply existsb_exists. exists k. split.
  - apply Hi. apply (in_map fst) in Hin. exact Hin.
  - apply String.eqb_refl.
Qed.

(** The step of the executor on an entry with fixed parameters is the
    call the entry stands for. *)
Lemma chain_step_stands_for (cfg : EffectConfig F) (c : StageCall F)
    (output : list F) (w : World F) :
  stands_for cfg c -> chain_step cfg output w = run_stage c output w.
Proof.
  destruct cfg as [t kw]. unfold stands_for.
  cbn [cfg_type cfg_params]. intros (-> & Hnd & Hincl & Hp).
  rewrite chain_step_member.
  destruct c; cbn [stage_kind stage_keywords call_stage run_stage] in *;
    unfold call_reverb, call_delay, call_chorus, call_flanger,
      call_distortion, call_filter, call_compressor, call_tremolo,
      check_names;
    rewrite (kw_known_incl _ kw Hincl);
    repeat match type of Hp with
           | _ /\ _ => let Hq := fresh "Hq" in destruct Hp as (Hq & Hp)
           end;
    unfold bind, ret, lift;
    repeat match goal with
           | Hq : param_is kw ?n (PyFloat ?d) (PyFloat ?x) |- _ =>
               rewrite (kw_float_param_is kw n d x Hnd Hq); clear Hq
           | Hq : param_is kw ?n ?d ?v |- _ =>
               rewrite (kw_any_param_is kw n d v Hnd Hq); clear Hq
           end;
    reflexivity.
Qed.

(** C5. The chain of two entries with fixed parameters, each of a kind
    the executor recognizes, is the stage method of the first entry
    called on the buffer, then the stage method of the second called on
    what the first returned, in the processor state the first left; if
    the first raises, the second is not called. *)
Theorem chain_sequential_composition (A C : EffectConfig F)
    (a c : StageCall F) (B : list F) (w : World F) :
  stands_for A a ->
  stands_for C c ->
  apply_multiple_effects B [A; C] w
  = match run_stage a B w with
    | (Ok B', w') => run_stage c B' w'
    | (Raise e, w') => (Raise e, w')
    end.
Proof.
  intros HA HC. unfold apply_multiple_effects, np_copy. cbn [for_each].
  unfold bind. rewrite (chain_step_stands_for A a B w HA).
  destruct (run_stage a B w) as [[B' | e] w']; [| reflexivity].
  rewrite (chain_step_stands_for C c B' w' HC).
  unfold ret. destruct (run_stage c B' w') as [[out | e] w'']; reflexivity.
Qed.

Lemma for_each_skip_unrecognized (chain : list (EffectConfig F))
    (output : list F) (w : World F) :
  for_each chain chain_step output w
  = for_each (filter recognized chain) chain_step output w.
Proof.
  revert output w. induction chain as [| cfg chain IH]; intros output w.
  - reflexivity.
  - simpl. destruct (recognized cfg) eqn:E.
    + simpl. apply bind_ext. intros a w'. apply IH.
    + rewrite (chain_step_unrecognized cfg output E).
      unfold bind, ret. apply IH.
Qed.

(** C6. An entry whose type is no member of [EffectType] (a string, or no
    type at all) is passed over: the step returns the working buffer and
    the state as they were, and the whole chain gives what the chain
    without such entries gives. *)
Theorem unknown_kinds_skipped :
  (forall (s : string) (kw : list (string * PyVal F)) (output : list F)
          (w : World F),
      chain_step (mkEffectConfig (TagStr s) kw) output w = (Ok output, w)) /\
  (forall (kw : list (string * PyVal F)) (output : list F) (w : World F),
      chain_step (mkEffectConfig TagNone kw) output w = (Ok output, w)) /\
  (forall (B : list F) (chain : list (EffectConfig F)) (w : World F),
      apply_multiple_effects B chain w
      = apply_multiple_effects B (filter recognized chain) w).
Proof.
  split; [| split].
  - reflexivity.
  - reflexivity.
  - intros B chain w. unfold apply_multiple_effects.
    apply for_each_skip_unrecognized.
Qed.

End Chain.

(** ** Degenerate parameters *)

Section Identity.
Context {F : Type} `{Float64 F} `{Elementary F}.

(** C1. A stage called with degenerate parameters (the guard that opens
    its method holds) returns its input buffer, raises nothing and leaves
    the state as it was. *)
Theorem identity_on_degenerate (c : StageCall F) (audio : list F)
    (w : World F) :
  degenerate c = true -> run_stage c audio w = (Ok audio, w).
Proof.
  destruct c; simpl; intros E.
  - unfold apply_reverb. rewrite E. reflexivity.
  - unfold apply_delay. rewrite E. reflexivity.
  - unfold apply_chorus. rewrite E. reflexivity.
  - unfold apply_flanger. rewrite E. reflexivity.
  - unfold apply_distortion. rewrite E. reflexivity.
  - unfold apply_filter. rewrite E. reflexivity.
  - unfold apply_compressor. rewrite E. reflexivity.
  - unfold apply_tremolo. rewrite E. reflexivity.
Qed.

End Identity.

(** ** Footprints are kept by the monad's operations *)

Section Frames.
Context {F : Type}.

Lemma keeps_self_ret {A : Type} (a : A) : keeps_self (ret (F := F) a).
Proof. intros w. reflexivity. Qed.

Lemma keeps_self_raise {A : Type} (e : Exn) :
  keeps_self (raise (F := F) (A := A) e).
Proof. intros w. reflexivity. Qed.

Lemma keeps_self_lift {A : Type} (r : Res A) : keeps_self (lift (F := F) r).
Proof. intros w. reflexivity. Qed.

Lemma keeps_self_get_sample_rate : keeps_self (get_sample_rate (F := F)).
Proof. intros w. reflexivity. Qed.

Lemma keeps_self_randn (n : Z) : keeps_self (randn (F := F) n).
Proof. intros w. unfold randn. destruct (n <? 0); reflexivity. Qed.

Lemma keeps_self_bind {A B : Type} (m : M F A) (k : A -> M F B) :
  keeps_self m -> (forall a, keeps_self (k a)) -> keeps_self (bind m k).
Proof.
  intros Hm Hk w. unfold bind. specialize (Hm w).
  destruct (m w) as [[a | e] w']; simpl in *.
  - rewrite Hk. exact Hm.
  - exact Hm.
Qed.

Lemma rng_free_ret {A : Type} (a : A) : rng_free (ret (F := F) a).
Proof. intros p r r'. reflexivity. Qed.

Lemma rng_free_raise {A : Type} (e : Exn) :
  rng_free (raise (F := F) (A := A) e).
Proof. intros p r r'. reflexivity. Qed.

Lemma rng_free_lift {A : Type} (x : Res A) : rng_free (lift (F := F) x).
Proof. intros p r r'. reflexivity. Qed.

Lemma rng_free_get_sample_rate : rng_free (get_sample_rate (F := F)).
Proof. intros p r r'. reflexivity. Qed.

Lemma rng_free_get_delay_buffer : rng_free (get_delay_buffer (F := F)).
Proof. intros p r r'. reflexivity. Qed.

Lemma rng_free_get_delay_index : rng_free (get_delay_index (F := F)).
Proof. intros p r r'. reflexivity. Qed.

Lemma rng_free_set_delay_buffer (b : list F) :
  rng_free (set_delay_buffer b).
Proof. intros p r r'. reflexivity. Qed.

Lemma rng_free_set_delay_index (i : Z) : rng_free (set_delay_index (F := F) i).
Proof. intros p r r'. reflexivity. Qed.

Lemma rng_free_bind {A B : Type} (m : M F A) (k : A -> M F B) :
  rng_free m -> (forall a, rng_free (k a)) -> rng_free (bind m k).
Proof.
  intros Hm Hk p r r'. unfold bind.
  pose proof (Hm p r r') as E'. pose proof (Hm p r r) as E.
  destruct (m (mkWorld p r)) as [x w1] eqn:E1. simpl in E, E'.
  rewrite E'. injection E as Ew. rewrite Ew.
  destruct x as [a | e].
  - apply Hk.
  - reflexivity.
Qed.

Lemma rng_free_for_each {A S : Type} (xs : list A) (body : A -> S -> M F S) :
  (forall x acc, rng_free (body x acc)) ->
  forall acc, rng_free (for_each xs body acc).
Proof.
  intros Hb. induction xs as [| x xs IH]; intros acc; simpl.
  - apply rng_free_ret.
  - apply rng_free_bind; [apply Hb | exact IH].
Qed.

Lemma rate_only_ret {A : Type} (a : A) : rate_only (ret (F := F) a).
Proof. intros w w' E. auto. Qed.

Lemma rate_only_raise {A : Type} (e : Exn) :
  rate_only (raise (F := F) (A := A) e).
Proof. intros w w' E. auto. Qed.

Lemma rate_only_lift {A : Type} (x : Res A) : rate_only (lift (F := F) x).
Proof. intros w w' E. auto. Qed.

Lemma rate_only_get_sample_rate : rate_only (get_sample_rate (F := F)).
Proof. intros w w' E. unfold get_sample_rate. simpl. now rewrite E. Qed.

Lemma rate_only_bind {A B : Type} (m : M F A) (k : A -> M F B) :
  rate_only m -> (forall a, rate_only (k a)) -> rate_only (bind m k).
Proof.
  intros Hm Hk w w' E. unfold bind.
  destruct (Hm w w' E) as [E1 E2].
  destruct (m w) as [x w1], (m w') as [x' w1']. simpl in E1, E2. subst x'.
  destruct x as [a | e].
  - now apply Hk.
  - auto.
Qed.

End Frames.

Create HintDb frames discriminated.
#[export] Hint Resolve keeps_self_ret keeps_self_raise keeps_self_lift
  keeps_self_get_sample_rate keeps_self_randn : frames.
#[export] Hint Resolve rate_only_ret rate_only_raise rate_only_lift
  rate_only_get_sample_rate : frames.
#[export] Hint Resolve rng_free_ret rng_free_raise rng_free_lift
  rng_free_get_sample_rate rng_free_get_delay_buffer rng_free_get_delay_index
  rng_free_set_delay_buffer rng_free_set_delay_index : frames.

(** Splits a computation along its binds and its branches. *)
Ltac frame_step :=
  match goal with
  | |- keeps_self (bind _ _) => apply keeps_self_bind; [| intros ?]
  | |- rng_free (bind _ _) => apply rng_free_bind; [| intros ?]
  | |- rate_only (bind _ _) => apply rate_only_bind; [| intros ?]
  | |- rate_only (if ?b then _ else _) => destruct b
  | |- rng_free (for_each _ _ _) => apply rng_free_for_each; intros ? ?
  | |- keeps_self (if ?b then _ else _) => destruct b
  | |- rng_free (if ?b then _ else _) => destruct b
  | |- _ => solve [auto with frames]
  end.

(** ** Which stage touches what *)

Section StageFrames.
Context {F : Type} `{Float64 F} `{Elementary F}.

(** Every stage but the delay leaves the processor alone. *)
Lemma stage_keeps_self (c : StageCall F) (audio : list F) :
  is_delay c = false -> keeps_self (run_stage c audio).
Proof.
  destruct c; simpl; try discriminate; intros _;
    unfold apply_reverb, apply_chorus, apply_flanger, apply_distortion,
      apply_filter, apply_compressor, apply_tremolo;
    repeat frame_step.
Qed.

(** Every stage but the reverb ignores the random source. *)
Lemma stage_rng_free (c : StageCall F) (audio : list F) :
  is_reverb c = false -> rng_free (run_stage c audio).
Proof.
  destruct c; simpl; try discriminate; intros _;
    unfold apply_delay, delay_step, apply_chorus, apply_flanger,
      apply_distortion, apply_filter, apply_compressor, apply_tremolo;
    repeat frame_step.
Qed.

(** Every stage but the reverb and the delay reads nothing of the state
    but the sample rate. *)
Lemma stage_rate_only (c : StageCall F) (audio : list F) :
  is_reverb c = false -> is_delay c = false -> rate_only (run_stage c audio).
Proof.
  destruct c; simpl; try discriminate; intros _ _;
    unfold apply_chorus, apply_flanger, apply_distortion, apply_filter,
      apply_compressor, apply_tremolo;
    repeat frame_step.
Qed.

(** A stage other than the reverb, run twice on one buffer with one set
    of parameters by processors in the same state, returns (or raises)
    the same both times and leaves the processors in the same state,
    whatever the random sources hold; it draws nothing from them. *)
Lemma stage_deterministic (c : StageCall F) (audio : list F)
    (w1 w2 : World F) :
  is_reverb c = false ->
  self w1 = self w2 ->
  fst (run_stage c audio w1) = fst (run_stage c audio w2) /\
  self (snd (run_stage c audio w1)) = self (snd (run_stage c audio w2)) /\
  np_random (snd (run_stage c audio w1)) = np_random w1 /\
  np_random (snd (run_stage c audio w2)) = np_random w2.
Proof.
  intros Hc E. pose proof (stage_rng_free c audio Hc) as Hf.
  destruct w1 as [p1 r1], w2 as [p2 r2]. simpl in E. subst p2. simpl.
  pose proof (Hf p1 r1 r2) as E2. pose proof (Hf p1 r1 r1) as E1.
  rewrite E2. simpl. repeat split; try reflexivity.
  rewrite E1. reflexivity.
Qed.

End StageFrames.

(** ** Arrays: indexing inside the bounds *)

Section Arrays.
Context {A : Type}.

Lemma list_set_length (a : list A) (n : nat) (x : A) :
  length (list_set a n x) = length a.
Proof.
  revert n. induction a as [| h t IH]; intros [| n]; simpl; auto.
Qed.

Lemma len_list_set (a : list A) (n : nat) (x : A) :
  len (list_set a n x) = len a.
Proof. unfold len. now rewrite list_set_length. Qed.

Lemma len_nonneg (a : list A) : 0 <= len a.
Proof. unfold len. lia. Qed.

Lemma len_app (a b : list A) : len (a ++ b) = len a + len b.
Proof. unfold len. rewrite length_app. lia. Qed.

Lemma np_index_inside (n i : Z) :
  0 <= i < n -> np_index n i = Ok (Z.to_nat i).
Proof.
  intros Hi. unfold np_index.
  destruct (i <? 0) eqn:E; [apply Z.ltb_lt in E; lia |].
  replace (0 <=? i) with true by (symmetry; apply Z.leb_le; lia).
  replace (i <? n) with true by (symmetry; apply Z.ltb_lt; lia).
  reflexivity.
Qed.

Lemma np_index_above (n i : Z) :
  0 <= i -> n <= i -> np_index n i = Raise IndexError.
Proof.
  intros Hi Hn. unfold np_index.
  destruct (i <? 0) eqn:E; [apply Z.ltb_lt in E; lia |].
  replace (i <? n) with false by (symmetry; apply Z.ltb_ge; lia).
  now rewrite andb_false_r.
Qed.

Lemma np_get_inside (a : list A) (i : Z) :
  0 <= i < len a ->
  exists x, nth_error a (Z.to_nat i) = Some x /\ np_get a i = Ok x.
Proof.
  intros Hi. unfold np_get. rewrite np_index_inside by exact Hi. simpl.
  destruct (nth_error a (Z.to_nat i)) as [x |] eqn:E.
  - exists x. auto.
  - apply nth_error_None in E. unfold len in Hi. lia.
Qed.

Lemma np_get_nth (a : list A) (i : Z) (x : A) :
  0 <= i -> nth_error a (Z.to_nat i) = Some x -> np_get a i = Ok x.
Proof.
  intros Hi E. unfold np_get. rewrite np_index_inside.
  - simpl. now rewrite E.
  - split; [exact Hi |].
    assert (Z.to_nat i < length a)%nat
      by (apply nth_error_Some; rewrite E; discriminate).
    unfold len. lia.
Qed.

Lemma np_set_inside (a : list A) (i : Z) (x : A) :
  0 <= i < len a -> np_set a i x = Ok (list_set a (Z.to_nat i) x).
Proof.
  intros Hi. unfold np_set. now rewrite np_index_inside by exact Hi.
Qed.

Lemma np_get_above (a : list A) (i : Z) :
  len a <= i -> np_get a i = Raise IndexError.
Proof.
  intros Hi. unfold np_get. rewrite np_index_above; auto.
  pose proof (len_nonneg a). lia.
Qed.

Lemma nth_error_list_set_eq (a : list A) (n : nat) (x : A) :
  (n < length a)%nat -> nth_error (list_set a n x) n = Some x.
Proof.
  revert n. induction a as [| h t IH]; intros [| n] Hn; simpl in *;
    try lia; auto. apply IH. lia.
Qed.

Lemma nth_error_list_set_neq (a : list A) (n m : nat) (x : A) :
  n <> m -> nth_error (list_set a n x) m = nth_error a m.
Proof.
  revert n m. induction a as [| h t IH]; intros [| n] [| m] Hn; simpl;
    try congruence; auto.
Qed.

Lemma range_nil (lo hi : Z) : hi <= lo -> range lo hi = [].
Proof.
  intros Hle. unfold range. replace (Z.to_nat (hi - lo)) with O by lia.
  reflexivity.
Qed.

Lemma range_cons (lo hi : Z) :
  lo < hi -> range lo hi = lo :: range (lo + 1) hi.
Proof.
  intros Hlt. unfold range.
  replace (Z.to_nat (hi - lo)) with (S (Z.to_nat (hi - (lo + 1)))) by lia.
  simpl. f_equal; [lia |].
  rewrite <- seq_shift, map_map. apply map_ext. intros k. lia.
Qed.

Lemma range_length (lo hi : Z) : length (range lo hi) = Z.to_nat (hi - lo).
Proof. unfold range. now rewrite length_map, length_seq. Qed.

Lemma nth_error_range (lo hi : Z) (i : nat) :
  (i < Z.to_nat (hi - lo))%nat ->
  nth_error (range lo hi) i = Some (lo + Z.of_nat i).
Proof.
  intros Hi. unfold range. rewrite nth_error_map.
  replace (nth_error (seq 0 (Z.to_nat (hi - lo))) i) with (Some i).
  - reflexivity.
  - symmetry.
    rewrite nth_error_nth' with (d := O) by (now rewrite length_seq).
    now rewrite seq_nth.
Qed.

Lemma nth_error_list_set (a : list A) (n m : nat) (x : A) :
  (n < length a)%nat ->
  nth_error (list_set a n x) m
  = if Nat.eq_dec n m then Some x else nth_error a m.
Proof.
  intros Hn. destruct (Nat.eq_dec n m) as [<- | Hne].
  - now apply nth_error_list_set_eq.
  - now apply nth_error_list_set_neq.
Qed.

Lemma nth_error_combine_map {B C : Type} (f : A * B -> C) (a : list A)
    (b : list B) (i : nat) (x : A) (y : B) :
  nth_error a i = Some x ->
  nth_error b i = Some y ->
  nth_error (map f (combine a b)) i = Some (f (x, y)).
Proof.
  revert b i. induction a as [| h t IH]; intros [| h' t'] [| i] Ha Hb;
    simpl in *; try discriminate.
  - now injection Ha as ->; injection Hb as ->.
  - now apply IH.
Qed.

End Arrays.

(** ** The delay line *)

Section DelayLine.
Context {F : Type} `{Float64 F}.

Lemma np_zip_same_length (op : F -> F -> F) (a b : list F) :
  length a = length b ->
  exists out, np_zip op a b = Ok out /\ length out = length a.
Proof.
  intros E. unfold np_zip. rewrite E, Nat.eqb_refl.
  eexists. split; [reflexivity |].
  rewrite length_map, length_combine. lia.
Qed.

Lemma mix_dry_wet_same_length (mix : F) (audio wet : list F) :
  length wet = length audio ->
  exists out, mix_dry_wet mix audio wet = Ok out /\
              length out = length audio.
Proof.
  intros E. unfold mix_dry_wet.
  destruct (np_zip_same_length fadd
              (map (fun x => fmul (fsub (of_int 1) mix) x) audio)
              (map (fun x => fmul mix x) wet)) as (out & E1 & E2).
  - rewrite !length_map. auto.
  - exists out. split; [exact E1 |]. now rewrite E2, length_map.
Qed.

(** The ring after a run of writes: as long as before, the cursor moved
    by their number around it. *)
Lemma ring_writes_length (xs : list F) (line : list F * Z) :
  len (fst (fold_left ring_write xs line)) = len (fst line).
Proof.
  revert line. induction xs as [| x xs IH]; intros line; simpl.
  - reflexivity.
  - rewrite IH. unfold ring_write. simpl. apply len_list_set.
Qed.

Lemma ring_writes_cursor (xs : list F) (line : list F * Z) :
  0 <= snd line < len (fst line) ->
  snd (fold_left ring_write xs line) = (snd line + len xs) mod len (fst line).
Proof.
  revert line. induction xs as [| x xs IH]; intros [buf idx] Hi; simpl in *.
  - unfold len at 1. simpl. rewrite Z.add_0_r. symmetry.
    apply Z.mod_small. exact Hi.
  - rewrite IH; unfold ring_write; simpl.
    + rewrite len_list_set. rewrite Z.add_mod_idemp_l by lia.
      f_equal. unfold len. simpl length. lia.
    + rewrite len_list_set. apply Z.mod_pos_bound. lia.
Qed.

Lemma mod_slots_differ (c a i n : Z) :
  0 < c -> 0 <= i < n -> n - i < c -> (a + i) mod c <> (a + n) mod c.
Proof.
  intros Hc Hi Hn E.
  assert (Hd : ((a + n) - (a + i)) mod c = 0).
  { rewrite Zminus_mod, E, Z.sub_diag. apply Z.mod_0_l. lia. }
  replace (a + n - (a + i)) with (n - i) in Hd by lia.
  rewrite Z.mod_small in Hd by lia. lia.
Qed.

(** When the writes are no more than the ring has slots, none is
    overwritten: sample [i] sits [i] slots after the old cursor. *)
Lemma ring_writes_content (xs : list F) (buf : list F) (idx : Z) :
  0 <= idx < len buf ->
  len xs <= len buf ->
  forall (i : nat) (x : F),
    nth_error xs i = Some x ->
    nth_error (fst (fold_left ring_write xs (buf, idx)))
              (Z.to_nat ((idx + Z.of_nat i) mod len buf))
    = Some x.
Proof.
  intros Hidx. induction xs as [| y xs IH] using rev_ind;
    intros Hlen i x Hx.
  - destruct i; discriminate.
  - rewrite len_app in Hlen. unfold len at 2 in Hlen. simpl in Hlen.
    rewrite fold_left_app. cbn [fold_left].
    change (fst (ring_write ?l y))
      with (list_set (fst l) (Z.to_nat (snd l)) y).
    pose proof (ring_writes_cursor xs (buf, idx) Hidx) as Hc.
    pose proof (ring_writes_length xs (buf, idx)) as Hl.
    cbn [fst snd] in Hc, Hl. rewrite Hc.
    assert (Hb : forall k, 0 <= (idx + k) mod len buf < len buf)
      by (intros k; apply Z.mod_pos_bound; lia).
    destruct (Nat.eq_dec i (length xs)) as [-> | Hne].
    + rewrite nth_error_app2, Nat.sub_diag in Hx by lia.
      injection Hx as ->. fold (len xs).
      apply nth_error_list_set_eq.
      specialize (Hb (len xs)). unfold len in *. lia.
    + assert (Hi : (i < length xs)%nat).
      { assert (Hi' : (i < length (xs ++ [y]))%nat)
          by (apply nth_error_Some; congruence).
        rewrite length_app in Hi'. simpl in Hi'. lia. }
      rewrite nth_error_app1 in Hx by exact Hi.
      rewrite nth_error_list_set_neq.
      * apply IH; [lia | exact Hx].
      * intros E. apply Z2Nat.inj in E; try apply Hb.
        symmetry in E. revert E.
        apply mod_slots_differ; unfold len in *; lia.
Qed.

Lemma delay_step_spec (audio : list F) (delay_samples : Z) (feedback : F)
    (i : Z) (output : list F) (w : World F) (x : F) :
  0 <= delay_index (self w) < len (delay_buffer (self w)) ->
  0 <= i < len output ->
  nth_error audio (Z.to_nat i) = Some x ->
  exists output',
    delay_step audio delay_samples feedback i output w
    = (Ok output', after_write w x) /\
    length output' = length output.
Proof.
  intros Hidx Hi Hx.
  assert (Hget : np_get audio i = Ok x) by (apply np_get_nth; tauto).
  destruct (np_get_inside (delay_buffer (self w)) (delay_index (self w)) Hidx)
    as (tap & _ & Htap).
  destruct (np_get_inside output i Hi) as (o & _ & Ho).
  assert (Hmod : py_mod (delay_index (self w) + 1)
                   (len (list_set (delay_buffer (self w))
                           (Z.to_nat (delay_index (self w))) x))
                 = Ok ((delay_index (self w) + 1)
                         mod len (delay_buffer (self w)))).
  { unfold py_mod. rewrite len_list_set.
    destruct (len (delay_buffer (self w)) =? 0) eqn:E0;
      [apply Z.eqb_eq in E0; lia | reflexivity]. }
  unfold delay_step.
  destruct (delay_samples <=? i).
  - exists (list_set output (Z.to_nat i) (fadd o (fmul tap feedback))).
    split; [| apply list_set_length].
    unfold bind, lift, get_delay_buffer, get_delay_index, set_delay_buffer,
      set_delay_index, ret. simpl.
    rewrite Htap, Ho. rewrite np_set_inside by exact Hi.
    rewrite Hget. rewrite np_set_inside by exact Hidx.
    rewrite Hmod. reflexivity.
  - exists output. split; [| reflexivity].
    unfold bind, lift, get_delay_buffer, get_delay_index, set_delay_buffer,
      set_delay_index, ret. simpl.
    rewrite Hget. rewrite np_set_inside by exact Hidx.
    rewrite Hmod. reflexivity.
Qed.

(** The loop of [apply_delay] from sample [len pre] on: it ends without
    raising, having written the remaining samples in their order. *)
Lemma delay_loop_spec (audio : list F) (delay_samples : Z) (feedback : F)
    (rest pre output : list F) (w : World F) :
  audio = pre ++ rest ->
  length output = length audio ->
  0 <= delay_index (self w) < len (delay_buffer (self w)) ->
  exists output',
    for_each (range (len pre) (len audio))
             (delay_step audio delay_samples feedback) output w
    = (Ok output',
       let line := fold_left ring_write rest (delay_line w) in
       mkWorld (mkAudioEffects (sample_rate (self w)) (fst line) (snd line))
               (np_random w)) /\
    length output' = length audio.
Proof.
  revert pre output w. induction rest as [| x rest IH];
    intros pre output w Ea Hlen Hidx.
  - rewrite app_nil_r in Ea. subst pre. rewrite range_nil by lia.
    exists output. split; [| exact Hlen].
    simpl. unfold ret, delay_line. destruct w as [[sr buf idx] r].
    reflexivity.
  - assert (Hpre : 0 <= len pre < len audio).
    { rewrite Ea, len_app. unfold len. simpl length. lia. }
    rewrite range_cons by lia.
    assert (Hx : nth_error audio (Z.to_nat (len pre)) = Some x).
    { rewrite Ea. unfold len. rewrite Nat2Z.id.
      rewrite nth_error_app2 by lia. now rewrite Nat.sub_diag. }
    destruct (delay_step_spec audio delay_samples feedback (len pre) output
                w x Hidx) as (out1 & E1 & L1); auto.
    { unfold len in *. lia. }
    simpl for_each. unfold bind at 1. rewrite E1.
    destruct (IH (pre ++ [x]) out1 (after_write w x)) as (out2 & E2 & L2).
    + rewrite <- app_assoc. exact Ea.
    + congruence.
    + unfold after_write, ring_write, delay_line. simpl.
      rewrite len_list_set. apply Z.mod_pos_bound. lia.
    + exists out2. split; [| exact L2].
      rewrite len_app in E2. unfold len at 2 in E2. simpl length in E2.
      simpl Z.of_nat in E2. rewrite E2. reflexivity.
Qed.

End DelayLine.

Section DelayLineClaim.
Context {F : Type} `{Float64 F} `{Elementary F}.

(** The constructor, given a positive sample rate, makes a processor of
    the shape the statements below start from. *)
Lemma init_wf (sr : Z) (p : AudioEffects F) (r : nat -> F) :
  0 < sr -> init sr = Ok p -> wf_world (mkWorld p r).
Proof.
  intros Hsr. unfold init, np_zeros.
  replace (sr * 2 <? 0) with false by (symmetry; apply Z.ltb_ge; lia).
  cbn [res_bind]. intros E. injection E as <-.
  unfold wf_world, len. cbn [self sample_rate delay_buffer delay_index].
  rewrite repeat_length. lia.
Qed.

(** What [apply_delay] does past its guard, once the delay in samples is
    known: it returns, and the delay line is the old one after the
    writes of the input samples, first to last. *)
Lemma apply_delay_effective (audio : list F) (delay_time feedback mix : F)
    (w : World F) (d : Z) :
  0 <= delay_index (self w) < len (delay_buffer (self w)) ->
  fle delay_time (of_int 0) || fle feedback (of_int 0) = false ->
  to_int (fmul delay_time (of_int (sample_rate (self w)))) = Ok d ->
  exists out,
    apply_delay audio delay_time feedback mix w
    = (Ok out,
       let line := fold_left ring_write audio (delay_line w) in
       mkWorld (mkAudioEffects (sample_rate (self w)) (fst line) (snd line))
               (np_random w)) /\
    length out = length audio.
Proof.
  intros Hidx Hg Hd. unfold apply_delay. rewrite Hg.
  unfold bind at 1. unfold get_sample_rate at 1.
  unfold bind at 1. unfold lift at 1. rewrite Hd.
  destruct (delay_loop_spec audio d feedback audio [] (np_copy audio) w)
    as (output & E & L); auto.
  change (len (@nil F)) with 0 in E.
  unfold bind at 1. rewrite E.
  destruct (mix_dry_wet_same_length mix audio output L) as (out & Eo & Lo).
  exists out. split; [| exact Lo]. unfold lift. now rewrite Eo.
Qed.

(** C4. On a processor as the constructor makes it, a stage call never
    resizes the delay buffer nor changes the sample rate; a call that is
    not the delay, or is the delay with its guard holding, leaves the
    ring and the cursor as they were; and a delay call past its guard,
    on a buffer of [N] samples, returns with the ring holding the writes
    of the [N] input samples in their order, the cursor moved by [N]
    around the ring of [2 * sample_rate] slots and still inside it; when
    [N] is no more than the ring has slots, sample [i] is in the slot
    [i] places after the old cursor. *)
Theorem delay_line_frame_and_cursor (c : StageCall F) (audio : list F)
    (w : World F) :
  wf_world w ->
  let w' := snd (run_stage c audio w) in
  len (delay_buffer (self w')) = 2 * sample_rate (self w) /\
  sample_rate (self w') = sample_rate (self w) /\
  (is_delay c = false \/ degenerate c = true ->
   delay_line w' = delay_line w) /\
  (forall d,
      is_delay c = true -> degenerate c = false ->
      (forall dt fb mix, c = CallDelay dt fb mix ->
         to_int (fmul dt (of_int (sample_rate (self w)))) = Ok d) ->
      is_ok (fst (run_stage c audio w)) = true /\
      delay_line w' = fold_left ring_write audio (delay_line w) /\
      delay_index (self w')
      = (delay_index (self w) + len audio) mod (2 * sample_rate (self w)) /\
      0 <= delay_index (self w') < 2 * sample_rate (self w) /\
      (len audio <= 2 * sample_rate (self w) ->
       forall (i : nat) (x : F),
         nth_error audio i = Some x ->
         nth_error (delay_buffer (self w'))
                   (Z.to_nat ((delay_index (self w) + Z.of_nat i)
                                mod (2 * sample_rate (self w))))
         = Some x)).
Proof.
  intros (Hsr & Hlen & Hidx) w'. subst w'.
  destruct (is_delay c) eqn:Hc.
  - destruct c; try discriminate. simpl run_stage. simpl degenerate.
    destruct (fle delay_time (of_int 0) || fle feedback (of_int 0)) eqn:Hg.
    + unfold apply_delay. rewrite Hg. simpl.
      split; [exact Hlen |]. split; [reflexivity |].
      split; [reflexivity |]. intros d _ Hf. discriminate.
    + destruct (to_int (fmul delay_time (of_int (sample_rate (self w)))))
        as [d |e] eqn:Hd.
      * destruct (apply_delay_effective audio delay_time feedback mix w d
                    Hidx Hg Hd) as (out & E & _).
        rewrite E. cbn [fst snd self delay_buffer sample_rate delay_index].
        pose proof (ring_writes_length audio (delay_line w)) as HL.
        pose proof (ring_writes_cursor audio (delay_line w) Hidx) as HC.
        simpl fst in HL, HC. simpl snd in HC.
        split; [rewrite HL; exact Hlen |]. split; [reflexivity |].
        split; [intros [E0 | E0]; discriminate E0 |].
        intros d' _ _ _. split; [reflexivity |].
        split; [unfold delay_line; simpl; now destruct (fold_left _ _ _) |].
        rewrite HC, Hlen. split; [reflexivity |].
        split; [apply Z.mod_pos_bound; lia |].
        intros HN i x Hx. rewrite <- Hlen.
        apply (ring_writes_content audio (delay_buffer (self w))
                 (delay_index (self w)) Hidx); [lia | exact Hx].
      * unfold apply_delay. rewrite Hg. unfold bind, get_sample_rate, lift.
        rewrite Hd. simpl.
        split; [exact Hlen |]. split; [reflexivity |].
        split; [reflexivity |].
        intros d _ _ Hf. specialize (Hf _ _ _ eq_refl). congruence.
  - pose proof (stage_keeps_self c audio Hc w) as E.
    unfold delay_line. rewrite E.
    split; [exact Hlen |]. split; [reflexivity |].
    split; [reflexivity |]. intros d Hf. discriminate.
Qed.

End DelayLineClaim.

(** ** Loops and their invariants *)

Section Loops.
Context {A S : Type}.

Lemma res_for_cons (x : A) (xs : list A) (body : A -> S -> Res S) (acc : S) :
  res_for (x :: xs) body acc = acc' <~ body x acc ;; res_for xs body acc'.
Proof. reflexivity. Qed.

(** A property kept by every turn that returns holds when the loop
    returns. *)
Lemma res_for_invariant (P : S -> Prop) (xs : list A)
    (body : A -> S -> Res S) :
  (forall x acc acc', In x xs -> body x acc = Ok acc' -> P acc -> P acc') ->
  forall acc r, P acc -> res_for xs body acc = Ok r -> P r.
Proof.
  induction xs as [| x xs IH]; intros Hb acc r Hacc E; simpl in E.
  - injection E as <-. exact Hacc.
  - destruct (body x acc) as [acc' |e] eqn:E1; simpl in E; [| discriminate].
    apply (IH (fun y a a' Hy => Hb y a a' (or_intror Hy)) acc' r); auto.
    apply (Hb x acc acc'); simpl; auto.
Qed.

(** A loop whose every turn returns on the states of an invariant
    returns. *)
Lemma res_for_total (P : S -> Prop) (xs : list A) (body : A -> S -> Res S) :
  (forall x acc, In x xs -> P acc ->
                 exists acc', body x acc = Ok acc' /\ P acc') ->
  forall acc, P acc -> exists r, res_for xs body acc = Ok r /\ P r.
Proof.
  induction xs as [| x xs IH]; intros Hb acc Hacc; simpl.
  - exists acc. auto.
  - destruct (Hb x acc (or_introl eq_refl) Hacc) as (acc' & E & Hacc').
    rewrite E. simpl.
    apply (IH (fun y a Hy => Hb y a (or_intror Hy)) acc' Hacc').
Qed.

(** A loop raises as soon as one of its turns does. *)
Lemma res_for_raise_at (pre post : list A) (x : A) (body : A -> S -> Res S)
    (acc mid : S) (e : Exn) :
  res_for pre body acc = Ok mid ->
  body x mid = Raise e ->
  res_for (pre ++ x :: post) body acc = Raise e.
Proof.
  revert acc. induction pre as [| y pre IH]; intros acc E1 E2; simpl in *.
  - injection E1 as ->. now rewrite E2.
  - destruct (body y acc) as [acc' |e'] eqn:Ey; simpl in *; [| discriminate].
    now apply IH.
Qed.

End Loops.

Lemma in_range (lo hi i : Z) : In i (range lo hi) -> lo <= i < hi.
Proof.
  unfold range. rewrite in_map_iff. intros (k & <- & Hk).
  apply in_seq in Hk. lia.
Qed.

Section Inversion.
Context {F : Type}.

Lemma bind_ok_inv {A B : Type} (m : M F A) (k : A -> M F B) (w w' : World F)
    (b : B) :
  bind m k w = (Ok b, w') ->
  exists a w1, m w = (Ok a, w1) /\ k a w1 = (Ok b, w').
Proof.
  unfold bind. destruct (m w) as [[a | e] w1]; intros E.
  - exists a, w1. auto.
  - discriminate.
Qed.

Lemma res_bind_ok_inv {A B : Type} (r : Res A) (k : A -> Res B) (b : B) :
  res_bind r k = Ok b -> exists a, r = Ok a /\ k a = Ok b.
Proof.
  destruct r as [a | e]; simpl; intros E; [eauto | discriminate].
Qed.

Lemma lift_ok_inv {A : Type} (r : Res A) (w w' : World F) (a : A) :
  lift r w = (Ok a, w') -> r = Ok a /\ w' = w.
Proof. unfold lift. intros E. injection E as -> ->. auto. Qed.

Lemma for_each_invariant {A S : Type} (P : S -> Prop) (xs : list A)
    (body : A -> S -> M F S) :
  (forall x acc w acc' w', body x acc w = (Ok acc', w') -> P acc -> P acc') ->
  forall acc w r w', P acc -> for_each xs body acc w = (Ok r, w') -> P r.
Proof.
  intros Hb. induction xs as [| x xs IH]; intros acc w r w' Hacc E;
    simpl in E.
  - unfold ret in E. injection E as <- _. exact Hacc.
  - apply bind_ok_inv in E. destruct E as (acc1 & w1 & E1 & E2).
    apply (IH acc1 w1 r w'); [| exact E2].
    apply (Hb x acc w acc1 w1); auto.
Qed.

Lemma np_set_length {A : Type} (a a' : list A) (i : Z) (x : A) :
  np_set a i x = Ok a' -> length a' = length a.
Proof.
  unfold np_set. destruct (np_index (len a) i) as [j |e]; simpl;
    intros E; [| discriminate].
  injection E as <-. apply list_set_length.
Qed.

End Inversion.

(** ** The length of what a stage returns *)

Section Lengths.
Context {F : Type} `{Float64 F} `{Elementary F}.

Lemma np_zip_length (op : F -> F -> F) (a b out : list F) :
  length a = length b -> np_zip op a b = Ok out -> length out = length a.
Proof.
  intros E Ez. destruct (np_zip_same_length op a b E) as (out' & E1 & L).
  congruence.
Qed.

Lemma np_linspace_length (start stop : F) (num : Z) (l : list F) :
  np_linspace start stop num = Ok l -> length l = Z.to_nat num.
Proof.
  unfold np_linspace. destruct (num <? 0); [discriminate |].
  assert (L : forall f g : F -> F,
             length (map f (map g (map of_int (range 0 num))))
             = Z.to_nat num).
  { intros f g. rewrite !length_map, range_length. f_equal. lia. }
  destruct (0 <? num - 1);
    [destruct (feqb _ _) |];
    (destruct (1 <? num); intros E; injection E as <-;
     [rewrite list_set_length |]; apply L).
Qed.

Lemma np_linspace_ok (start stop : F) (num : Z) :
  0 <= num -> exists l, np_linspace start stop num = Ok l.
Proof.
  intros Hn. unfold np_linspace.
  replace (num <? 0) with false by (symmetry; apply Z.ltb_ge; lia).
  destruct (1 <? num); eauto.
Qed.

Lemma lfo_times_length (sr : Z) (audio t : list F) :
  lfo_times sr audio = Ok t -> length t = length audio.
Proof.
  unfold lfo_times. intros E. apply res_bind_ok_inv in E.
  destruct E as (stop & _ & E). apply np_linspace_length in E.
  rewrite E. unfold len. apply Nat2Z.id.
Qed.

Lemma mix_dry_wet_length (mix : F) (audio wet out : list F) :
  length wet = length audio ->
  mix_dry_wet mix audio wet = Ok out -> length out = length audio.
Proof.
  intros L E. destruct (mix_dry_wet_same_length mix audio wet L)
    as (out' & E' & L'). congruence.
Qed.

Lemma chorus_step_length (audio lfo : list F) (i : Z) (acc acc' : list F) :
  chorus_step audio lfo i acc = Ok acc' -> length acc' = length acc.
Proof.
  unfold chorus_step. intros E.
  apply res_bind_ok_inv in E. destruct E as (l & _ & E).
  apply res_bind_ok_inv in E. destruct E as (d & _ & E).
  destruct (d <=? i).
  - apply res_bind_ok_inv in E. destruct E as (x & _ & E).
    now apply np_set_length in E.
  - now injection E as <-.
Qed.

Lemma flanger_step_length (lfo : list F) (feedback : F) (i : Z)
    (acc acc' : list F) :
  flanger_step lfo feedback i acc = Ok acc' -> length acc' = length acc.
Proof.
  unfold flanger_step. intros E.
  apply res_bind_ok_inv in E. destruct E as (l & _ & E).
  apply res_bind_ok_inv in E. destruct E as (d & _ & E).
  destruct (d <=? i).
  - apply res_bind_ok_inv in E. destruct E as (o & _ & E).
    apply res_bind_ok_inv in E. destruct E as (x & _ & E).
    now apply np_set_length in E.
  - now injection E as <-.
Qed.

Lemma delay_step_length (audio : list F) (d : Z) (feedback : F) (i : Z)
    (acc acc' : list F) (w w' : World F) :
  delay_step audio d feedback i acc w = (Ok acc', w') ->
  length acc' = length acc.
Proof.
  unfold delay_step. intros E.
  apply bind_ok_inv in E. destruct E as (o1 & w1 & E1 & E).
  assert (L1 : length o1 = length acc).
  { destruct (d <=? i).
    - repeat (apply bind_ok_inv in E1; destruct E1 as (? & ? & _ & E1)).
      apply lift_ok_inv in E1. destruct E1 as (E1 & _).
      now apply np_set_length in E1.
    - unfold ret in E1. now injection E1 as <- _. }
  repeat (apply bind_ok_inv in E; destruct E as (? & ? & _ & E)).
  unfold ret in E. injection E as <- _. exact L1.
Qed.

End Lengths.

Section StageLengths.
Context {F : Type} `{Float64 F} `{Elementary F}.

Lemma np_zeros_like_length (a : list F) :
  length (np_zeros_like a) = length a.
Proof. apply length_map. Qed.

Lemma filter_loop_length (xs : list Z) (body : Z -> list F -> Res (list F))
    (acc r : list F) :
  (forall i a a', body i a = Ok a' -> length a' = length a) ->
  res_for xs body acc = Ok r -> length r = length acc.
Proof.
  intros Hb E.
  apply (res_for_invariant (fun a => length a = length acc) xs body)
    with (acc := acc); auto.
  intros i a a' _ Ei La. rewrite <- La. exact (Hb i a a' Ei).
Qed.

Lemma lowpass_length (audio out : list F) (b : F) :
  lowpass audio b = Ok out -> length out = length audio.
Proof.
  unfold lowpass. intros E.
  apply res_bind_ok_inv in E. destruct E as (x0 & _ & E).
  apply res_bind_ok_inv in E. destruct E as (o & Eo & E).
  apply np_set_length in Eo. rewrite np_zeros_like_length in Eo.
  apply filter_loop_length in E; [congruence |].
  intros i a a' Ei. unfold lowpass_step in Ei.
  apply res_bind_ok_inv in Ei. destruct Ei as (x & _ & Ei).
  apply res_bind_ok_inv in Ei. destruct Ei as (y & _ & Ei).
  now apply np_set_length in Ei.
Qed.

Lemma highpass_length (audio out : list F) (b : F) :
  highpass audio b = Ok out -> length out = length audio.
Proof.
  unfold highpass. intros E.
  apply res_bind_ok_inv in E. destruct E as (x0 & _ & E).
  apply res_bind_ok_inv in E. destruct E as (o & Eo & E).
  apply np_set_length in Eo. rewrite np_zeros_like_length in Eo.
  apply filter_loop_length in E; [congruence |].
  intros i a a' Ei.
  do 3 (apply res_bind_ok_inv in Ei; destruct Ei as (? & _ & Ei)).
  now apply np_set_length in Ei.
Qed.

Lemma bandpass_length (audio out : list F) (w0 resonance : F) :
  bandpass audio w0 resonance = Ok out -> length out = length audio.
Proof.
  unfold bandpass. intros E.
  apply filter_loop_length in E;
    [now rewrite np_zeros_like_length in E |].
  intros i a a' Ei.
  do 5 (apply res_bind_ok_inv in Ei; destruct Ei as (? & _ & Ei)).
  now apply np_set_length in Ei.
Qed.

Lemma compressor_step_length (audio : list F) (threshold ratio : F)
    (a r : Z) (i : Z) (st st' : list F * F) :
  compressor_step audio threshold ratio a r i st = Ok st' ->
  length (fst st') = length (fst st).
Proof.
  unfold compressor_step. destruct st as [output envelope]. intros E.
  apply res_bind_ok_inv in E. destruct E as (x & _ & E).
  destruct (flt threshold _);
    apply res_bind_ok_inv in E; destruct E as (o & Eo & E);
    injection E as <-; simpl; now apply np_set_length in Eo.
Qed.

(** Every stage but the reverb returns, when it returns, a buffer as
    long as its input. *)
Lemma stage_length (c : StageCall F) (audio out : list F) (w w' : World F) :
  is_reverb c = false ->
  run_stage c audio w = (Ok out, w') ->
  length out = length audio.
Proof.
  destruct c; simpl; try discriminate; intros _ E.
  - (* delay *)
    unfold apply_delay in E.
    destruct (fle delay_time (of_int 0) || fle feedback (of_int 0)).
    { unfold ret in E. now injection E as <- _. }
    apply bind_ok_inv in E. destruct E as (sr & w1 & _ & E).
    apply bind_ok_inv in E. destruct E as (d & w2 & _ & E).
    apply bind_ok_inv in E. destruct E as (output & w3 & Eo & E).
    apply lift_ok_inv in E. destruct E as (E & _).
    apply mix_dry_wet_length in E; [exact E |].
    apply (for_each_invariant (fun a => length a = length audio)) in Eo;
      auto.
    intros i acc w4 acc' w5 Es La. rewrite <- La.
    now apply delay_step_length in Es.
  - (* chorus *)
    unfold apply_chorus in E.
    destruct (fle rate (of_int 0) || fle depth (of_int 0)).
    { unfold ret in E. now injection E as <- _. }
    apply bind_ok_inv in E. destruct E as (sr & w1 & _ & E).
    apply lift_ok_inv in E. destruct E as (E & _).
    apply res_bind_ok_inv in E. destruct E as (lfo & _ & E).
    apply res_bind_ok_inv in E. destruct E as (ch & Ec & E).
    apply mix_dry_wet_length in E; [exact E |].
    apply filter_loop_length in Ec.
    + now rewrite np_zeros_like_length in Ec.
    + intros i a a'. apply chorus_step_length.
  - (* flanger *)
    unfold apply_flanger in E.
    destruct (fle rate (of_int 0) || fle depth (of_int 0)).
    { unfold ret in E. now injection E as <- _. }
    apply bind_ok_inv in E. destruct E as (sr & w1 & _ & E).
    apply lift_ok_inv in E. destruct E as (E & _).
    apply res_bind_ok_inv in E. destruct E as (lfo & _ & E).
    apply res_bind_ok_inv in E. destruct E as (output & Eo & E).
    apply filter_loop_length in Eo;
      [| intros i a a'; apply flanger_step_length].
    apply res_bind_ok_inv in E. destruct E as (peak & _ & E).
    destruct (flt (of_int 0) peak).
    + apply res_bind_ok_inv in E. destruct E as (peak' & _ & E).
      injection E as <-. now rewrite length_map.
    + now injection E as <-.
  - (* distortion *)
    unfold apply_distortion in E.
    destruct (fle amount (of_int 0)); [| destruct (py_eq_str type_ "soft");
      [| destruct (py_eq_str type_ "hard")]];
      unfold ret in E; injection E as <- _; unfold np_clip;
      now rewrite ?length_map.
  - (* filter *)
    unfold apply_filter in E.
    destruct (fle cutoff (of_int 0)).
    { unfold ret in E. now injection E as <- _. }
    apply bind_ok_inv in E. destruct E as (sr & w1 & _ & E).
    apply bind_ok_inv in E. destruct E as (nc & w2 & _ & E).
    destruct (py_eq_str filter_type "lowpass").
    { apply lift_ok_inv in E. destruct E as (E & _).
      now apply lowpass_length in E. }
    destruct (py_eq_str filter_type "highpass").
    { apply lift_ok_inv in E. destruct E as (E & _).
      now apply highpass_length in E. }
    destruct (py_eq_str filter_type "bandpass").
    { apply lift_ok_inv in E. destruct E as (E & _).
      now apply bandpass_length in E. }
    unfold ret in E. now injection E as <- _.
  - (* compressor *)
    unfold apply_compressor in E.
    destruct (fle threshold (of_int 0) || fle ratio (of_int 1)).
    { unfold ret in E. now injection E as <- _. }
    apply bind_ok_inv in E. destruct E as (sr & w1 & _ & E).
    apply bind_ok_inv in E. destruct E as (a & w2 & _ & E).
    apply bind_ok_inv in E. destruct E as (r & w3 & _ & E).
    apply bind_ok_inv in E. destruct E as (st & w4 & Es & E).
    unfold ret in E. injection E as <- _.
    apply lift_ok_inv in Es. destruct Es as (Es & _).
    apply (res_for_invariant
             (fun s => length (fst s) = length audio)) in Es; auto.
    + intros i s s' _ Ei Ls. rewrite <- Ls.
      now apply compressor_step_length in Ei.
    + simpl. apply np_zeros_like_length.
  - (* tremolo *)
    unfold apply_tremolo in E.
    destruct (fle rate (of_int 0) || fle depth (of_int 0)).
    { unfold ret in E. now injection E as <- _. }
    apply bind_ok_inv in E. destruct E as (sr & w1 & _ & E).
    apply lift_ok_inv in E. destruct E as (E & _).
    apply res_bind_ok_inv in E. destruct E as (t & Et & E).
    apply lfo_times_length in Et.
    apply np_zip_length in E; [exact E |].
    now rewrite length_map.
Qed.

End StageLengths.

(** ** The reverb: how long its output is *)

Section ReverbLength.
Context {F : Type} `{Float64 F} `{Elementary F}.

Lemma convolve_full_length (a v : list F) :
  length (convolve_full a v) = (length a + length v - 1)%nat.
Proof. unfold convolve_full. now rewrite length_map, length_seq. Qed.

(** ['same'] is the length of the longer operand, not of the first. *)
Lemma np_convolve_same_ok (a v : list F) :
  a <> [] -> v <> [] ->
  exists out, np_convolve_same a v = Ok out /\
              length out = Nat.max (length a) (length v).
Proof.
  intros Ha Hv.
  assert (La : (0 < length a)%nat) by (destruct a; simpl; [congruence | lia]).
  assert (Lv : (0 < length v)%nat) by (destruct v; simpl; [congruence | lia]).
  assert (Hdiv : forall m, ((m - 1) / 2 <= m - 1)%nat).
  { intros m. apply Nat.Div0.div_le_upper_bound. lia. }
  unfold np_convolve_same.
  destruct (length a <? length v)%nat eqn:E.
  - apply Nat.ltb_lt in E.
    destruct (length v =? 0)%nat eqn:E0; [apply Nat.eqb_eq in E0; lia |].
    destruct (length a =? 0)%nat eqn:E1; [apply Nat.eqb_eq in E1; lia |].
    eexists. split; [reflexivity |].
    rewrite length_firstn, length_skipn, convolve_full_length.
    specialize (Hdiv (length a)). lia.
  - apply Nat.ltb_ge in E.
    destruct (length a =? 0)%nat eqn:E1; [apply Nat.eqb_eq in E1; lia |].
    destruct (length v =? 0)%nat eqn:E0; [apply Nat.eqb_eq in E0; lia |].
    eexists. split; [reflexivity |].
    rewrite length_firstn, length_skipn, convolve_full_length.
    specialize (Hdiv (length v)). lia.
Qed.

(** An empty impulse is refused by [np.convolve]. *)
Lemma np_convolve_same_empty (a : list F) :
  np_convolve_same a [] = Raise ValueError.
Proof.
  unfold np_convolve_same. simpl.
  destruct (length a =? 0)%nat; reflexivity.
Qed.

(** Past its guard, with an impulse of [L >= 1] taps and a buffer that
    is not empty, the reverb comes to its last line, the sum of the dry
    and the wet signal, with a wet signal as long as the longer of the
    buffer and the impulse. *)
Lemma apply_reverb_mix (audio : list F) (room_size damping : F)
    (w : World F) (L : Z) :
  fle room_size (of_int 0) = false ->
  to_int (fmul (fmul room_size (of_int (sample_rate (self w))))
               (of_frac 1 10)) = Ok L ->
  1 <= L ->
  audio <> [] ->
  exists reverb_audio w',
    length reverb_audio = Nat.max (length audio) (Z.to_nat L) /\
    self w' = self w /\
    apply_reverb audio room_size damping w
    = (np_zip fadd
         (map (fun x => fmul (fsub (of_int 1) room_size) x) audio)
         (map (fun x => fmul room_size x) reverb_audio),
       w').
Proof.
  intros Hg HL HL1 Hn. unfold apply_reverb. rewrite Hg.
  unfold bind at 1. unfold get_sample_rate at 1.
  unfold bind at 1. unfold lift at 1. rewrite HL.
  destruct (np_linspace_ok (of_int 0) (of_int 1) L) as (ramp & Er); [lia |].
  pose proof (np_linspace_length _ _ _ _ Er) as Lr.
  unfold bind at 1. unfold lift at 1. rewrite Er.
  unfold bind at 1. unfold randn at 1.
  replace (L <? 0) with false by (symmetry; apply Z.ltb_ge; lia).
  set (noise := map (np_random w) (seq 0 (Z.to_nat L))).
  set (decay := map (fun x => fexp (fmul (fneg damping) x)) ramp).
  destruct (np_zip_same_length fmul noise decay) as (imp & Ei & Li).
  { unfold noise, decay. now rewrite !length_map, length_seq. }
  assert (Limp : length imp = Z.to_nat L).
  { rewrite Li. unfold noise. now rewrite length_map, length_seq. }
  unfold bind at 1. unfold lift at 1. rewrite Ei.
  set (impulse := map (fun x => fmul (fdiv x (np_sum (np_abs imp)))
                                   (of_frac 3 10)) imp).
  assert (Limpulse : length impulse = Z.to_nat L)
    by (unfold impulse; now rewrite length_map).
  destruct (np_convolve_same_ok audio impulse) as (rev & Ec & Lc).
  { exact Hn. }
  { intros E0. rewrite E0 in Limpulse. simpl in Limpulse. lia. }
  unfold bind at 1. unfold lift at 1. rewrite Ec.
  rewrite Limpulse in Lc.
  exists rev. eexists. split; [exact Lc |]. split; [| reflexivity].
  reflexivity.
Qed.

(** It returns when the buffer has at least [L] samples or exactly one,
    and what it returns has the length of the longer of the buffer and
    the impulse. *)
Lemma apply_reverb_length (audio : list F) (room_size damping : F)
    (w : World F) (L : Z) :
  fle room_size (of_int 0) = false ->
  to_int (fmul (fmul room_size (of_int (sample_rate (self w))))
               (of_frac 1 10)) = Ok L ->
  1 <= L ->
  L <= len audio \/ len audio = 1 ->
  exists out w',
    apply_reverb audio room_size damping w = (Ok out, w') /\
    self w' = self w /\
    len out = Z.max L (len audio).
Proof.
  intros Hg HL HL1 Hn.
  destruct (apply_reverb_mix audio room_size damping w L Hg HL HL1)
    as (rev & w' & Lrev & Hw & E).
  { intros ->. unfold len in Hn. simpl in Hn. lia. }
  rewrite E.
  set (dry := map (fun x => fmul (fsub (of_int 1) room_size) x) audio).
  set (wet := map (fun x => fmul room_size x) rev).
  assert (Ldry : length dry = length audio) by apply length_map.
  assert (Lwet : length wet = Nat.max (length audio) (Z.to_nat L))
    by (unfold wet; now rewrite length_map).
  unfold len in *.
  destruct (Z_le_gt_dec L (Z.of_nat (length audio))) as [Hle | Hgt].
  - destruct (np_zip_same_length fadd dry wet) as (out & Eo & Lo); [lia |].
    exists out, w'. rewrite Eo. split; [reflexivity |].
    split; [exact Hw |]. lia.
  - assert (L1 : length audio = 1%nat) by lia.
    destruct audio as [| x [| y rest]]; simpl in L1; try lia.
    change (length [x]) with 1%nat in *.
    assert (Lw : length wet = Z.to_nat L) by lia.
    unfold np_zip. rewrite Ldry.
    replace (1 =? length wet)%nat with false
      by (symmetry; apply Nat.eqb_neq; lia).
    simpl dry. cbv iota.
    eexists. exists w'. split; [reflexivity |].
    split; [exact Hw |]. rewrite length_map. lia.
Qed.

(** On a buffer of two samples or more, but fewer than the impulse has
    taps, the dry and the wet signal cannot be added: [ValueError]. *)
Lemma apply_reverb_short_buffer (audio : list F) (room_size damping : F)
    (w : World F) (L : Z) :
  fle room_size (of_int 0) = false ->
  to_int (fmul (fmul room_size (of_int (sample_rate (self w))))
               (of_frac 1 10)) = Ok L ->
  2 <= len audio < L ->
  fst (apply_reverb audio room_size damping w) = Raise ValueError.
Proof.
  intros Hg HL Hn.
  destruct (apply_reverb_mix audio room_size damping w L Hg HL)
    as (rev & w' & Lrev & Hw & E); [lia | |].
  { intros ->. unfold len in Hn. simpl in Hn. lia. }
  rewrite E. cbn [fst]. unfold len in Hn.
  set (dry := map (fun x => fmul (fsub (of_int 1) room_size) x) audio).
  set (wet := map (fun x => fmul room_size x) rev).
  assert (Ldry : length dry = length audio) by apply length_map.
  assert (Lwet : length wet = Z.to_nat L)
    by (unfold wet; rewrite length_map; lia).
  unfold np_zip.
  replace (length dry =? length wet)%nat with false
    by (symmetry; apply Nat.eqb_neq; lia).
  destruct dry as [| d0 [| d1 dry']]; simpl in Ldry; try lia.
  destruct wet as [| w0 [| w1 wet']]; simpl in Lwet; try lia.
  reflexivity.
Qed.

(** With an impulse of no tap at all (a room size below
    [10 / sample_rate]) the reverb raises [ValueError], whatever the
    buffer. *)
Lemma apply_reverb_empty_impulse (audio : list F) (room_size damping : F)
    (w : World F) :
  fle room_size (of_int 0) = false ->
  to_int (fmul (fmul room_size (of_int (sample_rate (self w))))
               (of_frac 1 10)) = Ok 0 ->
  fst (apply_reverb audio room_size damping w) = Raise ValueError.
Proof.
  intros Hg HL. unfold apply_reverb. rewrite Hg.
  unfold bind, get_sample_rate, lift, randn. rewrite HL. simpl.
  now rewrite np_convolve_same_empty.
Qed.

End ReverbLength.

(** ** Running the stages on exact reals *)

Section RealFacts.
Local Open Scope R_scope.

Lemma Rleb_true (x y : R) : x <= y -> Rleb x y = true.
Proof.
  intros Hle. unfold Rleb.
  destruct (Rle_dec x y); [reflexivity | contradiction].
Qed.

Lemma Rleb_false (x y : R) : y < x -> Rleb x y = false.
Proof.
  intros Hlt. unfold Rleb. destruct (Rle_dec x y); [lra | reflexivity].
Qed.

Lemma Rltb_true (x y : R) : x < y -> Rltb x y = true.
Proof.
  intros Hlt. unfold Rltb.
  destruct (Rlt_dec x y); [reflexivity | contradiction].
Qed.

Lemma Rltb_false (x y : R) : y <= x -> Rltb x y = false.
Proof.
  intros Hle. unfold Rltb. destruct (Rlt_dec x y); [lra | reflexivity].
Qed.

Lemma Reqb_false (x y : R) : x <> y -> Reqb x y = false.
Proof.
  intros E. unfold Reqb.
  destruct (Req_dec_T x y); [contradiction | reflexivity].
Qed.

Lemma Int_part_IZR (z : Z) : Int_part (IZR z) = z.
Proof. symmetry. apply Int_part_spec. lra. Qed.

(** [int(x)] on a float that is a whole number. *)
Lemma Rtrunc_IZR (z : Z) : Rtrunc (IZR z) = z.
Proof.
  unfold Rtrunc. destruct (Rle_dec 0 (IZR z)).
  - apply Int_part_IZR.
  - rewrite <- opp_IZR, Int_part_IZR. lia.
Qed.

(** [int(x)] on a float in [0, 1). *)
Lemma Rtrunc_small (x : R) : 0 <= x < 1 -> Rtrunc x = 0%Z.
Proof.
  intros Hx. unfold Rtrunc. destruct (Rle_dec 0 x); [| lra].
  symmetry. apply Int_part_spec. lra.
Qed.

(** [int(x)] is at least 1 from [x = 1] on. *)
Lemma Rtrunc_ge_1 (x : R) : 1 <= x -> (1 <= Rtrunc x)%Z.
Proof.
  intros Hx. unfold Rtrunc. destruct (Rle_dec 0 x); [| lra].
  destruct (base_Int_part x) as [_ Hgt].
  assert (Hpos : IZR 0 < IZR (Int_part x)) by lra.
  apply lt_IZR in Hpos. lia.
Qed.

End RealFacts.

(** Evaluation that leaves the real numbers and their operations as they
    stand. *)
Ltac real_cbn_once :=
  cbn -[IZR Rle_dec Rlt_dec Req_dec_T sin cos exp tanh PI Rdiv Rmult Rplus
        Rminus Ropp Rabs Int_part Rleb Rltb Reqb Rtrunc].

Ltac real_cbn :=
  real_cbn_once;
  change (Pos.to_nat 1) with 1%nat;
  change (Pos.to_nat 2) with 2%nat;
  real_cbn_once.

(** Steps past the guard of a stage and its read of the sample rate. *)
(** An entry written out stands for the call written out. *)
Ltac param_given :=
  first
    [ left; cbn [In]; auto; fail
    | right; split; [cbn [map fst In]; intuition discriminate | reflexivity] ].

Ltac entry_stands_for :=
  unfold stands_for, hard_clip_entry, echo_entry; cbv zeta;
  cbn [cfg_type cfg_params stage_kind stage_keywords map fst];
  split; [reflexivity |];
  split;
    [repeat (apply NoDup_cons; [cbn [In]; intuition discriminate |]);
     apply NoDup_nil |];
  split; [intros x Hx; cbn [In] in *; intuition auto |];
  repeat split; param_given.

Ltac enter_stage :=
  cbn [fle of_int R_Float64];
  rewrite ?Rleb_false by lra; cbn [orb];
  unfold bind at 1; unfold get_sample_rate at 1;
  cbn [self sample_rate processor].

Section OutOfBounds.
Local Open Scope R_scope.

(** The time base of a two-sample buffer at 4 Hz: the second time is the
    end point [2 / 4], not [1 / 4]. *)
Lemma lfo_times_4_2 (x0 x1 : R) :
  lfo_times 4 [x0; x1] = Ok [0 * ((2 / 4 - 0) / 1) + 0; 2 / 4].
Proof.
  unfold lfo_times, py_truediv, np_linspace. real_cbn.
  rewrite Reqb_false by lra. reflexivity.
Qed.

(** At rate 1.5 and depth 1 the oscillator is at its trough on the
    second sample: an offset of [-4] samples. *)
Lemma delay_lfo_4_2 (x0 x1 : R) :
  delay_lfo 4 [x0; x1] (3 / 2) 1 = Ok [IZR 0; IZR (-4)].
Proof.
  unfold delay_lfo. rewrite lfo_times_4_2. real_cbn. do 2 f_equal.
  - replace (2 * PI * (3 / 2) * (0 * ((2 / 4 - 0) / 1) + 0)) with 0 by lra.
    rewrite sin_0. lra.
  - f_equal.
    replace (2 * PI * (3 / 2) * (2 / 4)) with (3 * (PI / 2)) by lra.
    rewrite sin_3PI2. lra.
Qed.

Lemma apply_chorus_index_error (x0 x1 mix : R) (noise : nat -> R) :
  apply_chorus [x0; x1] (3 / 2) 1 mix (processor 4 noise)
  = (Raise IndexError, processor 4 noise).
Proof.
  unfold apply_chorus. enter_stage. unfold lift.
  rewrite delay_lfo_4_2. cbn [res_bind].
  change (range 0 (len [x0; x1])) with ([0; 1]%Z).
  rewrite (res_for_raise_at [0%Z] [] 1%Z _ _ [x0; 0] IndexError).
  - reflexivity.
  - unfold res_for, chorus_step. real_cbn. rewrite Rtrunc_IZR. reflexivity.
  - unfold chorus_step.
    replace (np_get [IZR 0; IZR (-4)] 1) with (Ok (IZR (-4)))
      by reflexivity.
    real_cbn. rewrite Rtrunc_IZR. reflexivity.
Qed.

Lemma apply_flanger_index_error (x0 x1 feedback : R) (noise : nat -> R) :
  apply_flanger [x0; x1] (3 / 2) 1 feedback (processor 4 noise)
  = (Raise IndexError, processor 4 noise).
Proof.
  unfold apply_flanger. enter_stage. unfold lift.
  rewrite delay_lfo_4_2. cbn [res_bind].
  change (range 0 (len [x0; x1])) with ([0; 1]%Z).
  rewrite (res_for_raise_at [0%Z] [] 1%Z _ _ [x0 + feedback * x0; x1]
             IndexError).
  - reflexivity.
  - unfold res_for, flanger_step. real_cbn. rewrite Rtrunc_IZR. reflexivity.
  - unfold flanger_step.
    replace (np_get [IZR 0; IZR (-4)] 1) with (Ok (IZR (-4)))
      by reflexivity.
    real_cbn. rewrite Rtrunc_IZR. reflexivity.
Qed.

Lemma apply_reverb_broadcast_error (x0 x1 : R) (noise : nat -> R) :
  fst (apply_reverb [x0; x1] (1 / 2) (1 / 2) (processor 44100 noise))
  = Raise ValueError.
Proof.
  apply (apply_reverb_short_buffer _ _ _ _ 2205).
  - cbn [fle of_int R_Float64]. apply Rleb_false. lra.
  - cbn [to_int fmul of_int of_frac R_Float64 self sample_rate processor].
    replace (1 / 2 * 44100 * (1 / 10)) with (IZR 2205) by lra.
    now rewrite Rtrunc_IZR.
  - unfold len. simpl. lia.
Qed.

Lemma apply_reverb_value_error (audio : list R) (noise : nat -> R) :
  fst (apply_reverb audio (1 / 10000) (1 / 2) (processor 44100 noise))
  = Raise ValueError.
Proof.
  apply apply_reverb_empty_impulse.
  - cbn [fle of_int R_Float64]. apply Rleb_false. lra.
  - cbn [to_int fmul of_int of_frac R_Float64 self sample_rate processor].
    rewrite Rtrunc_small by lra. reflexivity.
Qed.

(** C2. Inside the documented parameter domain a stage can still raise.
    At 4 Hz, on a buffer of two samples, with rate 1.5 and depth 1, the
    oscillator gives the second sample the offset -4; the test
    [i >= delay_samples] passes and the read at [i - delay_samples = 5]
    is past the end: [apply_chorus] and [apply_flanger] raise
    [IndexError].  At 44100 Hz with room size 0.0001 the impulse has no
    tap and [apply_reverb] raises [ValueError] on every buffer; with the
    default room size 0.5 the impulse has 2205 taps, and on a buffer of
    two samples the dry and the wet signal cannot be added:
    [ValueError]. *)
Theorem stages_raise_inside_domain :
  apply_chorus [1 / 2; 1 / 2] (3 / 2) 1 (1 / 2) (processor 4 (fun _ => 0))
  = (Raise IndexError, processor 4 (fun _ => 0)) /\
  apply_flanger [1 / 2; 1 / 2] (3 / 2) 1 (3 / 10) (processor 4 (fun _ => 0))
  = (Raise IndexError, processor 4 (fun _ => 0)) /\
  fst (apply_reverb [1 / 2; 1 / 2] (1 / 10000) (1 / 2)
         (processor 44100 (fun _ => 1)))
  = Raise ValueError /\
  fst (apply_reverb [1 / 2; 1 / 2] (1 / 2) (1 / 2)
         (processor 44100 (fun _ => 1)))
  = Raise ValueError.
Proof.
  split; [| split; [| split]].
  - apply apply_chorus_index_error.
  - apply apply_flanger_index_error.
  - apply apply_reverb_value_error.
  - apply apply_reverb_broadcast_error.
Qed.

End OutOfBounds.

Section TimeBaseAndLength.
Local Open Scope R_scope.

(** [np.linspace] over the reals: [num - 1] equal steps from [start]. *)
Lemma np_linspace_real (start stop : R) (num : Z) :
  (2 <= num)%Z ->
  exists l,
    np_linspace start stop num = Ok l /\
    length l = Z.to_nat num /\
    forall i, (i < Z.to_nat num)%nat ->
      nth_error l i
      = Some (start + INR i * ((stop - start) / IZR (num - 1))).
Proof.
  intros Hn.
  assert (Hd : IZR (num - 1) <> 0) by (apply not_0_IZR; lia).
  destruct (np_linspace_ok start stop num) as (l & E); [lia |].
  exists l. split; [exact E |].
  split; [now apply np_linspace_length in E |].
  intros i Hi. unfold np_linspace in E.
  replace (num <? 0)%Z with false in E by (symmetry; apply Z.ltb_ge; lia).
  replace (0 <? num - 1)%Z with true in E by (symmetry; apply Z.ltb_lt; lia).
  replace (1 <? num)%Z with true in E by (symmetry; apply Z.ltb_lt; lia).
  cbn [fsub fdiv fmul fadd feqb of_int R_Float64] in E.
  assert (Hr : nth_error (range 0 num) i = Some (Z.of_nat i)).
  { rewrite nth_error_range by (rewrite Z.sub_0_r; exact Hi). reflexivity. }
  assert (Hlast : Z.to_nat (num - 1) = i ->
                  stop = start + INR i * ((stop - start) / IZR (num - 1))).
  { intros <-. rewrite INR_IZR_INZ, Z2Nat.id by lia. field. exact Hd. }
  unfold Reqb in E.
  destruct (Req_dec_T ((stop - start) / IZR (num - 1)) 0) as [E0 | E0];
    injection E as <-;
    (rewrite nth_error_list_set by (rewrite !length_map, range_length; lia));
    (destruct (Nat.eq_dec (Z.to_nat (num - 1)) i) as [Ei | Ei];
     [f_equal; now apply Hlast |]);
    rewrite !nth_error_map, Hr; cbn [option_map]; f_equal;
    rewrite INR_IZR_INZ.
  - assert (Es : stop - start = 0).
    { apply (Rmult_eq_reg_r (/ IZR (num - 1))).
      - unfold Rdiv in E0. rewrite E0. ring.
      - now apply Rinv_neq_0_compat. }
    rewrite Es. unfold Rdiv. ring.
  - ring.
Qed.

(** X20. What [apply_tremolo] returns past its guard, on a buffer of two
    samples or more: the amplitude modulation of the specification, on
    the time base that has the end point. *)
Lemma apply_tremolo_real (audio : list R) (rate depth : R) (w : World R) :
  0 < rate ->
  0 < depth ->
  sample_rate (self w) <> 0%Z ->
  (2 <= len audio)%Z ->
  exists out,
    apply_tremolo audio rate depth w = (Ok out, w) /\
    length out = length audio /\
    forall i x,
      nth_error audio i = Some x ->
      nth_error out i
      = Some (x * (1 - depth
                       * (1 + sin (2 * PI * rate
                                   * end_point_time (sample_rate (self w))
                                       (len audio) i))
                       / 2)).
Proof.
  intros Hr Hd Hsr HN.
  unfold apply_tremolo. cbn [fle of_int R_Float64].
  rewrite !Rleb_false by lra. cbn [orb].
  unfold bind, get_sample_rate, lift, lfo_times, py_truediv.
  destruct (sample_rate (self w) =? 0)%Z eqn:E0;
    [apply Z.eqb_eq in E0; contradiction |].
  cbn [res_bind of_frac of_int R_Float64].
  destruct (np_linspace_real 0
              (IZR (len audio) / IZR (sample_rate (self w)))
              (len audio) HN) as (t & Et & Lt & Ht).
  rewrite Et. cbn [res_bind].
  set (lfo := map _ t).
  assert (Llfo : length lfo = length audio).
  { unfold lfo. rewrite length_map, Lt. unfold len. apply Nat2Z.id. }
  destruct (np_zip_same_length fmul audio lfo (eq_sym Llfo))
    as (out & Eo & Lo).
  exists out. rewrite Eo. split; [reflexivity |]. split; [exact Lo |].
  intros i x Hx.
  assert (Hi : (i < Z.to_nat (len audio))%nat).
  { unfold len. rewrite Nat2Z.id. apply nth_error_Some. congruence. }
  unfold np_zip in Eo. rewrite <- Llfo, Nat.eqb_refl in Eo.
  injection Eo as <-.
  erewrite nth_error_combine_map; [| exact Hx |].
  2:{ unfold lfo. rewrite nth_error_map, (Ht i Hi). reflexivity. }
  cbn [fst snd fmul fsub fadd fdiv of_int fsin fpi R_Float64 R_Elementary].
  replace (0 + INR i * ((IZR (len audio) / IZR (sample_rate (self w)) - 0)
                        / IZR (len audio - 1)))
    with (end_point_time (sample_rate (self w)) (len audio) i)
    by (unfold end_point_time, Rdiv; ring).
  reflexivity.
Qed.

Lemma apply_tremolo_two_samples (noise : nat -> R) :
  apply_tremolo [1; 1] 1 1 (processor 4 noise)
  = (Ok [1 / 2; 1 / 2], processor 4 noise).
Proof.
  unfold apply_tremolo. enter_stage. unfold lift.
  rewrite lfo_times_4_2. cbn [res_bind]. real_cbn.
  do 3 f_equal.
  - replace (2 * PI * 1 * (0 * ((2 / 4 - 0) / 1) + 0)) with 0 by lra.
    rewrite sin_0. lra.
  - f_equal. replace (2 * PI * 1 * (2 / 4)) with PI by lra.
    rewrite sin_PI. lra.
Qed.

(** C7. The tremolo's time base is [np.linspace(0, N / sample_rate, N)],
    end point included, so its last time is [N / sample_rate] and not
    [(N - 1) / sample_rate].  At 4 Hz, on the buffer [1, 1] with rate 1
    and depth 1, the code returns [0.5] for the second sample (the
    oscillator read at time 2/4), where the formula on [t_1 = 1/4]
    gives 0. *)
Theorem tremolo_time_base_has_end_point :
  apply_tremolo [1; 1] 1 1 (processor 4 (fun _ => 0))
  = (Ok [1 / 2; 1 / 2], processor 4 (fun _ => 0)) /\
  tremolo_on_sample_clock 4 1 1 [1; 1] 1 = 0.
Proof.
  split.
  - apply apply_tremolo_two_samples.
  - unfold tremolo_on_sample_clock. cbn [nth INR].
    replace (2 * PI * 1 * (1 / 4)) with (PI / 2) by lra.
    rewrite sin_PI2. lra.
Qed.

(** C8. The reverb does not keep the length of a buffer shorter than its
    impulse.  At 40 Hz with room size 0.5 the impulse has two taps;
    ['same'] convolution with a buffer of one sample has two entries,
    and the one-sample dry signal is stretched over them: the call
    returns two samples for one. *)
Theorem reverb_lengthens_one_sample_buffer :
  exists out w',
    apply_reverb [1 / 2] (1 / 2) (1 / 2) (processor 40 (fun _ => 1))
    = (Ok out, w') /\
    length out = 2%nat.
Proof.
  destruct (apply_reverb_length [1 / 2] (1 / 2) (1 / 2)
              (processor 40 (fun _ => 1)) 2)
    as (out & w' & E & _ & L).
  - cbn [fle of_int R_Float64]. apply Rleb_false. lra.
  - cbn [to_int fmul of_int of_frac R_Float64 self sample_rate processor].
    replace (1 / 2 * 40 * (1 / 10)) with (IZR 2) by lra.
    now rewrite Rtrunc_IZR.
  - lia.
  - right. reflexivity.
  - exists out, w'. split; [exact E |]. unfold len in L. simpl in L. lia.
Qed.

(** What the reverb returns for one sample of value 1 at 10 Hz with room
    size 1 (an impulse of one tap): the sign of the variate drawn, times
    the wet gain 0.3. *)
Lemma apply_reverb_one_tap (r0 : R) :
  r0 <> 0 ->
  fst (apply_reverb [1] 1 (1 / 2) (processor 10 (fun _ => r0)))
  = Ok [r0 / Rabs r0 * (3 / 10)].
Proof.
  intros Hr. unfold apply_reverb. enter_stage.
  unfold bind at 1. unfold lift at 1.
  cbn [to_int fmul of_int of_frac R_Float64].
  replace (1 * 10 * (1 / 10)) with (IZR 1) by lra. rewrite Rtrunc_IZR.
  unfold bind, lift, randn, np_linspace. real_cbn.
  unfold np_zip. real_cbn.
  unfold np_convolve_same, convolve_full, np_sum. real_cbn.
  do 2 f_equal.
  replace (- (1 / 2) * (0 * (1 - 0) + 0)) with 0 by lra. rewrite exp_0.
  rewrite !Rmult_1_r, !Rplus_0_l. field. now apply Rabs_no_R0.
Qed.

End TimeBaseAndLength.

(** ** The low-pass filter on a unit impulse *)

Lemma list_set_app {A : Type} (l1 l2 : list A) (x v : A) :
  list_set (l1 ++ x :: l2) (length l1) v = l1 ++ v :: l2.
Proof.
  induction l1 as [| h t IH]; simpl; [reflexivity | now rewrite IH].
Qed.

Section Lowpass.
Local Open Scope R_scope.

Lemma decay_run_S (b : R) (k : nat) :
  decay_run b (S k) = decay_run b k ++ [b * (1 - b) ^ k].
Proof. unfold decay_run. now rewrite seq_S, map_app. Qed.

Lemma decay_run_length (b : R) (k : nat) : length (decay_run b k) = k.
Proof. unfold decay_run. now rewrite length_map, length_seq. Qed.

Lemma decay_run_nth (b : R) (k i : nat) :
  (i < k)%nat -> nth i (decay_run b k) 0 = b * (1 - b) ^ i.
Proof.
  intros Hi. unfold decay_run.
  rewrite (nth_indep _ 0 (b * (1 - b) ^ 0))
    by (now rewrite length_map, length_seq).
  rewrite (map_nth (fun j => b * (1 - b) ^ j) (seq 0 k) O i).
  rewrite seq_nth by exact Hi. reflexivity.
Qed.

Lemma lowpass_step_decay (b : R) (n k : nat) :
  (k < n)%nat ->
  lowpass_step (unit_impulse n) b (fsub (of_int 1) b) (Z.of_nat (S k))
               (decay_run b (S k) ++ repeat 0 (n - k))
  = Ok (decay_run b (S (S k)) ++ repeat 0 (n - S k)).
Proof.
  intros Hk. unfold lowpass_step.
  rewrite (np_get_nth (unit_impulse n) (Z.of_nat (S k)) 0); [| lia |].
  2:{ rewrite Nat2Z.id. unfold unit_impulse. simpl.
      apply nth_error_repeat. exact Hk. }
  cbn [res_bind].
  rewrite (np_get_nth _ (Z.of_nat (S k) - 1) (b * (1 - b) ^ k)); [| lia |].
  2:{ replace (Z.to_nat (Z.of_nat (S k) - 1)) with k by lia.
      rewrite nth_error_app1 by (rewrite decay_run_length; lia).
      rewrite decay_run_S, nth_error_app2 by (rewrite decay_run_length; lia).
      rewrite decay_run_length, Nat.sub_diag. reflexivity. }
  cbn [res_bind].
  rewrite np_set_inside.
  2:{ unfold len. rewrite length_app, decay_run_length, repeat_length. lia. }
  rewrite Nat2Z.id. f_equal.
  replace (n - k)%nat with (S (n - S k)) by lia. cbn [repeat].
  match goal with
  | |- list_set _ _ ?v = _ =>
      pose proof (list_set_app (decay_run b (S k)) (repeat 0 (n - S k)) 0 v)
        as Hs
  end.
  rewrite decay_run_length in Hs. rewrite Hs.
  rewrite (decay_run_S b (S k)), <- app_assoc. cbn [app].
  do 2 f_equal. cbn [fadd fmul fsub of_int R_Float64]. simpl pow. ring.
Qed.

Lemma lowpass_loop (b : R) (n m k : nat) :
  (k + m = n)%nat ->
  res_for (range (Z.of_nat (S k)) (Z.of_nat (S n)))
          (lowpass_step (unit_impulse n) b (fsub (of_int 1) b))
          (decay_run b (S k) ++ repeat 0 (n - k))
  = Ok (decay_run b (S n)).
Proof.
  revert k. induction m as [| m IH]; intros k Hk.
  - replace k with n by lia. rewrite range_nil by lia.
    rewrite Nat.sub_diag. cbn [repeat res_for]. now rewrite app_nil_r.
  - rewrite range_cons by lia. rewrite res_for_cons.
    rewrite lowpass_step_decay by lia. cbn [res_bind].
    replace (Z.of_nat (S k) + 1)%Z with (Z.of_nat (S (S k))) by lia.
    apply IH. lia.
Qed.

(** The low-pass branch on the unit impulse: the geometric run. *)
Lemma lowpass_unit_impulse (b : R) (n : nat) :
  lowpass (unit_impulse n) b = Ok (decay_run b (S n)).
Proof.
  unfold lowpass.
  change (np_get (unit_impulse n) 0) with (Ok (A := R) 1).
  cbn [res_bind].
  rewrite np_set_inside by (unfold len; simpl; lia).
  cbn [res_bind].
  replace (len (unit_impulse n)) with (Z.of_nat (S n))
    by (unfold len, unit_impulse; simpl length; now rewrite repeat_length).
  change 1%Z with (Z.of_nat 1).
  replace (list_set (np_zeros_like (unit_impulse n)) (Z.to_nat 0)
             (fmul b 1))
    with (decay_run b 1 ++ repeat 0 (n - 0)).
  - apply (lowpass_loop b n n 0). lia.
  - rewrite Nat.sub_0_r. unfold np_zeros_like, unit_impulse, decay_run.
    cbn [map seq app list_set Z.to_nat pow fmul of_int R_Float64].
    f_equal. induction n as [| n IH]; simpl; [reflexivity | now rewrite <- IH].
Qed.

End Lowpass.

Section LowpassClaim.
Local Open Scope R_scope.

Lemma decay_run_monotone (b : R) (i : nat) :
  0 < b < 1 ->
  b * (1 - b) ^ i >= b * (1 - b) ^ S i /\ b * (1 - b) ^ S i >= 0.
Proof.
  intros Hb.
  assert (Hp : 0 < (1 - b) ^ i) by (apply pow_lt; lra).
  assert (H1 : 0 < b * (b * (1 - b) ^ i))
    by (repeat apply Rmult_lt_0_compat; lra).
  assert (H2 : 0 < (1 - b) * (b * (1 - b) ^ i))
    by (repeat apply Rmult_lt_0_compat; lra).
  simpl pow. split; lra.
Qed.

(** C9. The low-pass filter with normalized coefficient
    [b = 2 * cutoff / sample_rate] in (0, 1), on the unit impulse
    [1, 0, ..., 0], returns [y[i] = b * (1 - b)^i]: it starts at [b] and
    never rises nor goes below zero, [y[i] >= y[i+1] >= 0]. *)
Theorem lowpass_impulse_decays (cutoff resonance : R) (n : nat)
    (w : World R) :
  let b := 2 * cutoff / IZR (sample_rate (self w)) in
  0 < cutoff ->
  0 < b < 1 ->
  exists y,
    apply_filter (unit_impulse n) (PyStr "lowpass") cutoff resonance w
    = (Ok y, w) /\
    length y = S n /\
    (forall i, (i <= n)%nat -> nth i y 0 = b * (1 - b) ^ i) /\
    (forall i, (i < n)%nat ->
               nth i y 0 >= nth (S i) y 0 /\ nth (S i) y 0 >= 0) /\
    (forall i, (i <= n)%nat -> nth i y 0 >= 0).
Proof.
  intros b Hc Hb.
  assert (Hsr : sample_rate (self w) <> 0%Z).
  { intros E. unfold b in Hb. rewrite E in Hb.
    unfold Rdiv in Hb. rewrite Rinv_0 in Hb. lra. }
  exists (decay_run b (S n)). split; [| split; [| split; [| split]]].
  - unfold apply_filter. enter_stage.
    unfold bind at 1. unfold lift at 1. unfold py_fdiv.
    destruct (sample_rate (self w) =? 0)%Z eqn:E0;
      [apply Z.eqb_eq in E0; contradiction |].
    change (py_eq_str (PyStr "lowpass") "lowpass") with true. cbv iota.
    unfold lift. cbn [fdiv fmul of_int R_Float64]. fold b.
    now rewrite lowpass_unit_impulse.
  - apply decay_run_length.
  - intros i Hi. apply decay_run_nth. lia.
  - intros i Hi. rewrite !decay_run_nth by lia.
    now apply decay_run_monotone.
  - intros i Hi. rewrite decay_run_nth by lia.
    assert (Hp : 0 < (1 - b) ^ i) by (apply pow_lt; lra).
    assert (H1 : 0 < b * (1 - b) ^ i) by (apply Rmult_lt_0_compat; lra).
    lra.
Qed.

(** The claim at 44100 Hz with the cutoff at 1000 Hz, on an impulse of
    four samples. *)
Lemma lowpass_impulse_decays_witness :
  exists y,
    apply_filter (unit_impulse 3) (PyStr "lowpass") 1000 1
                 (processor 44100 (fun _ => 0))
    = (Ok y, processor 44100 (fun _ => 0)) /\
    length y = 4%nat /\
    (forall i, (i < 3)%nat ->
               nth i y 0 >= nth (S i) y 0 /\ nth (S i) y 0 >= 0).
Proof.
  destruct (lowpass_impulse_decays 1000 1 3 (processor 44100 (fun _ => 0)))
    as (y & E & L & _ & Hm & _).
  - lra.
  - cbn [processor self sample_rate]. lra.
  - exists y. split; [exact E |]. split; [exact L | exact Hm].
Defined.

End LowpassClaim.

(** ** The compressor: a count of zero samples *)

Section CompressorOnFloats.


(** The same arithmetic with counts of one and two samples (an attack
    of 0.25 s and a release of 0.5 s at 4 Hz): the envelope update
    divides by 1, then by 2, and both output samples are finite. *)
Lemma compressor_with_counts_on_floats :
  to_int (fmul (of_frac 1 4) (of_int 4 : float)) = Ok 1 /\
  to_int (fmul (of_frac 1 2) (of_int 4 : float)) = Ok 2 /\
  apply_compressor [of_frac 9 10; fneg (of_frac 9 10)] (of_frac 1 2)
                   (of_int 4) (of_frac 1 4) (of_frac 1 2) (fresh 4)
  = (Ok [of_frac 6 10; fneg (of_frac 6 10)], fresh 4).
Proof.
  repeat split; vm_compute; reflexivity.
Qed.

End CompressorOnFloats.

(** ** Determinism *)

Section Determinism.
Local Open Scope R_scope.

(** C10. Every stage but the reverb is a function of its buffer, its
    parameters and the processor: run by two processors in the same
    state, it gives the same outcome and leaves them in the same state,
    and it draws nothing from the random source; but for the delay, the
    sample rate is all of the processor it depends on.  The reverb does
    draw from the source: one call, on one processor, returns [0.3] or
    [-0.3] with the sign of the variate it is handed. *)
Theorem determinism_except_reverb :
  (forall (F : Type) (fl : Float64 F) (el : Elementary F) (c : StageCall F)
          (audio : list F) (w1 w2 : World F),
      is_reverb c = false ->
      self w1 = self w2 ->
      fst (run_stage c audio w1) = fst (run_stage c audio w2) /\
      self (snd (run_stage c audio w1)) = self (snd (run_stage c audio w2)) /\
      np_random (snd (run_stage c audio w1)) = np_random w1 /\
      np_random (snd (run_stage c audio w2)) = np_random w2) /\
  (forall (F : Type) (fl : Float64 F) (el : Elementary F) (c : StageCall F)
          (audio : list F) (w1 w2 : World F),
      is_reverb c = false ->
      is_delay c = false ->
      sample_rate (self w1) = sample_rate (self w2) ->
      fst (run_stage c audio w1) = fst (run_stage c audio w2)) /\
  fst (run_stage (CallReverb 1 (1 / 2)) [1] (processor 10 (fun _ => 1)))
  = Ok [3 / 10] /\
  fst (run_stage (CallReverb 1 (1 / 2)) [1] (processor 10 (fun _ => -1)))
  = Ok [- (3 / 10)].
Proof.
  split; [| split; [| split]].
  - intros F fl el c audio w1 w2. apply stage_deterministic.
  - intros F fl el c audio w1 w2 Hr Hd E.
    apply (stage_rate_only c audio Hr Hd w1 w2 E).
  - cbn [run_stage]. rewrite apply_reverb_one_tap by lra.
    rewrite Rabs_R1. do 2 f_equal. lra.
  - cbn [run_stage]. rewrite apply_reverb_one_tap by lra.
    replace (Rabs (-1)) with 1
      by (rewrite <- (Rabs_Ropp (-1)); replace (- -1) with 1 by lra;
          symmetry; apply Rabs_R1).
    do 2 f_equal. lra.
Qed.

(** The claim on the tremolo, at two random sources that differ. *)
Lemma determinism_except_reverb_witness :
  fst (run_stage (CallTremolo 1 1) [1; 1] (processor 4 (fun _ => 1)))
  = fst (run_stage (CallTremolo 1 1) [1; 1] (processor 4 (fun _ => -1))).
Proof.
  apply (proj1 determinism_except_reverb R _ _ (CallTremolo 1 1) [1; 1]
           (processor 4 (fun _ => 1)) (processor 4 (fun _ => -1))
           eq_refl eq_refl).
Defined.

(** C1 on a delay with no feedback. *)
Lemma identity_on_degenerate_witness :
  run_stage (CallDelay (3 / 10) 0 (1 / 2)) [1; 1] (processor 4 (fun _ => 0))
  = (Ok [1; 1], processor 4 (fun _ => 0)).
Proof.
  apply identity_on_degenerate.
  cbn [degenerate fle of_int R_Float64].
  rewrite (Rleb_true 0 0) by lra. apply orb_true_r.
Defined.

(** C4 on a delay of a quarter of a second at 4 Hz, fed two samples: the
    cursor goes from 0 to 2 in the ring of 8 slots. *)
Lemma delay_line_frame_and_cursor_witness :
  delay_index
    (self (snd (run_stage (CallDelay (1 / 4) (3 / 10) (1 / 2)) [1; 1]
                          (processor 4 (fun _ => 0)))))
  = ((0 + 2) mod (2 * 4))%Z.
Proof.
  destruct (delay_line_frame_and_cursor
              (CallDelay (1 / 4) (3 / 10) (1 / 2)) [1; 1]
              (processor 4 (fun _ => 0)))
    as (_ & _ & _ & Heff).
  - unfold wf_world. cbn [processor self sample_rate delay_buffer delay_index].
    repeat split; vm_compute; congruence.
  - destruct (Heff 1%Z) as (_ & _ & Hc & _ & _).
    + reflexivity.
    + cbn [degenerate fle of_int R_Float64].
      rewrite !Rleb_false by lra. reflexivity.
    + intros dt fb mix E. injection E as <- _ _.
      cbn [to_int fmul of_int R_Float64 processor self sample_rate].
      replace (1 / 4 * 4) with (IZR 1) by lra. now rewrite Rtrunc_IZR.
    + exact Hc.
Defined.

End Determinism.

(** ** The chain executor: what it keeps, where it stops *)

Section ChainFacts.
Context {F : Type} `{Float64 F} `{Elementary F}.

(** A call with a keyword the method does not take raises at the call. *)
Lemma call_stage_unknown_keyword (kind : EffectType) (audio : list F)
    (kw : list (string * PyVal F)) (w : World F) :
  kw_known (stage_keywords kind) kw = false ->
  call_stage kind audio kw w = (Raise TypeError, w).
Proof.
  destruct kind; cbn [call_stage stage_keywords];
    unfold call_reverb, call_delay, call_chorus, call_flanger,
      call_distortion, call_filter, call_compressor, call_tremolo,
      check_names;
    intros ->; reflexivity.
Qed.

(** In an entry that gives numbers to the numeric parameters, each of
    them has a value. *)
Lemma kw_float_numeric (name : string) (d : F) (cfg : EffectConfig F) :
  numeric_params cfg = true ->
  String.eqb name "type_" || String.eqb name "filter_type" = false ->
  exists x, kw_float name d (cfg_params cfg) = Ok x.
Proof.
  unfold numeric_params, kw_float.
  induction (cfg_params cfg) as [| [k v] kw IH];
    cbn [forallb kw_lookup fst snd]; intros Hn Hname.
  - eauto.
  - apply andb_true_iff in Hn. destruct Hn as [Hv Hn].
    destruct (String.eqb k name) eqn:Ek.
    + apply String.eqb_eq in Ek. subst k.
      destruct v; [eauto | rewrite Hname in Hv; discriminate].
    + now apply IH.
Qed.

(** Such an entry, naming only parameters the method takes, makes the
    call of the method. *)
Lemma call_stage_numeric (kind : EffectType) (audio : list F)
    (cfg : EffectConfig F) (w : World F) :
  numeric_params cfg = true ->
  kw_known (stage_keywords kind) (cfg_params cfg) = true ->
  exists c, stage_kind c = kind /\
            call_stage kind audio (cfg_params cfg) w = run_stage c audio w.
Proof.
  intros Hn.
  destruct kind; cbn [call_stage stage_keywords];
    unfold call_reverb, call_delay, call_chorus, call_flanger,
      call_distortion, call_filter, call_compressor, call_tremolo,
      check_names;
    intros ->;
    cbv beta iota delta [bind ret lift raise];
    repeat match goal with
    | |- context [match kw_float ?n ?d _ with _ => _ end] =>
        destruct (kw_float_numeric n d cfg Hn eq_refl) as [? ->];
        cbv beta iota
    end;
    first
      [ eexists (CallReverb _ _); split; reflexivity
      | eexists (CallDelay _ _ _); split; reflexivity
      | eexists (CallChorus _ _ _); split; reflexivity
      | eexists (CallFlanger _ _ _); split; reflexivity
      | eexists (CallDistortion _ _); split; reflexivity
      | eexists (CallFilter _ _ _); split; reflexivity
      | eexists (CallCompressor _ _ _ _); split; reflexivity
      | eexists (CallTremolo _ _); split; reflexivity ].
Qed.

(** The step on such an entry: it is passed over, or raises [TypeError]
    at the call, or is a stage call. *)
Lemma chain_step_numeric (cfg : EffectConfig F) (out : list F)
    (w : World F) :
  numeric_params cfg = true ->
  chain_step cfg out w = (Ok out, w) \/
  chain_step cfg out w = (Raise TypeError, w) \/
  exists c, tag_is (cfg_type cfg) (stage_kind c) = true /\
            chain_step cfg out w = run_stage c out w.
Proof.
  intros Hn. destruct cfg as [[kind | s |] kw] eqn:Ecfg;
    [| left; reflexivity | left; reflexivity].
  right. rewrite chain_step_member.
  destruct (kw_known (stage_keywords kind) kw) eqn:Ek.
  - right.
    destruct (call_stage_numeric kind out (mkEffectConfig (TagMember kind) kw)
                w Hn Ek) as (c & Hc & E).
    exists c. cbn [cfg_type cfg_params tag_is] in *. subst kind.
    split; [destruct c; reflexivity | exact E].
  - left. now apply call_stage_unknown_keyword.
Qed.

Lemma for_each_state_invariant {A S : Type} (I : World F -> Prop)
    (xs : list A) (body : A -> S -> M F S) :
  (forall x acc w, In x xs -> I w -> I (snd (body x acc w))) ->
  forall acc w, I w -> I (snd (for_each xs body acc w)).
Proof.
  induction xs as [| x xs IH]; intros Hb acc w Hw; simpl.
  - exact Hw.
  - unfold bind. pose proof (Hb x acc w (or_introl eq_refl) Hw) as H1.
    destruct (body x acc w) as [[acc' | e] w1]; simpl in *.
    + apply IH; [| exact H1]. intros y a w2 Hy. apply Hb. now right.
    + exact H1.
Qed.

Lemma for_each_invariant_in {A S : Type} (P : S -> Prop) (xs : list A)
    (body : A -> S -> M F S) :
  (forall x acc w acc' w',
      In x xs -> body x acc w = (Ok acc', w') -> P acc -> P acc') ->
  forall acc w r w', P acc -> for_each xs body acc w = (Ok r, w') -> P r.
Proof.
  induction xs as [| x xs IH]; intros Hb acc w r w' Hacc E; simpl in E.
  - unfold ret in E. injection E as <- _. exact Hacc.
  - apply bind_ok_inv in E. destruct E as (acc1 & w1 & E1 & E2).
    apply (IH (fun y a v a' v' Hy => Hb y a v a' v' (or_intror Hy))
              acc1 w1 r w'); [| exact E2].
    apply (Hb x acc w acc1 w1); simpl; auto.
Qed.

Lemma for_each_raise_at {A S : Type} (pre post : list A) (x : A)
    (body : A -> S -> M F S) (acc mid : S) (w w1 w2 : World F) (e : Exn) :
  for_each pre body acc w = (Ok mid, w1) ->
  body x mid w1 = (Raise e, w2) ->
  for_each (pre ++ x :: post) body acc w = (Raise e, w2).
Proof.
  intros E1 E2. rewrite for_each_app. unfold bind at 1. rewrite E1.
  simpl. unfold bind. now rewrite E2.
Qed.

Lemma run_stage_wf (c : StageCall F) (audio : list F) (w : World F) :
  wf_world w -> wf_world (snd (run_stage c audio w)).
Proof.
  intros Hw. destruct (is_delay c) eqn:Hc.
  - destruct c; try discriminate. cbn [run_stage].
    destruct (fle delay_time (of_int 0) || fle feedback (of_int 0)) eqn:Hg.
    + unfold apply_delay. rewrite Hg. exact Hw.
    + destruct Hw as (Hsr & Hlen & Hidx).
      destruct (to_int (fmul delay_time (of_int (sample_rate (self w)))))
        as [d | e] eqn:Hd.
      * destruct (apply_delay_effective audio delay_time feedback mix w d
                    Hidx Hg Hd) as (out & E & _).
        rewrite E. unfold wf_world.
        cbn [snd self sample_rate delay_buffer delay_index].
        pose proof (ring_writes_length audio (delay_line w)) as HL.
        pose proof (ring_writes_cursor audio (delay_line w) Hidx) as HC.
        cbn [delay_line fst snd] in HL, HC.
        rewrite HL, HC. repeat split; try lia.
        all: apply Z.mod_pos_bound; lia.
      * unfold apply_delay. rewrite Hg. unfold bind, get_sample_rate, lift.
        rewrite Hd. simpl. repeat split; lia.
  - unfold wf_world. rewrite (stage_keeps_self c audio Hc w). exact Hw.
Qed.

Lemma chain_step_wf (cfg : EffectConfig F) (out : list F) (w : World F) :
  numeric_params cfg = true ->
  wf_world w -> wf_world (snd (chain_step cfg out w)).
Proof.
  intros Hn Hw.
  destruct (chain_step_numeric cfg out w Hn) as [E | [E | (c & _ & E)]];
    rewrite E; [exact Hw | exact Hw |].
  now apply run_stage_wf.
Qed.

(** X4. A chain whose entries give numbers to the numeric parameters,
    whether it returns or raises, leaves the processor as the constructor
    shapes it: the sample rate positive, the ring of [2 * sample_rate]
    slots, the cursor inside the ring. *)
Theorem chain_keeps_processor_well_formed (audio : list F)
    (effects : list (EffectConfig F)) (w : World F) :
  forallb numeric_params effects = true ->
  wf_world w -> wf_world (snd (apply_multiple_effects audio effects w)).
Proof.
  intros Hn Hw. unfold apply_multiple_effects.
  apply for_each_state_invariant; [| exact Hw].
  intros cfg acc w1 Hin. apply chain_step_wf.
  rewrite forallb_forall in Hn. now apply Hn.
Qed.

Lemma chain_step_length (cfg : EffectConfig F) (acc acc' : list F)
    (w w' : World F) :
  numeric_params cfg = true ->
  tag_is (cfg_type cfg) REVERB = false ->
  chain_step cfg acc w = (Ok acc', w') ->
  length acc' = length acc.
Proof.
  intros Hn Hr E.
  destruct (chain_step_numeric cfg acc w Hn) as [E1 | [E1 | (c & Hc & E1)]];
    rewrite E1 in E.
  - now injection E as <- _.
  - discriminate.
  - apply (stage_length c acc acc' w w'); [| exact E].
    destruct c; try reflexivity. cbn [stage_kind] in Hc.
    rewrite Hc in Hr. discriminate.
Qed.

(** X3. A chain with no reverb entry, whose entries give numbers to the
    numeric parameters, returns a buffer as long as its input whenever
    it returns. *)
Theorem chain_without_reverb_keeps_length (audio out : list F)
    (effects : list (EffectConfig F)) (w w' : World F) :
  forallb numeric_params effects = true ->
  forallb (fun cfg => negb (tag_is (cfg_type cfg) REVERB)) effects = true ->
  apply_multiple_effects audio effects w = (Ok out, w') ->
  length out = length audio.
Proof.
  intros Ht Hn E. unfold apply_multiple_effects, np_copy in E.
  apply (for_each_invariant_in (fun a => length a = length audio))
    in E; auto.
  intros cfg acc w1 acc' w2 Hin Es La. rewrite <- La.
  rewrite forallb_forall in Ht, Hn.
  apply (chain_step_length cfg acc acc' w1 w2); [now apply Ht | | exact Es].
  specialize (Hn cfg Hin). now apply negb_true_iff in Hn.
Qed.

(** X2. After entries that give numbers to the numeric parameters and
    return, an entry of a known kind whose [params] name something the
    stage method does not take stops the chain with [TypeError]: the
    entries after it are not run, and the processor stays as the entries
    before it left it. *)
Theorem chain_stops_at_unknown_keyword (audio out : list F)
    (before after : list (EffectConfig F)) (kind : EffectType)
    (kw : list (string * PyVal F)) (w w1 : World F) :
  forallb numeric_params before = true ->
  apply_multiple_effects audio before w = (Ok out, w1) ->
  kw_known (stage_keywords kind) kw = false ->
  apply_multiple_effects audio
    (before ++ mkEffectConfig (TagMember kind) kw :: after) w
  = (Raise TypeError, w1).
Proof.
  intros _ E Hk. unfold apply_multiple_effects in *.
  apply (for_each_raise_at before after _ chain_step _ out w w1 w1);
    [exact E |].
  rewrite chain_step_member.
  now apply call_stage_unknown_keyword.
Qed.

(** X19. The executor on a chain whose first entry has fixed parameters
    calls that entry's stage method on the buffer; if the call returns,
    the rest of the chain runs on what it returned, in the state it
    left; if it raises, the chain raises with it and the rest is not
    run. *)
Theorem chain_runs_head_then_rest (cfg : EffectConfig F) (c : StageCall F)
    (rest : list (EffectConfig F)) (audio : list F) (w : World F) :
  stands_for cfg c ->
  apply_multiple_effects audio (cfg :: rest) w
  = match run_stage c audio w with
    | (Ok out, w') => apply_multiple_effects out rest w'
    | (Raise e, w') => (Raise e, w')
    end.
Proof.
  intros Hc. unfold apply_multiple_effects, np_copy. cbn [for_each].
  unfold bind. now rewrite (chain_step_stands_for cfg c audio w Hc).
Qed.

Lemma cli_entry_unrecognized (flag : option F) (s : string)
    (kw : F -> list (string * PyVal F)) :
  filter recognized
    (cli_entry flag (fun v => mkEffectConfig (TagStr s) (kw v))) = [].
Proof.
  unfold cli_entry. destruct flag as [v |]; [| reflexivity].
  destruct (py_truthy (Some v)); reflexivity.
Qed.

(** X1. The chain the command line builds from --reverb, --delay and
    --distortion names its effects by strings ('reverb', 'delay',
    'distortion'), never by members of [EffectType]; the executor recognises
    none of them and returns the audio as it came, the processor untouched,
    whatever the three options hold. *)
Theorem cli_effects_do_nothing (reverb delay distortion : option F)
    (audio : list F) (w : World F) :
  apply_multiple_effects audio (cli_effects reverb delay distortion) w
  = (Ok audio, w).
Proof.
  unfold apply_multiple_effects. rewrite for_each_skip_unrecognized.
  unfold cli_effects. rewrite !filter_app, !cli_entry_unrecognized.
  reflexivity.
Qed.
End ChainFacts.

(** ** The delay: where the echo comes from *)

Section DelayEcho.
Context {F : Type} `{Float64 F}.

(** Slots the writes have not reached keep what they held. *)
Lemma ring_writes_untouched (xs : list F) (buf : list F) (idx : Z) :
  0 <= idx < len buf ->
  forall k, len xs <= k < len buf ->
    nth_error (fst (fold_left ring_write xs (buf, idx)))
              (Z.to_nat ((idx + k) mod len buf))
    = nth_error buf (Z.to_nat ((idx + k) mod len buf)).
Proof.
  intros Hidx. induction xs as [| y xs IH] using rev_ind; intros k Hk.
  - reflexivity.
  - rewrite len_app in Hk. unfold len at 2 in Hk. simpl in Hk.
    rewrite fold_left_app. cbn [fold_left].
    change (fst (ring_write ?l y))
      with (list_set (fst l) (Z.to_nat (snd l)) y).
    pose proof (ring_writes_cursor xs (buf, idx) Hidx) as Hc.
    cbn [fst snd] in Hc. rewrite Hc.
    assert (Hb : forall j, 0 <= (idx + j) mod len buf < len buf)
      by (intros j; apply Z.mod_pos_bound; lia).
    rewrite nth_error_list_set_neq.
    + apply IH. lia.
    + intros E. apply Z2Nat.inj in E; try apply Hb.
      revert E. apply mod_slots_differ; pose proof (len_nonneg xs); lia.
Qed.

Lemma delay_step_value (audio : list F) (delay_samples : Z) (feedback : F)
    (i : Z) (output : list F) (w : World F) (x o tap : F) :
  0 <= delay_index (self w) < len (delay_buffer (self w)) ->
  0 <= i < len output ->
  nth_error audio (Z.to_nat i) = Some x ->
  nth_error output (Z.to_nat i) = Some o ->
  nth_error (delay_buffer (self w)) (Z.to_nat (delay_index (self w)))
  = Some tap ->
  delay_step audio delay_samples feedback i output w
  = (Ok (if delay_samples <=? i
         then list_set output (Z.to_nat i) (fadd o (fmul tap feedback))
         else output),
     after_write w x).
Proof.
  intros Hidx Hi Hx Ho Htap.
  assert (Hget : np_get audio i = Ok x) by (apply np_get_nth; tauto).
  assert (Hgo : np_get output i = Ok o) by (apply np_get_nth; tauto).
  assert (Hgt : np_get (delay_buffer (self w)) (delay_index (self w)) = Ok tap)
    by (apply np_get_nth; tauto).
  assert (Hmod : py_mod (delay_index (self w) + 1)
                   (len (list_set (delay_buffer (self w))
                           (Z.to_nat (delay_index (self w))) x))
                 = Ok ((delay_index (self w) + 1)
                         mod len (delay_buffer (self w)))).
  { unfold py_mod. rewrite len_list_set.
    destruct (len (delay_buffer (self w)) =? 0) eqn:E0;
      [apply Z.eqb_eq in E0; lia | reflexivity]. }
  unfold delay_step.
  destruct (delay_samples <=? i);
    unfold bind, lift, get_delay_buffer, get_delay_index, set_delay_buffer,
      set_delay_index, ret; simpl.
  - rewrite Hgt, Hgo. rewrite np_set_inside by exact Hi.
    rewrite Hget. rewrite np_set_inside by exact Hidx.
    rewrite Hmod. reflexivity.
  - rewrite Hget. rewrite np_set_inside by exact Hidx.
    rewrite Hmod. reflexivity.
Qed.

Lemma delay_loop_values (audio : list F) (delay_samples : Z) (feedback : F)
    (buf0 : list F) (idx0 : Z) :
  0 <= idx0 < len buf0 ->
  len audio <= len buf0 ->
  forall (rest pre output : list F) (w : World F),
    audio = pre ++ rest ->
    length output = length audio ->
    delay_line w = fold_left ring_write pre (buf0, idx0) ->
    (forall j x, (j < length pre)%nat -> nth_error audio j = Some x ->
       exists tap,
         nth_error buf0 (Z.to_nat ((idx0 + Z.of_nat j) mod len buf0))
         = Some tap /\
         nth_error output j
         = Some (delay_wet delay_samples feedback (Z.of_nat j) x tap)) ->
    (forall j, (length pre <= j)%nat ->
               nth_error output j = nth_error audio j) ->
    exists output' w',
      for_each (range (len pre) (len audio))
               (delay_step audio delay_samples feedback) output w
      = (Ok output', w') /\
      length output' = length audio /\
      forall j x, nth_error audio j = Some x ->
        exists tap,
          nth_error buf0 (Z.to_nat ((idx0 + Z.of_nat j) mod len buf0))
          = Some tap /\
          nth_error output' j
          = Some (delay_wet delay_samples feedback (Z.of_nat j) x tap).
Proof.
  intros Hidx0 Hcap. induction rest as [| x rest IH];
    intros pre output w Ea Hlen Hline Hdone Htodo.
  - rewrite app_nil_r in Ea. subst pre. rewrite range_nil by lia.
    exists output, w. split; [reflexivity |]. split; [exact Hlen |].
    intros j x Hx. apply Hdone; [| exact Hx].
    apply nth_error_Some. congruence.
  - assert (Hpre : 0 <= len pre < len audio).
    { rewrite Ea, len_app. unfold len. simpl length. lia. }
    rewrite range_cons by lia.
    assert (Hx : nth_error audio (Z.to_nat (len pre)) = Some x).
    { rewrite Ea. unfold len. rewrite Nat2Z.id.
      rewrite nth_error_app2 by lia. now rewrite Nat.sub_diag. }
    pose proof (ring_writes_cursor pre (buf0, idx0) Hidx0) as Hc.
    pose proof (ring_writes_length pre (buf0, idx0)) as Hl.
    pose proof (ring_writes_untouched pre buf0 idx0 Hidx0 (len pre)) as Hu.
    rewrite <- Hline in Hc, Hl, Hu. cbn [delay_line fst snd] in Hc, Hl, Hu.
    assert (Hb : 0 <= (idx0 + len pre) mod len buf0 < len buf0)
      by (apply Z.mod_pos_bound; lia).
    destruct (nth_error buf0 (Z.to_nat ((idx0 + len pre) mod len buf0)))
      as [tap |] eqn:Htap.
    2:{ apply nth_error_None in Htap. unfold len in *. lia. }
    assert (Hidx : 0 <= delay_index (self w) < len (delay_buffer (self w)))
      by (rewrite Hc, Hl; exact Hb).
    assert (Ho : nth_error output (Z.to_nat (len pre)) = Some x).
    { rewrite Htodo by (unfold len; lia). exact Hx. }
    simpl for_each. unfold bind at 1.
    rewrite (delay_step_value audio delay_samples feedback (len pre) output
               w x x tap Hidx); auto.
    2:{ unfold len in *. lia. }
    2:{ rewrite Hc. apply Hu. lia. }
    set (output1 := if delay_samples <=? len pre then _ else output).
    assert (L1 : length output1 = length audio).
    { unfold output1. destruct (delay_samples <=? len pre);
        [rewrite list_set_length |]; exact Hlen. }
    assert (Hi1 : nth_error output1 (length pre)
                  = Some (delay_wet delay_samples feedback (len pre) x tap)).
    { assert (Ep : Z.to_nat (len pre) = length pre) by (unfold len; lia).
      unfold output1, delay_wet. rewrite Ep in *.
      destruct (delay_samples <=? len pre).
      - apply nth_error_list_set_eq. unfold len in *. lia.
      - exact Ho. }
    assert (Hother : forall j, j <> length pre ->
                               nth_error output1 j = nth_error output j).
    { intros j Hj. unfold output1.
      destruct (delay_samples <=? len pre); [| reflexivity].
      apply nth_error_list_set_neq. unfold len. lia. }
    destruct (IH (pre ++ [x]) output1 (after_write w x))
      as (out2 & w2 & E2 & L2 & V2).
    + rewrite <- app_assoc. exact Ea.
    + exact L1.
    + unfold after_write, delay_line at 1.
      cbn [self delay_buffer delay_index].
      rewrite fold_left_app. cbn [fold_left]. rewrite <- Hline.
      now destruct (ring_write (delay_line w) x).
    + intros j y Hj Hy. rewrite length_app in Hj. simpl in Hj.
      destruct (Nat.eq_dec j (length pre)) as [-> | Hne].
      * exists tap. unfold len in Htap, Hx. rewrite Nat2Z.id in Hx.
        split; [exact Htap |]. rewrite Hi1.
        assert (y = x) by congruence. subst y. reflexivity.
      * rewrite Hother by exact Hne. apply Hdone; [lia | exact Hy].
    + intros j Hj. rewrite length_app in Hj. simpl in Hj.
      rewrite Hother by lia. apply Htodo. lia.
    + exists out2, w2. split; [| split; [exact L2 | exact V2]].
      rewrite len_app in E2. unfold len at 2 in E2. simpl length in E2.
      simpl Z.of_nat in E2. exact E2.
Qed.
End DelayEcho.

Section DelayEchoFormula.
Context {F : Type} `{Float64 F} `{Elementary F}.

(** The dry/wet mix of two buffers of one length, sample by sample. *)
Lemma mix_dry_wet_values (mix : F) (audio wet : list F) :
  length wet = length audio ->
  exists out,
    mix_dry_wet mix audio wet = Ok out /\
    length out = length audio /\
    forall (j : nat) (x y : F),
      nth_error audio j = Some x ->
      nth_error wet j = Some y ->
      nth_error out j
      = Some (fadd (fmul (fsub (of_int 1) mix) x) (fmul mix y)).
Proof.
  intros L. unfold mix_dry_wet, np_zip.
  rewrite !length_map, L, Nat.eqb_refl.
  eexists. split; [reflexivity |].
  split; [rewrite length_map, length_combine, !length_map, L; lia |].
  intros j x y Hx Hy.
  rewrite (nth_error_combine_map _ _ _ j
             (fmul (fsub (of_int 1) mix) x) (fmul mix y)).
  - reflexivity.
  - rewrite nth_error_map, Hx. reflexivity.
  - rewrite nth_error_map, Hy. reflexivity.
Qed.

(** Past its guard, [apply_delay] is its loop followed by the mix. *)
Lemma apply_delay_loop (audio : list F) (delay_time feedback mix : F)
    (w : World F) (d : Z) :
  fle delay_time (of_int 0) || fle feedback (of_int 0) = false ->
  to_int (fmul delay_time (of_int (sample_rate (self w)))) = Ok d ->
  apply_delay audio delay_time feedback mix w
  = bind (for_each (range 0 (len audio)) (delay_step audio d feedback)
                   (np_copy audio))
         (fun output => lift (mix_dry_wet mix audio output)) w.
Proof.
  intros Hg Hd. unfold apply_delay. rewrite Hg.
  unfold bind at 1. unfold get_sample_rate at 1.
  unfold bind at 1. unfold lift at 1. rewrite Hd. reflexivity.
Qed.

(** X5. What [apply_delay] returns past its guard, on a buffer no longer
    than the ring: sample [i] is [(1 - mix) * x + mix * wet], where [wet] is
    [x] before sample [delay_samples] and [x + tap * feedback] from it on,
    [tap] being what the ring held BEFORE the call in the slot [i] places
    after the cursor. The echo is read before the slot is written, so it
    comes from the previous contents of the ring (one turn of the ring
    earlier), not from [delay_samples] samples back in this buffer. *)
Theorem delay_echo_is_old_ring_content (audio : list F)
    (delay_time feedback mix : F) (w : World F) (d : Z) :
  0 <= delay_index (self w) < len (delay_buffer (self w)) ->
  len audio <= len (delay_buffer (self w)) ->
  fle delay_time (of_int 0) || fle feedback (of_int 0) = false ->
  to_int (fmul delay_time (of_int (sample_rate (self w)))) = Ok d ->
  exists out,
    fst (apply_delay audio delay_time feedback mix w) = Ok out /\
    length out = length audio /\
    forall (j : nat) (x : F),
      nth_error audio j = Some x ->
      exists tap,
        nth_error (delay_buffer (self w))
                  (Z.to_nat ((delay_index (self w) + Z.of_nat j)
                               mod len (delay_buffer (self w))))
        = Some tap /\
        nth_error out j
        = Some (fadd (fmul (fsub (of_int 1) mix) x)
                     (fmul mix (delay_wet d feedback (Z.of_nat j) x tap))).
Proof.
  intros Hidx Hcap Hg Hd.
  rewrite (apply_delay_loop audio delay_time feedback mix w d Hg Hd).
  destruct (delay_loop_values audio d feedback (delay_buffer (self w))
              (delay_index (self w)) Hidx Hcap audio [] (np_copy audio) w)
    as (output & w' & E & L & V);
    try reflexivity; [intros j x Hj; inversion Hj |].
  change (len (@nil F)) with 0 in E.
  destruct (mix_dry_wet_values mix audio output L) as (out & Eo & Lo & Vo).
  exists out. unfold bind. rewrite E. unfold lift. rewrite Eo.
  split; [reflexivity |]. split; [exact Lo |].
  intros j x Hx. destruct (V j x Hx) as (tap & Ht & Ho).
  exists tap. split; [exact Ht |]. now apply Vo.
Qed.
End DelayEchoFormula.

Section DelayOnFreshProcessor.
Local Open Scope R_scope.

Lemma nth_error_repeat_inside {A : Type} (a : A) (n i : nat) :
  (i < n)%nat -> nth_error (repeat a n) i = Some a.
Proof.
  revert i. induction n as [| n IH]; intros [| i] Hi; simpl; try lia; auto.
  apply IH. lia.
Qed.

Lemma nth_error_eq_ext {A : Type} (l l' : list A) :
  (forall n, nth_error l n = nth_error l' n) -> l = l'.
Proof.
  revert l'. induction l as [| a l IH]; intros [| b l'] E.
  - reflexivity.
  - specialize (E O). discriminate.
  - specialize (E O). discriminate.
  - f_equal.
    + specialize (E O). simpl in E. congruence.
    + apply IH. intros n. apply (E (S n)).
Qed.

(** X6. In exact arithmetic, the first delay call on a processor fresh from
    the constructor, on a buffer of at most [2 * sample_rate] samples,
    returns the input unchanged: the ring holds zeros only, so every echo is
    zero. *)
Theorem first_delay_call_returns_input (sr : Z) (noise : nat -> R)
    (audio : list R) (delay_time feedback mix : R) :
  (0 < sr)%Z ->
  (len audio <= 2 * sr)%Z ->
  0 < delay_time ->
  0 < feedback ->
  fst (apply_delay audio delay_time feedback mix (processor sr noise))
  = Ok audio.
Proof.
  intros Hsr Hcap Hdt Hfb.
  set (w := processor sr noise).
  set (d := Rtrunc (delay_time * IZR sr)).
  assert (Hring : len (delay_buffer (self w)) = (2 * sr)%Z).
  { unfold w, len. cbn [processor self delay_buffer].
    rewrite repeat_length. lia. }
  assert (Hidx : (0 <= delay_index (self w) < len (delay_buffer (self w)))%Z).
  { rewrite Hring. unfold w. cbn [processor self delay_index]. lia. }
  rewrite (apply_delay_loop audio delay_time feedback mix w d).
  2:{ cbn [fle of_int R_Float64]. rewrite !Rleb_false by lra. reflexivity. }
  2:{ reflexivity. }
  destruct (delay_loop_values audio d feedback (delay_buffer (self w))
              (delay_index (self w)) Hidx) with
      (rest := audio) (pre := @nil R) (output := np_copy audio) (w := w)
    as (output & w' & E & L & V);
    try reflexivity; [lia | intros j x Hj; inversion Hj |].
  change (len (@nil R)) with 0%Z in E.
  destruct (mix_dry_wet_values mix audio output L) as (out & Eo & Lo & Vo).
  unfold bind. rewrite E. unfold lift. rewrite Eo. cbn [fst]. f_equal.
  apply nth_error_eq_ext. intros j.
  destruct (nth_error audio j) as [x |] eqn:Hx.
  - destruct (V j x Hx) as (tap & Ht & Ho).
    rewrite (Vo j x _ Hx Ho). f_equal.
    assert (Hj : (j < length audio)%nat)
      by (apply nth_error_Some; congruence).
    unfold w in Ht. cbn [processor self delay_index delay_buffer] in Ht.
    rewrite nth_error_repeat_inside in Ht.
    + injection Ht as <-. unfold delay_wet.
      cbn [fadd fmul fsub of_int R_Float64].
      destruct (_ <=? _)%Z; lra.
    + unfold w in Hring. cbn [processor self delay_buffer] in Hring.
      rewrite Hring.
      assert (0 <= (0 + Z.of_nat j) mod (2 * sr) < 2 * sr)%Z
        by (apply Z.mod_pos_bound; lia).
      lia.
  - apply nth_error_None. apply nth_error_None in Hx. lia.
Qed.

(** X5 on two samples at 4 Hz with a delay of one sample, on a ring that
    holds 5 and 7 from an earlier buffer: the echo in the second output
    sample is the 7 the ring held, not the first sample of this
    buffer. *)
Lemma delay_echo_is_old_ring_content_witness :
  exists out,
    fst (apply_delay [1; 1] (1 / 4) (3 / 10) (1 / 2) ringing_processor)
    = Ok out /\
    nth_error out 0 = Some ((1 - 1 / 2) * 1 + 1 / 2 * 1) /\
    nth_error out 1 = Some ((1 - 1 / 2) * 1 + 1 / 2 * (1 + 7 * (3 / 10))).
Proof.
  destruct (delay_echo_is_old_ring_content (F := R) [1; 1] (1 / 4) (3 / 10)
              (1 / 2) ringing_processor 1%Z)
    as (out & E & _ & V).
  - vm_compute. split; congruence.
  - vm_compute. congruence.
  - cbn [fle of_int R_Float64]. rewrite !Rleb_false by lra. reflexivity.
  - cbn [to_int fmul of_int R_Float64 ringing_processor self sample_rate].
    replace (1 / 4 * 4) with (IZR 1) by lra. now rewrite Rtrunc_IZR.
  - exists out. split; [exact E |].
    destruct (V 0%nat 1 eq_refl) as (tap0 & _ & O0).
    destruct (V 1%nat 1 eq_refl) as (tap1 & T1 & O1).
    injection T1 as <-.
    split; [exact O0 | exact O1].
Defined.

(** X6 on two samples at 4 Hz. *)
Lemma first_delay_call_returns_input_witness :
  fst (apply_delay [1; 1 / 2] (1 / 4) (3 / 10) (1 / 2)
         (processor 4 (fun _ => 0)))
  = Ok [1; 1 / 2].
Proof.
  apply first_delay_call_returns_input.
  - lia.
  - vm_compute. congruence.
  - lra.
  - lra.
Defined.
End DelayOnFreshProcessor.

(** ** The compressor: its sample counts and its gain *)

Section RangeLoops.
Context {S : Type}.

(** A loop over [range(lo, hi)] whose turn [i] returns on the states of
    [P i] and leaves one of [P (i + 1)] returns, in a state of [P hi]. *)
Lemma res_for_range_total (P : Z -> S -> Prop) (hi : Z)
    (body : Z -> S -> Res S) :
  (forall i acc, i < hi -> P i acc ->
                 exists acc', body i acc = Ok acc' /\ P (i + 1) acc') ->
  forall (n : nat) (lo : Z) (acc : S),
    lo <= hi -> n = Z.to_nat (hi - lo) -> P lo acc ->
    exists r, res_for (range lo hi) body acc = Ok r /\ P hi r.
Proof.
  intros Hb. induction n as [| n IH]; intros lo acc Hle Hn Hacc.
  - assert (lo = hi) by lia. subst lo. rewrite range_nil by lia.
    exists acc. split; [reflexivity | exact Hacc].
  - rewrite range_cons by lia. rewrite res_for_cons.
    destruct (Hb lo acc) as (acc' & E & Hacc'); [lia | exact Hacc |].
    rewrite E. cbn [res_bind]. apply IH; [lia | lia | exact Hacc'].
Qed.

(** The same when the loop is known to return. *)
Lemma res_for_range_invariant (P : Z -> S -> Prop) (hi : Z)
    (body : Z -> S -> Res S) :
  (forall i acc acc', i < hi -> P i acc -> body i acc = Ok acc' ->
                      P (i + 1) acc') ->
  forall (n : nat) (lo : Z) (acc r : S),
    lo <= hi -> n = Z.to_nat (hi - lo) -> P lo acc ->
    res_for (range lo hi) body acc = Ok r -> P hi r.
Proof.
  intros Hb. induction n as [| n IH]; intros lo acc r Hle Hn Hacc E.
  - assert (lo = hi) by lia. subst lo. rewrite range_nil in E by lia.
    injection E as <-. exact Hacc.
  - rewrite range_cons in E by lia. rewrite res_for_cons in E.
    apply res_bind_ok_inv in E. destruct E as (acc' & E1 & E2).
    apply (IH (lo + 1) acc' r); [lia | lia | | exact E2].
    apply (Hb lo acc acc'); [lia | exact Hacc | exact E1].
Qed.
End RangeLoops.

Section CompressorGain.
Local Open Scope R_scope.

(** The envelope follower moves the envelope toward [|x|] by one [n]-th
    of the way: it stays between the two. *)
Lemma envelope_between (envelope a : R) (n : Z) (top : R) :
  (1 <= n)%Z -> 0 <= envelope <= top -> 0 <= a <= top ->
  0 <= envelope + (a - envelope) / IZR n <= top.
Proof.
  intros Hn He Ha.
  assert (H1 : 1 <= IZR n) by (apply IZR_le in Hn; exact Hn).
  assert (Hi : 0 < / IZR n) by (apply Rinv_0_lt_compat; lra).
  assert (Hi1 : / IZR n <= 1).
  { rewrite <- Rinv_1. apply Rinv_le_contravar; lra. }
  unfold Rdiv. set (t := / IZR n) in *.
  replace (envelope + (a - envelope) * t)
    with (envelope * (1 - t) + a * t) by ring.
  split.
  - apply Rplus_le_le_0_compat; apply Rmult_le_pos; lra.
  - replace top with (top * (1 - t) + top * t) by ring.
    apply Rplus_le_compat; apply Rmult_le_compat_r; lra.
Qed.

(** Above the threshold the gain factor is in (0, 1]. *)
Lemma compressor_gain_factor (threshold ratio envelope : R) :
  0 < threshold -> 1 < ratio -> threshold < envelope ->
  0 < (threshold + (envelope - threshold) / ratio) / envelope <= 1.
Proof.
  intros Ht Hr He.
  assert (Hir : 0 < / ratio) by (apply Rinv_0_lt_compat; lra).
  assert (Hir1 : / ratio <= 1).
  { rewrite <- Rinv_1. apply Rinv_le_contravar; lra. }
  assert (Hie : 0 < / envelope) by (apply Rinv_0_lt_compat; lra).
  assert (Hd : 0 <= (envelope - threshold) / ratio <= envelope - threshold).
  { unfold Rdiv. split.
    - apply Rmult_le_pos; lra.
    - rewrite <- (Rmult_1_r (envelope - threshold)) at 2.
      apply Rmult_le_compat_l; lra. }
  split.
  - unfold Rdiv at 1. apply Rmult_lt_0_compat; lra.
  - unfold Rdiv at 1.
    rewrite <- (Rinv_r envelope) by lra.
    apply Rmult_le_compat_r; lra.
Qed.

Lemma Rabs_scaled (x g : R) : 0 < g <= 1 -> Rabs (x * g) <= Rabs x.
Proof.
  intros Hg. rewrite Rabs_mult, (Rabs_pos_eq g) by lra.
  rewrite <- (Rmult_1_r (Rabs x)) at 2.
  apply Rmult_le_compat_l; [apply Rabs_pos | lra].
Qed.

(** One turn of the compressor loop over the reals. *)
Lemma compressor_step_real (audio : list R) (threshold ratio : R)
    (a r i : Z) (output : list R) (envelope x : R) :
  (0 <= i < len output)%Z ->
  nth_error audio (Z.to_nat i) = Some x ->
  exists n,
    (n = a \/ n = r) /\
    let envelope' := envelope + (Rabs x - envelope) / IZR n in
    compressor_step audio threshold ratio a r i (output, envelope)
    = Ok (list_set output (Z.to_nat i)
            (if Rltb threshold envelope'
             then x * ((threshold + (envelope' - threshold) / ratio)
                       / envelope')
             else x),
          envelope').
Proof.
  intros Hi Hx. unfold compressor_step.
  rewrite (np_get_nth audio i x) by (try exact Hx; lia).
  cbn [res_bind flt fabs fadd fsub fdiv fmul of_int R_Float64].
  destruct (Rltb envelope (Rabs x)); [exists a | exists r];
    (split; [auto |]); cbv zeta;
    destruct (Rltb threshold _);
    rewrite np_set_inside by exact Hi; reflexivity.
Qed.



(** X7. In exact arithmetic, past its guard and with both sample counts at
    least 1, the compressor returns a buffer of the input's length in which
    no sample is larger in magnitude than the input sample; the processor is
    unchanged. *)
Theorem compressor_never_amplifies (audio : list R)
    (threshold ratio attack release : R) (w : World R) :
  0 < threshold ->
  1 < ratio ->
  1 <= attack * IZR (sample_rate (self w)) ->
  1 <= release * IZR (sample_rate (self w)) ->
  exists out,
    apply_compressor audio threshold ratio attack release w = (Ok out, w) /\
    length out = length audio /\
    forall (i : nat) (x y : R),
      nth_error audio i = Some x ->
      nth_error out i = Some y ->
      Rabs y <= Rabs x.
Proof.
  intros Ht Hr Ha Hrel.
  set (a := Rtrunc (attack * IZR (sample_rate (self w)))).
  set (r := Rtrunc (release * IZR (sample_rate (self w)))).
  destruct (res_for_range_total
              (fun (k : Z) (st : list R * R) =>
                 (0 <= k)%Z /\
                 length (fst st) = length audio /\
                 forall (i : nat) (x y : R),
                   nth_error audio i = Some x ->
                   nth_error (fst st) i = Some y ->
                   Rabs y <= Rabs x)
              (len audio)
              (compressor_step audio threshold ratio a r))
    with (n := Z.to_nat (len audio - 0)) (lo := 0%Z)
         (acc := (np_zeros_like audio, (of_int 0 : R)))
    as ([out envelope] & E & _ & L & V).
  - intros i [output envelope] Hi (Hi0 & L & V). cbn [fst] in L, V.
    assert (Ho : (0 <= i < len output)%Z) by (unfold len in *; lia).
    destruct (nth_error audio (Z.to_nat i)) as [x |] eqn:Hx.
    2:{ apply nth_error_None in Hx. unfold len in *. lia. }
    destruct (compressor_step_real audio threshold ratio a r i output
                envelope x Ho Hx) as (n & _ & Es).
    cbv zeta in Es. rewrite Es. eexists. split; [reflexivity |].
    cbn [fst]. split; [lia |]. split; [now rewrite list_set_length |].
    intros j x' y Hx' Hy.
    destruct (Nat.eq_dec (Z.to_nat i) j) as [<- | Hne].
    + rewrite nth_error_list_set_eq in Hy by (unfold len in *; lia).
      injection Hy as <-. assert (x' = x) by congruence. subst x'.
      destruct (Rltb threshold _) eqn:Hc; [| lra].
      apply Rabs_scaled, compressor_gain_factor; try assumption.
      unfold Rltb in Hc. destruct (Rlt_dec threshold _); [assumption |].
      discriminate.
    + rewrite nth_error_list_set_neq in Hy by exact Hne.
      apply (V j x' y Hx' Hy).
  - apply len_nonneg.
  - reflexivity.
  - split; [lia |]. split; [apply length_map |].
    intros i x y Hx Hy. unfold np_zeros_like in Hy. cbn [fst] in Hy.
    rewrite nth_error_map in Hy. destruct (nth_error audio i); [| discriminate].
    injection Hy as <-. cbn [of_int R_Float64]. rewrite Rabs_R0.
    apply Rabs_pos.
  - cbn [fst] in L, V. exists out. split; [| split; [exact L | exact V]].
    unfold apply_compressor. cbn [fle of_int R_Float64].
    rewrite !Rleb_false by lra. cbn [orb].
    unfold bind, get_sample_rate, lift, ret.
    cbn [to_int fmul of_int R_Float64]. fold a r.
    cbn [of_int R_Float64] in E. rewrite E. reflexivity.
Qed.

(** X8. In exact arithmetic, with both sample counts at least 1, a buffer
    whose samples all stay within the threshold passes the compressor
    unchanged: the envelope never rises above the threshold. *)
Theorem compressor_passes_quiet_signal (audio : list R)
    (threshold ratio attack release : R) (w : World R) :
  0 < threshold ->
  1 < ratio ->
  1 <= attack * IZR (sample_rate (self w)) ->
  1 <= release * IZR (sample_rate (self w)) ->
  Forall (fun x => Rabs x <= threshold) audio ->
  apply_compressor audio threshold ratio attack release w = (Ok audio, w).
Proof.
  intros Ht Hr Ha Hrel Hq.
  set (a := Rtrunc (attack * IZR (sample_rate (self w)))).
  set (r := Rtrunc (release * IZR (sample_rate (self w)))).
  assert (Ha1 : (1 <= a)%Z) by (apply Rtrunc_ge_1; exact Ha).
  assert (Hr1 : (1 <= r)%Z) by (apply Rtrunc_ge_1; exact Hrel).
  destruct (res_for_range_total
              (fun (k : Z) (st : list R * R) =>
                 (0 <= k)%Z /\
                 length (fst st) = length audio /\
                 0 <= snd st <= threshold /\
                 forall (j : nat),
                   (Z.of_nat j < k)%Z ->
                   nth_error (fst st) j = nth_error audio j)
              (len audio)
              (compressor_step audio threshold ratio a r))
    with (n := Z.to_nat (len audio - 0)) (lo := 0%Z)
         (acc := (np_zeros_like audio, (of_int 0 : R)))
    as ([out envelope] & E & _ & L & _ & V).
  - intros i [output envelope] Hi (Hi0 & L & He & V). cbn [fst snd] in *.
    assert (Ho : (0 <= i < len output)%Z) by (unfold len in *; lia).
    destruct (nth_error audio (Z.to_nat i)) as [x |] eqn:Hx.
    2:{ apply nth_error_None in Hx. unfold len in *. lia. }
    destruct (compressor_step_real audio threshold ratio a r i output
                envelope x Ho Hx) as (n & Hn & Es).
    cbv zeta in Es. rewrite Es. eexists. split; [reflexivity |].
    cbn [fst snd].
    assert (Hx' : 0 <= Rabs x <= threshold).
    { split; [apply Rabs_pos |].
      rewrite Forall_forall in Hq. apply Hq.
      apply (nth_error_In _ _ Hx). }
    assert (Hn1 : (1 <= n)%Z) by (destruct Hn; subst n; assumption).
    pose proof (envelope_between envelope (Rabs x) n threshold Hn1 He Hx')
      as He'.
    rewrite Rltb_false by lra.
    split; [lia |]. split; [now rewrite list_set_length |].
    split; [exact He' |].
    intros j Hj. destruct (Nat.eq_dec (Z.to_nat i) j) as [<- | Hne].
    + rewrite nth_error_list_set_eq by (unfold len in *; lia).
      now rewrite Hx.
    + rewrite nth_error_list_set_neq by exact Hne. apply V. lia.
  - apply len_nonneg.
  - reflexivity.
  - split; [lia |]. split; [apply length_map |].
    cbn [snd of_int R_Float64]. split; [lra |]. intros j Hj. lia.
  - cbn [fst] in L, V.
    assert (out = audio).
    { apply nth_error_eq_ext. intros j.
      destruct (Nat.lt_ge_cases j (length audio)) as [Hj | Hj].
      - apply V. unfold len. lia.
      - rewrite (proj2 (nth_error_None audio j)) by lia.
        apply nth_error_None. lia. }
    subst out.
    unfold apply_compressor. cbn [fle of_int R_Float64].
    rewrite !Rleb_false by lra. cbn [orb].
    unfold bind, get_sample_rate, lift, ret.
    cbn [to_int fmul of_int R_Float64]. fold a r.
    cbn [of_int R_Float64] in E. rewrite E. reflexivity.
Qed.

(** X7 at 44100 Hz with the default attack and release. *)
Lemma compressor_never_amplifies_witness :
  exists out,
    apply_compressor [9 / 10; - (9 / 10)] (1 / 2) 4 (1 / 100) (1 / 10)
                     (processor 44100 (fun _ => 0))
    = (Ok out, processor 44100 (fun _ => 0)) /\
    forall (i : nat) (x y : R),
      nth_error [9 / 10; - (9 / 10)] i = Some x ->
      nth_error out i = Some y ->
      Rabs y <= Rabs x.
Proof.
  destruct (compressor_never_amplifies [9 / 10; - (9 / 10)] (1 / 2) 4
              (1 / 100) (1 / 10) (processor 44100 (fun _ => 0)))
    as (out & E & _ & V).
  - lra.
  - lra.
  - cbn [processor self sample_rate]. lra.
  - cbn [processor self sample_rate]. lra.
  - exists out. split; [exact E | exact V].
Defined.

(** X8 at 44100 Hz on two samples within the threshold 0.5. *)
Lemma compressor_passes_quiet_signal_witness :
  apply_compressor [1 / 4; - (1 / 2)] (1 / 2) 4 (1 / 100) (1 / 10)
                   (processor 44100 (fun _ => 0))
  = (Ok [1 / 4; - (1 / 2)], processor 44100 (fun _ => 0)).
Proof.
  apply compressor_passes_quiet_signal.
  - lra.
  - lra.
  - cbn [processor self sample_rate]. lra.
  - cbn [processor self sample_rate]. lra.
  - apply Forall_cons; [rewrite Rabs_pos_eq; lra |].
    apply Forall_cons; [rewrite Rabs_Ropp, Rabs_pos_eq; lra |].
    apply Forall_nil.
Defined.
End CompressorGain.

(** ** The distortion: its bounds *)

Section Distortion.
Local Open Scope R_scope.

Lemma Reqb_refl (x : R) : Reqb x x = true.
Proof.
  unfold Reqb. destruct (Req_dec_T x x); [reflexivity | contradiction].
Qed.

Lemma is_nan_real (x : R) : is_nan x = false.
Proof. unfold is_nan. cbn [feqb R_Float64]. now rewrite Reqb_refl. Qed.

(** Over the reals [np.maximum] and [np.minimum] are the larger and the
    smaller of the two. *)
Lemma np_maximum_real (a b : R) :
  a <= np_maximum a b /\ b <= np_maximum a b /\
  (np_maximum a b = a \/ np_maximum a b = b).
Proof.
  unfold np_maximum. rewrite !is_nan_real. cbn [fle R_Float64].
  unfold Rleb. destruct (Rle_dec b a); lra.
Qed.

Lemma np_minimum_real (a b : R) :
  np_minimum a b <= a /\ np_minimum a b <= b /\
  (np_minimum a b = a \/ np_minimum a b = b).
Proof.
  unfold np_minimum. rewrite !is_nan_real. cbn [fle R_Float64].
  unfold Rleb. destruct (Rle_dec a b); lra.
Qed.

(** One sample of [np.clip(a, lo, hi)] over the reals. *)
Lemma clip_real (x lo hi : R) :
  let y := np_minimum (np_maximum x lo) hi in
  (lo <= hi -> lo <= y <= hi /\ (lo <= x <= hi -> y = x)) /\
  (hi < lo -> y = hi).
Proof.
  cbv zeta.
  destruct (np_maximum_real x lo) as (M1 & M2 & M3).
  destruct (np_minimum_real (np_maximum x lo) hi) as (N1 & N2 & N3).
  split.
  - intros Hle. split; [| intros Hx]; destruct M3, N3; lra.
  - intros Hlt. destruct N3; lra.
Qed.

Lemma tanh_bounds (x : R) : -1 < tanh x < 1.
Proof.
  unfold tanh, sinh, cosh.
  pose proof (exp_pos x) as Ha. pose proof (exp_pos (- x)) as Hb.
  set (a := exp x) in *. set (b := exp (- x)) in *.
  assert (Hc : 0 < (a + b) / 2) by lra.
  assert (Hi : 0 < / ((a + b) / 2)) by (apply Rinv_0_lt_compat; exact Hc).
  unfold Rdiv at 1 4.
  split.
  - replace (-1) with (- ((a + b) / 2) * / ((a + b) / 2))
      by (field; lra).
    apply Rmult_lt_compat_r; lra.
  - rewrite <- (Rinv_r ((a + b) / 2)) by lra.
    apply Rmult_lt_compat_r; lra.
Qed.

Lemma nth_error_map_some {A B : Type} (f : A -> B) (l : list A) (i : nat)
    (y : B) :
  nth_error (map f l) i = Some y ->
  exists x, nth_error l i = Some x /\ y = f x.
Proof.
  rewrite nth_error_map. destruct (nth_error l i) as [x |]; simpl;
    intros E; [| discriminate].
  injection E as <-. eauto.
Qed.

(** X9. In exact arithmetic, past its guard the distortion returns a buffer
    of the input's length whose samples are bounded by the mode: strictly
    between -1 and 1 for 'soft', within [1 - amount] for 'hard' when [amount
    <= 1], within 0.8 for any other mode. *)
Theorem distortion_output_bounded (audio : list R) (amount : R)
    (type_ : PyVal R) (w : World R) :
  0 < amount ->
  exists out,
    apply_distortion audio amount type_ w = (Ok out, w) /\
    length out = length audio /\
    forall (i : nat) (y : R),
      nth_error out i = Some y ->
      (py_eq_str type_ "soft" = true -> -1 < y < 1) /\
      (py_eq_str type_ "soft" = false -> py_eq_str type_ "hard" = true ->
       amount <= 1 -> - (1 - amount) <= y <= 1 - amount) /\
      (py_eq_str type_ "soft" = false -> py_eq_str type_ "hard" = false ->
       - (8 / 10) <= y <= 8 / 10).
Proof.
  intros Ha. unfold apply_distortion. cbn [fle of_int R_Float64].
  rewrite Rleb_false by lra.
  destruct (py_eq_str type_ "soft") eqn:Es;
    [| destruct (py_eq_str type_ "hard") eqn:Eh];
    unfold ret, np_clip; eexists; (split; [reflexivity |]);
    (split; [now rewrite ?length_map |]);
    intros i y Hy;
    repeat (apply nth_error_map_some in Hy; destruct Hy as (? & Hy & ->));
    (split; [| split]); try discriminate; intros.
  - apply tanh_bounds.
  - cbn [fneg fsub of_int R_Float64].
    apply (proj1 (clip_real _ (- (1 - amount)) (1 - amount))). lra.
  - cbn [fneg of_frac R_Float64].
    apply (proj1 (clip_real _ (- (8 / 10)) (8 / 10))). lra.
Qed.

(** X10. In exact arithmetic, hard clipping returns unchanged every sample
    whose magnitude is at most [1 - amount]. *)
Theorem hard_distortion_keeps_samples_inside (audio : list R) (amount : R)
    (w : World R) (i : nat) (x : R) :
  0 < amount ->
  nth_error audio i = Some x ->
  Rabs x <= 1 - amount ->
  exists out,
    apply_distortion audio amount (PyStr "hard") w = (Ok out, w) /\
    nth_error out i = Some x.
Proof.
  intros Ha Hx Hin. unfold apply_distortion. cbn [fle of_int R_Float64].
  rewrite Rleb_false by lra. cbn [py_eq_str String.eqb Ascii.eqb Bool.eqb].
  unfold ret, np_clip. eexists. split; [reflexivity |].
  rewrite nth_error_map, Hx. cbn [option_map]. f_equal.
  cbn [fneg fsub of_int R_Float64].
  assert (Hp := Rabs_pos x).
  apply (proj1 (clip_real x (- (1 - amount)) (1 - amount))); [lra |].
  unfold Rabs in Hin. destruct (Rcase_abs x); lra.
Qed.

(** X11. In exact arithmetic, hard clipping with [amount > 1] has its lower
    bound above its upper bound, and [np.clip] then returns the upper bound
    for every sample: the output is the constant [1 - amount], a negative
    number. *)
Theorem hard_distortion_above_one_is_constant (audio : list R) (amount : R)
    (w : World R) :
  1 < amount ->
  apply_distortion audio amount (PyStr "hard") w
  = (Ok (map (fun _ => 1 - amount) audio), w).
Proof.
  intros Ha. unfold apply_distortion. cbn [fle of_int R_Float64].
  rewrite Rleb_false by lra. cbn [py_eq_str String.eqb Ascii.eqb Bool.eqb].
  unfold ret, np_clip. do 2 f_equal. apply map_ext. intros x.
  cbn [fneg fsub of_int R_Float64].
  apply (proj2 (clip_real x (- (1 - amount)) (1 - amount))). lra.
Qed.

(** X9 on a hard clipping at 0.5. *)
Lemma distortion_output_bounded_witness :
  exists out,
    apply_distortion [2; - (1 / 4)] (1 / 2) (PyStr "hard")
                     (processor 4 (fun _ => 0))
    = (Ok out, processor 4 (fun _ => 0)) /\
    length out = 2%nat.
Proof.
  destruct (distortion_output_bounded [2; - (1 / 4)] (1 / 2) (PyStr "hard")
              (processor 4 (fun _ => 0)))
    as (out & E & L & _).
  - lra.
  - exists out. split; [exact E | exact L].
Defined.

(** X10 on the sample -0.25 under a hard clipping at 0.5. *)
Lemma hard_distortion_keeps_samples_inside_witness :
  exists out,
    apply_distortion [2; - (1 / 4)] (1 / 2) (PyStr "hard")
                     (processor 4 (fun _ => 0))
    = (Ok out, processor 4 (fun _ => 0)) /\
    nth_error out 1 = Some (- (1 / 4)).
Proof.
  apply hard_distortion_keeps_samples_inside.
  - lra.
  - reflexivity.
  - rewrite Rabs_Ropp, Rabs_pos_eq; lra.
Defined.

(** X11 with amount 2: every sample becomes -1. *)
Lemma hard_distortion_above_one_is_constant_witness :
  apply_distortion [1 / 2; - (1 / 4)] 2 (PyStr "hard")
                   (processor 4 (fun _ => 0))
  = (Ok [1 - 2; 1 - 2], processor 4 (fun _ => 0)).
Proof.
  apply (hard_distortion_above_one_is_constant [1 / 2; - (1 / 4)] 2).
  lra.
Defined.
End Distortion.

(** ** The flanger: its peak *)

Section Flanger.
Local Open Scope R_scope.

Lemma fold_np_maximum_real (l : list R) (a : R) :
  a <= fold_left np_maximum l a /\
  Forall (fun y => y <= fold_left np_maximum l a) l /\
  (fold_left np_maximum l a = a \/ In (fold_left np_maximum l a) l).
Proof.
  revert a. induction l as [| y l IH]; intros a; cbn [fold_left].
  - split; [lra |]. split; [constructor | now left].
  - destruct (IH (np_maximum a y)) as (I1 & I2 & I3).
    destruct (np_maximum_real a y) as (M1 & M2 & M3).
    split; [lra |]. split.
    + constructor; [lra | exact I2].
    + destruct I3 as [I3 | I3].
      * rewrite I3. destruct M3 as [-> | ->]; [now left | right; now left].
      * right. now right.
Qed.

(** The peak [np.max(np.abs(a))] over the reals: no sample is above it,
    and one sample attains it. *)
Lemma np_max_abs_real (l : list R) (peak : R) :
  np_max (np_abs l) = Ok peak ->
  0 <= peak /\
  Forall (fun x => Rabs x <= peak) l /\
  exists x, In x l /\ Rabs x = peak.
Proof.
  destruct l as [| x l]; cbn [np_max np_abs map]; intros E;
    [discriminate |].
  injection E as <-.
  change (map fabs l) with (map Rabs l).
  change (fabs x) with (Rabs x).
  destruct (fold_np_maximum_real (map Rabs l) (Rabs x)) as (I1 & I2 & I3).
  set (m := fold_left np_maximum (map Rabs l) (Rabs x)) in *.
  split; [pose proof (Rabs_pos x); lra |]. split.
  - constructor; [exact I1 |].
    rewrite Forall_forall in *. intros y Hy. apply I2.
    apply in_map. exact Hy.
  - destruct I3 as [I3 | I3].
    + exists x. split; [now left | now symmetry].
    + apply in_map_iff in I3. destruct I3 as (y & Ey & Hy).
      exists y. split; [now right | exact Ey].
Qed.

(** X12. In exact arithmetic, whenever the flanger returns past its guard no
    output sample is larger than 0.8 in magnitude; and either some sample
    has magnitude exactly 0.8 or the output is all zeros. *)
Theorem flanger_output_normalised (audio : list R)
    (rate depth feedback : R) (w w' : World R) (out : list R) :
  0 < rate ->
  0 < depth ->
  apply_flanger audio rate depth feedback w = (Ok out, w') ->
  Forall (fun y => Rabs y <= 8 / 10) out /\
  ((exists y, In y out /\ Rabs y = 8 / 10) \/ Forall (fun y => y = 0) out).
Proof.
  intros Hr Hd E. unfold apply_flanger in E.
  cbn [fle of_int R_Float64] in E. rewrite !Rleb_false in E by lra.
  cbn [orb] in E. unfold bind, get_sample_rate, lift in E.
  destruct (delay_lfo (sample_rate (self w)) audio rate depth)
    as [lfo | e]; cbn [res_bind] in E; [| discriminate].
  destruct (res_for (range 0 (len audio)) (flanger_step lfo feedback)
              (np_copy audio)) as [output | e];
    cbn [res_bind] in E; [| discriminate].
  destruct (np_max (np_abs output)) as [peak | e] eqn:Ep;
    cbn [res_bind] in E; [| discriminate].
  destruct (np_max_abs_real output peak Ep) as (Hp0 & Hall & (x & Hx & Hxp)).
  cbn [flt of_int of_frac fmul fdiv R_Float64] in E.
  unfold Rltb in E. destruct (Rlt_dec 0 peak) as [Hpos | Hnot].
  - cbn [res_bind] in E. injection E as <- _.
    assert (Hs : forall o, Rabs (o / peak * (8 / 10))
                           = Rabs o / peak * (8 / 10)).
    { intros o. rewrite Rabs_mult, (Rabs_pos_eq (8 / 10)) by lra.
      f_equal. unfold Rdiv. rewrite Rabs_mult.
      rewrite (Rabs_pos_eq (/ peak))
        by (left; apply Rinv_0_lt_compat; exact Hpos).
      reflexivity. }
    split.
    + rewrite Forall_forall in *. intros y Hy.
      apply in_map_iff in Hy. destruct Hy as (o & <- & Ho).
      rewrite Hs. specialize (Hall o Ho). cbv beta in Hall.
      assert (Hq : Rabs o / peak <= 1).
      { unfold Rdiv. rewrite <- (Rinv_r peak) by lra.
        apply Rmult_le_compat_r; [| exact Hall].
        left. apply Rinv_0_lt_compat. exact Hpos. }
      pose proof (Rabs_pos o).
      assert (0 <= Rabs o / peak).
      { unfold Rdiv. apply Rmult_le_pos; [assumption |].
        left. apply Rinv_0_lt_compat. exact Hpos. }
      nra.
    + left. exists (x / peak * (8 / 10)). split.
      * apply in_map_iff. exists x. split; [reflexivity | exact Hx].
      * rewrite Hs, Hxp. field. lra.
  - injection E as <- _.
    assert (Hz : peak = 0) by lra.
    assert (Hzero : Forall (fun y => y = 0) output).
    { rewrite Forall_forall in *. intros y Hy. specialize (Hall y Hy).
      cbv beta in Hall. rewrite Hz in Hall.
      pose proof (Rabs_pos y).
      destruct (Req_dec y 0) as [-> | Hne]; [reflexivity |].
      pose proof (Rabs_pos_lt y Hne). lra. }
    split; [| right; exact Hzero].
    rewrite Forall_forall in *. intros y Hy. rewrite (Hzero y Hy).
    rewrite Rabs_R0. lra.
Qed.

(** The flanger on one sample at 4 Hz: the oscillator is at zero, the
    sample is added to itself times the feedback, and the result is set
    to the peak 0.8. *)
Lemma apply_flanger_one_sample (x feedback : R) (noise : nat -> R) :
  0 < x + feedback * x ->
  apply_flanger [x] 1 1 feedback (processor 4 noise)
  = (Ok [(x + feedback * x) / Rabs (x + feedback * x) * (8 / 10)],
     processor 4 noise).
Proof.
  intros Hx. unfold apply_flanger. enter_stage. unfold lift.
  unfold delay_lfo, lfo_times, py_truediv, np_linspace. real_cbn.
  replace (2 * PI * 1 * (0 * (1 / 4 - 0) + 0)) with 0 by lra.
  rewrite sin_0.
  replace (0 * 1 * 4) with (IZR 0) by lra.
  change (range 0 (len [x])) with ([0]%Z).
  unfold res_for, flanger_step. real_cbn. rewrite Rtrunc_IZR. real_cbn.
  rewrite Rltb_true by (rewrite Rabs_pos_eq; lra).
  reflexivity.
Qed.

(** X12 on one sample at 4 Hz with feedback 0.5. *)
Lemma flanger_output_normalised_witness :
  Forall (fun y => Rabs y <= 8 / 10)
         [(1 + 1 / 2 * 1) / Rabs (1 + 1 / 2 * 1) * (8 / 10)].
Proof.
  apply (flanger_output_normalised [1] 1 1 (1 / 2)
           (processor 4 (fun _ => 0)) (processor 4 (fun _ => 0))).
  - lra.
  - lra.
  - apply apply_flanger_one_sample. lra.
Defined.
End Flanger.

(** ** The chain executor on concrete chains *)

Section ChainWitnesses.
Local Open Scope R_scope.

Lemma hard_clip_entry_stands_for :
  stands_for hard_clip_entry (CallDistortion (1 / 2) (PyStr "hard")).
Proof. entry_stands_for. Qed.

Lemma echo_entry_stands_for :
  stands_for echo_entry (CallDelay (1 / 4) (1 / 2) (1 / 2)).
Proof. entry_stands_for. Qed.

(** The echo on a fresh processor at 4 Hz, whatever the buffer: it
    returns, the samples written to the ring. *)
Lemma echo_on_fresh_processor (audio : list R) (noise : nat -> R) :
  exists out,
    apply_delay audio (1 / 4) (1 / 2) (1 / 2) (processor 4 noise)
    = (Ok out,
       let line := fold_left ring_write audio
                     (delay_line (processor 4 noise)) in
       mkWorld (mkAudioEffects 4 (fst line) (snd line)) noise) /\
    length out = length audio.
Proof.
  apply (apply_delay_effective audio (1 / 4) (1 / 2) (1 / 2)
           (processor 4 noise) 1%Z).
  - vm_compute. split; congruence.
  - cbn [fle of_int R_Float64]. rewrite !Rleb_false by lra. reflexivity.
  - cbn [to_int fmul of_int R_Float64 processor self sample_rate].
    replace (1 / 4 * 4) with (IZR 1) by lra. now rewrite Rtrunc_IZR.
Qed.

(** A chain of the echo alone, run on two samples. *)
Lemma chain_of_one_echo (noise : nat -> R) :
  exists out,
    apply_multiple_effects [1; 1] [echo_entry] (processor 4 noise)
    = (Ok out, mkWorld (mkAudioEffects 4 [1; 1; 0; 0; 0; 0; 0; 0] 2%Z) noise).
Proof.
  unfold apply_multiple_effects, np_copy. cbn [for_each]. unfold bind.
  rewrite (chain_step_stands_for echo_entry _ _ _ echo_entry_stands_for).
  cbn [run_stage].
  destruct (echo_on_fresh_processor [1; 1] noise) as (out & E & _).
  rewrite E. exists out. reflexivity.
Qed.

(** A chain of the hard clipping, then the echo, run on two samples. *)
Lemma chain_of_clip_then_echo (noise : nat -> R) :
  exists out w',
    apply_multiple_effects [2; - (1 / 4)] [hard_clip_entry; echo_entry]
      (processor 4 noise)
    = (Ok out, w').
Proof.
  unfold apply_multiple_effects, np_copy. cbn [for_each]. unfold bind.
  rewrite (chain_step_stands_for hard_clip_entry _ _ _
             hard_clip_entry_stands_for).
  cbn [run_stage]. unfold apply_distortion. cbn [fle of_int R_Float64].
  rewrite Rleb_false by lra.
  cbn [py_eq_str String.eqb Ascii.eqb Bool.eqb]. unfold ret at 1.
  rewrite (chain_step_stands_for echo_entry _ _ _ echo_entry_stands_for).
  cbn [run_stage].
  match goal with
  | |- context [apply_delay ?clipped _ _ _ _] =>
      destruct (echo_on_fresh_processor clipped noise) as (out & E & _)
  end.
  rewrite E. eexists. eexists. reflexivity.
Qed.

(** C5 on the hard clipping followed by the echo: the chain is
    [apply_distortion], then [apply_delay] on its result, in the state
    it left. *)
Lemma chain_sequential_composition_witness :
  apply_multiple_effects [2; - (1 / 4)] [hard_clip_entry; echo_entry]
    (processor 4 (fun _ => 0))
  = match apply_distortion [2; - (1 / 4)] (1 / 2) (PyStr "hard")
            (processor 4 (fun _ => 0)) with
    | (Ok B', w') => apply_delay B' (1 / 4) (1 / 2) (1 / 2) w'
    | (Raise e, w') => (Raise e, w')
    end.
Proof.
  apply (chain_sequential_composition hard_clip_entry echo_entry
           (CallDistortion (1 / 2) (PyStr "hard"))
           (CallDelay (1 / 4) (1 / 2) (1 / 2))).
  - entry_stands_for.
  - entry_stands_for.
Defined.

(** X19 on the echo followed by two more entries. *)
Lemma chain_runs_head_then_rest_witness :
  apply_multiple_effects [1; 1]
    (echo_entry :: [misnamed_entry; hard_clip_entry])
    (processor 4 (fun _ => 0))
  = match apply_delay [1; 1] (1 / 4) (1 / 2) (1 / 2)
            (processor 4 (fun _ => 0)) with
    | (Ok out, w') =>
        apply_multiple_effects out [misnamed_entry; hard_clip_entry] w'
    | (Raise e, w') => (Raise e, w')
    end.
Proof.
  apply (chain_runs_head_then_rest echo_entry
           (CallDelay (1 / 4) (1 / 2) (1 / 2))).
  entry_stands_for.
Defined.

(** X3 on the hard clipping followed by the echo. *)
Lemma chain_without_reverb_keeps_length_witness :
  exists out w',
    apply_multiple_effects [2; - (1 / 4)] [hard_clip_entry; echo_entry]
      (processor 4 (fun _ => 0))
    = (Ok out, w') /\
    length out = 2%nat.
Proof.
  destruct (chain_of_clip_then_echo (fun _ => 0)) as (out & w' & E).
  exists out, w'. split; [exact E |].
  apply (chain_without_reverb_keeps_length [2; - (1 / 4)] out
           [hard_clip_entry; echo_entry] (processor 4 (fun _ => 0)) w');
    [reflexivity | reflexivity | exact E].
Defined.

(** X2 on the echo, then the tremolo that says [speed] for [rate], then
    the hard clipping: the chain raises at the tremolo, the ring holding
    what the echo wrote. *)
Lemma chain_stops_at_unknown_keyword_witness :
  apply_multiple_effects [1; 1]
    ([echo_entry] ++ misnamed_entry :: [hard_clip_entry])
    (processor 4 (fun _ => 0))
  = (Raise TypeError,
     mkWorld (mkAudioEffects 4 [1; 1; 0; 0; 0; 0; 0; 0] 2%Z) (fun _ => 0)).
Proof.
  destruct (chain_of_one_echo (fun _ => 0)) as (out & E).
  apply (chain_stops_at_unknown_keyword [1; 1] out [echo_entry]
           [hard_clip_entry] TREMOLO [("speed"%string, PyFloat 5)]);
    [reflexivity | exact E | reflexivity].
Defined.

(** X4 on the echo followed by the tremolo that says [speed]: a chain
    that raises after the ring was written. *)
Lemma chain_keeps_processor_well_formed_witness :
  wf_world
    (snd (apply_multiple_effects [1; 1] [echo_entry; misnamed_entry]
            (processor 4 (fun _ => 0)))).
Proof.
  apply chain_keeps_processor_well_formed.
  - reflexivity.
  - unfold wf_world.
    cbn [processor self sample_rate delay_buffer delay_index].
    repeat split; vm_compute; congruence.
Defined.
End ChainWitnesses.

(** ** The filter on its edges, the zero sample rate, the empty buffer *)

Section FilterEdges.
Context {F : Type} `{Float64 F} `{Elementary F}.

(** Past the guard of [apply_filter], with a sample rate that is not
    zero, the method is its branch on the normalized cutoff. *)
Lemma apply_filter_branches (audio : list F) (filter_type : PyVal F)
    (cutoff resonance : F) (w : World F) :
  fle cutoff (of_int 0) = false ->
  sample_rate (self w) <> 0 ->
  apply_filter audio filter_type cutoff resonance w
  = let nc := fdiv (fmul (of_int 2) cutoff) (of_int (sample_rate (self w))) in
    if py_eq_str filter_type "lowpass" then (lowpass audio nc, w)
    else if py_eq_str filter_type "highpass" then (highpass audio nc, w)
    else if py_eq_str filter_type "bandpass"
         then (bandpass audio nc resonance, w)
    else (Ok audio, w).
Proof.
  intros Hg Hsr. unfold apply_filter. rewrite Hg.
  unfold bind, get_sample_rate, lift, py_fdiv.
  destruct (sample_rate (self w) =? 0) eqn:E0;
    [apply Z.eqb_eq in E0; contradiction |].
  cbv zeta.
  destruct (py_eq_str filter_type "lowpass"); [reflexivity |].
  destruct (py_eq_str filter_type "highpass"); [reflexivity |].
  destruct (py_eq_str filter_type "bandpass"); reflexivity.
Qed.

(** The band-pass loop starts at sample 2: it returns on every buffer,
    and the first two samples of its output are the zeros of
    [np.zeros_like]. *)
Lemma bandpass_head (audio : list F) (w0 resonance : F) :
  exists out,
    bandpass audio w0 resonance = Ok out /\
    length out = length audio /\
    forall i, (i < 2)%nat -> (i < length audio)%nat ->
              nth_error out i = Some (of_int 0).
Proof.
  assert (Hz : forall i, (i < length audio)%nat ->
                         nth_error (np_zeros_like audio) i = Some (of_int 0)).
  { intros i Hi. unfold np_zeros_like. rewrite nth_error_map.
    destruct (nth_error audio i) eqn:E; [reflexivity |].
    apply nth_error_None in E. lia. }
  unfold bandpass. cbv zeta.
  destruct (Z_lt_le_dec (len audio) 2) as [Hs | Hl].
  - rewrite range_nil by lia. cbn [res_for]. eexists.
    split; [reflexivity |]. split; [apply length_map |].
    intros i _ Hi. now apply Hz.
  - match goal with
    | |- context [res_for _ ?b _] =>
        destruct (res_for_range_total
                    (fun (k : Z) (out : list F) =>
                       2 <= k /\ length out = length audio /\
                       forall i, (i < 2)%nat ->
                                 nth_error out i = Some (of_int 0))
                    (len audio) b)
          with (n := Z.to_nat (len audio - 2)) (lo := 2)
               (acc := np_zeros_like audio)
          as (out & E & _ & L & V)
    end.
    + intros i output Hi (Hi2 & L & V).
      assert (Hin : forall j, 0 <= j <= i -> 0 <= j < len audio) by lia.
      assert (Hout : forall j, 0 <= j <= i -> 0 <= j < len output)
        by (unfold len in *; lia).
      destruct (np_get_inside audio i) as (x & _ & ->); [apply Hin; lia |].
      destruct (np_get_inside audio (i - 1)) as (x1 & _ & ->);
        [apply Hin; lia |].
      destruct (np_get_inside audio (i - 2)) as (x2 & _ & ->);
        [apply Hin; lia |].
      destruct (np_get_inside output (i - 1)) as (y1 & _ & ->);
        [apply Hout; lia |].
      destruct (np_get_inside output (i - 2)) as (y2 & _ & ->);
        [apply Hout; lia |].
      cbn [res_bind]. rewrite np_set_inside by (apply Hout; lia).
      eexists. split; [reflexivity |].
      split; [lia |]. split; [now rewrite list_set_length |].
      intros j Hj. rewrite nth_error_list_set_neq by lia. now apply V.
    + exact Hl.
    + reflexivity.
    + split; [lia |]. split; [apply length_map |].
      intros i Hi. apply Hz. unfold len in Hl. lia.
    + exists out. split; [exact E |]. split; [exact L |].
      intros i Hi _. now apply V.
Qed.

(** X13. Past the guard and with a sample rate that is not zero, the
    band-pass filter returns on every buffer, the empty one included; its
    output has the input's length and its first two samples are zero,
    whatever the input: the loop starts at sample 2. *)
Theorem bandpass_returns_with_silent_head (audio : list F)
    (cutoff resonance : F) (w : World F) :
  fle cutoff (of_int 0) = false ->
  sample_rate (self w) <> 0 ->
  exists out,
    apply_filter audio (PyStr "bandpass") cutoff resonance w = (Ok out, w) /\
    length out = length audio /\
    forall i, (i < 2)%nat -> (i < length audio)%nat ->
              nth_error out i = Some (of_int 0).
Proof.
  intros Hg Hsr. rewrite apply_filter_branches by assumption.
  cbv zeta. cbn [py_eq_str String.eqb Ascii.eqb Bool.eqb].
  match goal with
  | |- context [bandpass audio ?nc resonance] =>
      destruct (bandpass_head audio nc resonance) as (out & E & L & V)
  end.
  exists out. rewrite E. auto.
Qed.

(** X14. On a processor whose sample rate is 0, the filter, the chorus, the
    flanger and the tremolo raise [ZeroDivisionError] past their guards, on
    every buffer and before touching it. *)
Theorem zero_sample_rate_raises (audio : list F) (w : World F) :
  sample_rate (self w) = 0 ->
  (forall filter_type cutoff resonance,
      fle cutoff (of_int 0) = false ->
      apply_filter audio filter_type cutoff resonance w
      = (Raise ZeroDivisionError, w)) /\
  (forall rate depth,
      fle rate (of_int 0) || fle depth (of_int 0) = false ->
      (forall mix, apply_chorus audio rate depth mix w
                   = (Raise ZeroDivisionError, w)) /\
      (forall feedback, apply_flanger audio rate depth feedback w
                        = (Raise ZeroDivisionError, w)) /\
      apply_tremolo audio rate depth w = (Raise ZeroDivisionError, w)).
Proof.
  intros Hsr. split.
  - intros ft cutoff resonance Hg. unfold apply_filter. rewrite Hg.
    unfold bind, get_sample_rate, lift, py_fdiv. rewrite Hsr. reflexivity.
  - intros rate depth Hg.
    unfold apply_chorus, apply_flanger, apply_tremolo. rewrite Hg.
    unfold bind, get_sample_rate, lift, delay_lfo, lfo_times, py_truediv.
    rewrite Hsr. cbn [Z.eqb res_bind]. repeat split; reflexivity.
Qed.
End FilterEdges.

Section EmptyBuffer.
Context {F : Type} `{Float64 F}.

(** [np.convolve] refuses an empty first operand, whatever the second. *)
Lemma np_convolve_same_of_empty (v : list F) :
  np_convolve_same [] v = Raise ValueError.
Proof.
  unfold np_convolve_same. destruct v as [| y v]; reflexivity.
Qed.

(** The time base of the empty buffer is empty. *)
Lemma lfo_times_of_empty (sr : Z) :
  sr <> 0 -> lfo_times sr (@nil F) = Ok [].
Proof.
  intros Hsr. unfold lfo_times, py_truediv.
  destruct (sr =? 0) eqn:E0; [apply Z.eqb_eq in E0; contradiction |].
  reflexivity.
Qed.
End EmptyBuffer.

Section EmptyBufferReal.
Local Open Scope R_scope.

Lemma apply_reverb_of_empty (room_size damping : R) (w : World R) :
  0 < room_size ->
  fst (apply_reverb [] room_size damping w) = Raise ValueError.
Proof.
  intros Hg. unfold apply_reverb. cbn [fle of_int R_Float64].
  rewrite Rleb_false by lra.
  unfold bind at 1. unfold get_sample_rate at 1.
  unfold bind at 1. unfold lift at 1. cbn [to_int R_Float64].
  set (L := Rtrunc _).
  destruct (Z_lt_le_dec L 0) as [Hneg | Hpos].
  - unfold bind, lift, np_linspace.
    replace (L <? 0)%Z with true by (symmetry; apply Z.ltb_lt; lia).
    reflexivity.
  - destruct (np_linspace_ok (of_int 0 : R) (of_int 1) L Hpos) as (ramp & Er).
    pose proof (np_linspace_length _ _ _ _ Er) as Lr.
    cbn [of_int R_Float64] in Er.
    unfold bind at 1. unfold lift at 1. rewrite Er.
    unfold bind at 1. unfold randn at 1.
    replace (L <? 0)%Z with false by (symmetry; apply Z.ltb_ge; lia).
    match goal with
    | |- context [np_zip fmul ?a ?b] =>
        destruct (np_zip_same_length fmul a b) as (imp & Ei & _);
          [now rewrite !length_map, length_seq |]
    end.
    unfold bind at 1. unfold lift at 1. rewrite Ei.
    unfold bind at 1. unfold lift at 1.
    rewrite np_convolve_same_of_empty. reflexivity.
Qed.

(** X15. In exact arithmetic, on the empty buffer, past its guard and with a
    sample rate that is not zero: the reverb and the flanger raise
    [ValueError], the low-pass and the high-pass filter raise [IndexError],
    and every other stage (the band-pass and unknown filter types included)
    returns the empty buffer. *)
Theorem stages_on_empty_buffer (c : StageCall R) (w : World R) :
  degenerate c = false ->
  sample_rate (self w) <> 0%Z ->
  fst (run_stage c [] w) = empty_buffer_outcome c.
Proof.
  intros Hg Hsr.
  destruct c; cbn [degenerate run_stage empty_buffer_outcome] in *.
  - apply apply_reverb_of_empty.
    cbn [fle of_int R_Float64] in Hg. unfold Rleb in Hg.
    destruct (Rle_dec room_size 0); [discriminate | lra].
  - unfold apply_delay. rewrite Hg.
    unfold bind, get_sample_rate, lift. reflexivity.
  - unfold apply_chorus. rewrite Hg.
    unfold bind, get_sample_rate, lift, delay_lfo.
    rewrite lfo_times_of_empty by exact Hsr. reflexivity.
  - unfold apply_flanger. rewrite Hg.
    unfold bind, get_sample_rate, lift, delay_lfo.
    rewrite lfo_times_of_empty by exact Hsr. reflexivity.
  - unfold apply_distortion. rewrite Hg.
    destruct (py_eq_str type_ "soft"); [reflexivity |].
    destruct (py_eq_str type_ "hard"); reflexivity.
  - rewrite apply_filter_branches by assumption. cbv zeta.
    destruct (py_eq_str filter_type "lowpass"); [reflexivity |].
    destruct (py_eq_str filter_type "highpass"); [reflexivity |].
    destruct (py_eq_str filter_type "bandpass"); reflexivity.
  - unfold apply_compressor. rewrite Hg.
    unfold bind, get_sample_rate, lift. reflexivity.
  - unfold apply_tremolo. rewrite Hg.
    unfold bind, get_sample_rate, lift.
    rewrite lfo_times_of_empty by exact Hsr. reflexivity.
Qed.

(** X15 on the flanger with its default parameters. *)
Lemma stages_on_empty_buffer_witness :
  fst (run_stage (CallFlanger (1 / 2) (5 / 1000) (3 / 10)) []
         (processor 44100 (fun _ => 0)))
  = Raise ValueError.
Proof.
  apply (stages_on_empty_buffer (CallFlanger (1 / 2) (5 / 1000) (3 / 10))).
  - cbn [degenerate fle of_int R_Float64].
    rewrite !Rleb_false by lra. reflexivity.
  - cbn [processor self sample_rate]. lia.
Defined.
End EmptyBufferReal.

(** ** The tremolo: its gain *)

Section Tremolo.
Local Open Scope R_scope.

Lemma Rabs_scaled_le (x g : R) : 0 <= g <= 1 -> Rabs (x * g) <= Rabs x.
Proof.
  intros Hg. rewrite Rabs_mult, (Rabs_pos_eq g) by lra.
  rewrite <- (Rmult_1_r (Rabs x)) at 2.
  apply Rmult_le_compat_l; [apply Rabs_pos | lra].
Qed.

(** The gain of the tremolo stays between [1 - depth] and 1. *)
Lemma tremolo_gain_bounds (depth theta : R) :
  0 < depth <= 1 ->
  0 <= 1 - depth * (1 + sin theta) / 2 <= 1.
Proof.
  intros Hd. pose proof (SIN_bound theta) as [Hlo Hhi].
  assert (0 <= depth * (1 + sin theta) <= 2 * depth).
  { split; [apply Rmult_le_pos; lra |].
    rewrite (Rmult_comm 2). apply Rmult_le_compat_l; lra. }
  lra.
Qed.

(** X16. In exact arithmetic, with [rate > 0], [0 < depth <= 1] and a sample
    rate that is not zero, the tremolo returns on every buffer, keeps its
    length and the processor, and no output sample is larger in magnitude
    than the input sample. *)
Theorem tremolo_never_amplifies (audio : list R) (rate depth : R)
    (w : World R) :
  0 < rate ->
  0 < depth <= 1 ->
  sample_rate (self w) <> 0%Z ->
  exists out,
    apply_tremolo audio rate depth w = (Ok out, w) /\
    length out = length audio /\
    forall (i : nat) (x y : R),
      nth_error audio i = Some x ->
      nth_error out i = Some y ->
      Rabs y <= Rabs x.
Proof.
  intros Hr Hd Hsr. unfold apply_tremolo. cbn [fle of_int R_Float64].
  rewrite !Rleb_false by lra. cbn [orb].
  unfold bind, get_sample_rate, lift.
  destruct (lfo_times (sample_rate (self w)) audio) as [t | e] eqn:Et.
  2:{ exfalso. unfold lfo_times, py_truediv in Et.
      destruct (sample_rate (self w) =? 0)%Z eqn:E0;
        [apply Z.eqb_eq in E0; contradiction |].
      cbn [res_bind] in Et.
      destruct (np_linspace_ok (of_int 0 : R)
                  (of_frac (len audio) (sample_rate (self w))) (len audio)
                  (len_nonneg audio)) as (l & El).
      rewrite El in Et. discriminate. }
  pose proof (lfo_times_length _ _ _ Et) as Lt.
  cbn [res_bind]. set (lfo := map _ t).
  assert (Llfo : length lfo = length audio)
    by (unfold lfo; now rewrite length_map).
  unfold np_zip. rewrite <- Llfo, Nat.eqb_refl.
  eexists. split; [reflexivity |].
  split; [rewrite length_map, length_combine; lia |].
  intros i x y Hx Hy.
  destruct (nth_error t i) as [ti |] eqn:Hti.
  2:{ apply nth_error_None in Hti.
      assert (i < length audio)%nat by (apply nth_error_Some; congruence).
      lia. }
  erewrite nth_error_combine_map in Hy; [| exact Hx |].
  2:{ unfold lfo. rewrite nth_error_map, Hti. reflexivity. }
  injection Hy as <-.
  cbn [fst snd fmul fsub fadd fdiv of_int fsin fpi R_Float64 R_Elementary].
  apply Rabs_scaled_le, tremolo_gain_bounds. exact Hd.
Qed.

(** X16 at 44100 Hz with the default rate and depth. *)
Lemma tremolo_never_amplifies_witness :
  exists out,
    apply_tremolo [1; - (1 / 2)] 5 (1 / 2) (processor 44100 (fun _ => 0))
    = (Ok out, processor 44100 (fun _ => 0)) /\
    length out = 2%nat.
Proof.
  destruct (tremolo_never_amplifies [1; - (1 / 2)] 5 (1 / 2)
              (processor 44100 (fun _ => 0)))
    as (out & E & L & _).
  - lra.
  - lra.
  - cbn [processor self sample_rate]. lia.
  - exists out. split; [exact E | exact L].
Defined.
End Tremolo.

(** ** The filters on a constant input *)

Section ConstantInput.
Local Open Scope R_scope.

(** The low-pass body on the constant buffer [c, ..., c]: the step
    response [c * (1 - (1 - b)^(i + 1))]. *)
Lemma lowpass_constant (c b : R) (n : nat) :
  exists out,
    lowpass (repeat c (S n)) b = Ok out /\
    length out = S n /\
    forall i, (i <= n)%nat ->
              nth_error out i = Some (c * (1 - (1 - b) ^ S i)).
Proof.
  unfold lowpass. cbv zeta.
  assert (Hlen : len (repeat c (S n)) = Z.of_nat (S n))
    by (unfold len; now rewrite repeat_length).
  assert (Hc : forall i : Z, (0 <= i < Z.of_nat (S n))%Z ->
                             np_get (repeat c (S n)) i = Ok c).
  { intros i Hi. apply np_get_nth; [lia |].
    apply nth_error_repeat_inside. lia. }
  rewrite Hc by lia. cbn [res_bind].
  rewrite np_set_inside
    by (unfold len, np_zeros_like; rewrite length_map, repeat_length; lia).
  cbn [res_bind]. rewrite Hlen.
  destruct (res_for_range_total
              (fun (k : Z) (out : list R) =>
                 (1 <= k)%Z /\ length out = S n /\
                 forall j, (Z.of_nat j < k)%Z ->
                           nth_error out j = Some (c * (1 - (1 - b) ^ S j)))
              (Z.of_nat (S n))
              (lowpass_step (repeat c (S n)) b (fsub (of_int 1) b)))
    with (n := Z.to_nat (Z.of_nat (S n) - 1)) (lo := 1%Z)
         (acc := list_set (np_zeros_like (repeat c (S n))) (Z.to_nat 0)
                   (fmul b c))
    as (out & E & _ & L & V).
  - intros i output Hi (Hi1 & L & V). unfold lowpass_step.
    rewrite Hc by lia. cbn [res_bind].
    rewrite (np_get_nth output (i - 1) (c * (1 - (1 - b) ^ S (Z.to_nat (i - 1)))))
      by (try lia; apply V; lia).
    cbn [res_bind]. rewrite np_set_inside by (unfold len; lia).
    eexists. split; [reflexivity |].
    split; [lia |]. split; [now rewrite list_set_length |].
    intros j Hj. destruct (Nat.eq_dec (Z.to_nat i) j) as [<- | Hne].
    + rewrite nth_error_list_set_eq by lia. f_equal.
      cbn [fadd fmul fsub of_int R_Float64].
      replace (S (Z.to_nat i)) with (S (S (Z.to_nat (i - 1)))) by lia.
      cbn [pow]. ring.
    + rewrite nth_error_list_set_neq by exact Hne. apply V. lia.
  - lia.
  - reflexivity.
  - split; [lia |].
    split; [unfold np_zeros_like;
            now rewrite list_set_length, length_map, repeat_length |].
    intros j Hj. assert (j = O) by lia. subst j.
    cbn [np_zeros_like repeat map Z.to_nat list_set nth_error].
    f_equal. cbn [fmul R_Float64 pow]. ring.
  - exists out. split; [exact E |]. split; [exact L |].
    intros i Hi. apply V. lia.
Qed.

(** The high-pass body on the constant buffer: [c * (1 - b)^i]. *)
Lemma highpass_constant (c b : R) (n : nat) :
  exists out,
    highpass (repeat c (S n)) b = Ok out /\
    length out = S n /\
    forall i, (i <= n)%nat -> nth_error out i = Some (c * (1 - b) ^ i).
Proof.
  unfold highpass. cbv zeta.
  assert (Hlen : len (repeat c (S n)) = Z.of_nat (S n))
    by (unfold len; now rewrite repeat_length).
  assert (Hc : forall i : Z, (0 <= i < Z.of_nat (S n))%Z ->
                             np_get (repeat c (S n)) i = Ok c).
  { intros i Hi. apply np_get_nth; [lia |].
    apply nth_error_repeat_inside. lia. }
  rewrite Hc by lia. cbn [res_bind].
  rewrite np_set_inside
    by (unfold len, np_zeros_like; rewrite length_map, repeat_length; lia).
  cbn [res_bind]. rewrite Hlen.
  match goal with
  | |- context [res_for _ ?body ?acc0] =>
      destruct (res_for_range_total
                  (fun (k : Z) (out : list R) =>
                     (1 <= k)%Z /\ length out = S n /\
                     forall j, (Z.of_nat j < k)%Z ->
                               nth_error out j = Some (c * (1 - b) ^ j))
                  (Z.of_nat (S n)) body)
        with (n := Z.to_nat (Z.of_nat (S n) - 1)) (lo := 1%Z) (acc := acc0)
        as (out & E & _ & L & V)
  end.
  - intros i output Hi (Hi1 & L & V).
    rewrite (np_get_nth output (i - 1) (c * (1 - b) ^ Z.to_nat (i - 1)))
      by (try lia; apply V; lia).
    cbn [res_bind]. rewrite !Hc by lia. cbn [res_bind].
    rewrite np_set_inside by (unfold len; lia).
    eexists. split; [reflexivity |].
    split; [lia |]. split; [now rewrite list_set_length |].
    intros j Hj. destruct (Nat.eq_dec (Z.to_nat i) j) as [<- | Hne].
    + rewrite nth_error_list_set_eq by lia. f_equal.
      cbn [fadd fmul fsub of_int R_Float64].
      replace (Z.to_nat i) with (S (Z.to_nat (i - 1))) by lia.
      cbn [pow]. ring.
    + rewrite nth_error_list_set_neq by exact Hne. apply V. lia.
  - lia.
  - reflexivity.
  - split; [lia |].
    split; [unfold np_zeros_like;
            now rewrite list_set_length, length_map, repeat_length |].
    intros j Hj. assert (j = O) by lia. subst j.
    cbn [np_zeros_like repeat map Z.to_nat list_set nth_error].
    f_equal. cbn [pow]. ring.
  - exists out. split; [exact E |]. split; [exact L |].
    intros i Hi. apply V. lia.
Qed.

(** X17. In exact arithmetic, on a constant buffer [c, ..., c] and with [b =
    2 * cutoff / sample_rate], the low-pass filter returns the step response
    [c * (1 - (1 - b)^(i + 1))] and the high-pass filter returns [c * (1 -
    b)^i]. *)
Theorem filters_on_constant_input (c cutoff resonance : R) (n : nat)
    (w : World R) :
  0 < cutoff ->
  sample_rate (self w) <> 0%Z ->
  let b := 2 * cutoff / IZR (sample_rate (self w)) in
  (exists low,
      apply_filter (repeat c (S n)) (PyStr "lowpass") cutoff resonance w
      = (Ok low, w) /\
      length low = S n /\
      forall i, (i <= n)%nat ->
                nth_error low i = Some (c * (1 - (1 - b) ^ S i))) /\
  (exists high,
      apply_filter (repeat c (S n)) (PyStr "highpass") cutoff resonance w
      = (Ok high, w) /\
      length high = S n /\
      forall i, (i <= n)%nat -> nth_error high i = Some (c * (1 - b) ^ i)).
Proof.
  intros Hc Hsr b.
  assert (Hg : fle cutoff (of_int 0) = false)
    by (cbn [fle of_int R_Float64]; apply Rleb_false; lra).
  split; rewrite apply_filter_branches by assumption; cbv zeta;
    cbn [py_eq_str String.eqb Ascii.eqb Bool.eqb];
    cbn [fdiv fmul of_int R_Float64]; fold b.
  - destruct (lowpass_constant c b n) as (out & E & L & V).
    exists out. rewrite E. auto.
  - destruct (highpass_constant c b n) as (out & E & L & V).
    exists out. rewrite E. auto.
Qed.

(** X17 on three samples at 44100 Hz with the cutoff at 1000 Hz. *)
Lemma filters_on_constant_input_witness :
  exists high,
    apply_filter (repeat 1 (S 2)) (PyStr "highpass") 1000 1
                 (processor 44100 (fun _ => 0))
    = (Ok high, processor 44100 (fun _ => 0)) /\
    length high = 3%nat.
Proof.
  destruct (filters_on_constant_input 1 1000 1 2
              (processor 44100 (fun _ => 0)))
    as (_ & (high & E & L & _)).
  - lra.
  - cbn [processor self sample_rate]. lia.
  - exists high. split; [exact E | exact L].
Defined.
End ConstantInput.

(** ** The reverb: what it draws *)

Section ReverbDraws.
Context {F : Type} `{Float64 F} `{Elementary F}.

(** X18. Past its guard, with an impulse of [L >= 1] taps and a buffer of at
    least [L] samples, the reverb returns a buffer of the input's length,
    leaves the processor as it was and uses up exactly [L] variates of the
    random source. *)
Theorem reverb_draws_its_impulse (audio : list F) (room_size damping : F)
    (w : World F) (L : Z) :
  fle room_size (of_int 0) = false ->
  to_int (fmul (fmul room_size (of_int (sample_rate (self w))))
               (of_frac 1 10)) = Ok L ->
  1 <= L <= len audio ->
  exists out,
    apply_reverb audio room_size damping w
    = (Ok out,
       mkWorld (self w) (fun k => np_random w (Z.to_nat L + k)%nat)) /\
    length out = length audio.
Proof.
  intros Hg HL HL1. unfold apply_reverb. rewrite Hg.
  unfold bind at 1. unfold get_sample_rate at 1.
  unfold bind at 1. unfold lift at 1. rewrite HL.
  destruct (np_linspace_ok (of_int 0) (of_int 1) L) as (ramp & Er); [lia |].
  pose proof (np_linspace_length _ _ _ _ Er) as Lr.
  unfold bind at 1. unfold lift at 1. rewrite Er.
  unfold bind at 1. unfold randn at 1.
  replace (L <? 0) with false by (symmetry; apply Z.ltb_ge; lia).
  set (noise := map (np_random w) (seq 0 (Z.to_nat L))).
  set (decay := map (fun x => fexp (fmul (fneg damping) x)) ramp).
  destruct (np_zip_same_length fmul noise decay) as (imp & Ei & Li).
  { unfold noise, decay. now rewrite !length_map, length_seq. }
  assert (Limp : length imp = Z.to_nat L).
  { rewrite Li. unfold noise. now rewrite length_map, length_seq. }
  unfold bind at 1. unfold lift at 1. rewrite Ei.
  set (impulse := map (fun x => fmul (fdiv x (np_sum (np_abs imp)))
                                   (of_frac 3 10)) imp).
  assert (Limpulse : length impulse = Z.to_nat L)
    by (unfold impulse; now rewrite length_map).
  assert (Hne : audio <> []).
  { intros ->. unfold len in HL1. simpl in HL1. lia. }
  destruct (np_convolve_same_ok audio impulse) as (rev & Ec & Lc).
  { exact Hne. }
  { intros E0. rewrite E0 in Limpulse. simpl in Limpulse. lia. }
  unfold bind at 1. unfold lift at 1. rewrite Ec.
  rewrite Limpulse in Lc.
  destruct (np_zip_same_length fadd
              (map (fun x => fmul (fsub (of_int 1) room_size) x) audio)
              (map (fun x => fmul room_size x) rev)) as (out & Eo & Lo).
  { rewrite !length_map, Lc. unfold len in HL1. lia. }
  exists out. unfold lift. rewrite Eo. split; [reflexivity |].
  now rewrite Lo, length_map.
Qed.
End ReverbDraws.

Section EdgeWitnesses.
Local Open Scope R_scope.

(** X18 at 40 Hz with room size 0.5: two taps, two samples. *)
Lemma reverb_draws_its_impulse_witness :
  exists out,
    apply_reverb [1 / 2; 1 / 2] (1 / 2) (1 / 2) (processor 40 (fun _ => 1))
    = (Ok out,
       mkWorld (self (processor 40 (fun _ => 1)))
               (fun k => np_random (processor 40 (fun _ => 1))
                                   (Z.to_nat 2 + k)%nat)) /\
    length out = 2%nat.
Proof.
  apply (reverb_draws_its_impulse [1 / 2; 1 / 2] (1 / 2) (1 / 2)
           (processor 40 (fun _ => 1)) 2).
  - cbn [fle of_int R_Float64]. apply Rleb_false. lra.
  - cbn [to_int fmul of_int of_frac R_Float64 self sample_rate processor].
    replace (1 / 2 * 40 * (1 / 10)) with (IZR 2) by lra.
    now rewrite Rtrunc_IZR.
  - vm_compute. split; congruence.
Defined.

(** X13 on three samples at 44100 Hz. *)
Lemma bandpass_returns_with_silent_head_witness :
  exists out,
    apply_filter [1; 1; 1] (PyStr "bandpass") 1000 1
                 (processor 44100 (fun _ => 0))
    = (Ok out, processor 44100 (fun _ => 0)) /\
    length out = 3%nat /\
    nth_error out 1 = Some 0.
Proof.
  destruct (bandpass_returns_with_silent_head (F := R) [1; 1; 1] 1000 1
              (processor 44100 (fun _ => 0)))
    as (out & E & L & V).
  - cbn [fle of_int R_Float64]. apply Rleb_false. lra.
  - cbn [processor self sample_rate]. lia.
  - exists out. split; [exact E |]. split; [exact L |].
    apply (V 1%nat); simpl; lia.
Defined.

(** X14 on the tremolo. *)
Lemma zero_sample_rate_raises_witness :
  apply_tremolo [1; 1] 5 (1 / 2) (processor 0 (fun _ => 0))
  = (Raise ZeroDivisionError, processor 0 (fun _ => 0)).
Proof.
  destruct (zero_sample_rate_raises (F := R) [1; 1]
              (processor 0 (fun _ => 0)) eq_refl) as (_ & Hosc).
  destruct (Hosc 5 (1 / 2)) as (_ & _ & Ht).
  - cbn [fle of_int R_Float64]. rewrite !Rleb_false by lra. reflexivity.
  - exact Ht.
Defined.
End EdgeWitnesses.

Section TremoloFormula.
Local Open Scope R_scope.

(** X20 on three samples at 44100 Hz: the second sample is modulated at the
    time [1 * (3 / 44100) / 2]. *)
Lemma apply_tremolo_real_witness :
  exists out,
    apply_tremolo [1; 1; 1] 5 (1 / 2) (processor 44100 (fun _ => 0))
    = (Ok out, processor 44100 (fun _ => 0)) /\
    length out = 3%nat /\
    nth_error out 1
    = Some (1 * (1 - 1 / 2
                     * (1 + sin (2 * PI * 5 * end_point_time 44100 3 1))
                     / 2)).
Proof.
  destruct (apply_tremolo_real [1; 1; 1] 5 (1 / 2)
              (processor 44100 (fun _ => 0)))
    as (out & E & L & V).
  - lra.
  - lra.
  - cbn [processor self sample_rate]. lia.
  - vm_compute. congruence.
  - exists out. split; [exact E |]. split; [exact L |].
    apply (V 1%nat 1). reflexivity.
Defined.
End TremoloFormula.

(** ** The chorus: what its wet signal holds *)

Section ChorusWet.
Context {F : Type} `{Float64 F} `{Elementary F}.

Lemma np_get_ok_in (a : list F) (i : Z) (x : F) :
  np_get a i = Ok x -> In x a.
Proof.
  unfold np_get. destruct (np_index (len a) i) as [j | e];
    cbn [res_bind]; [| discriminate].
  destruct (nth_error a j) as [y |] eqn:E; [| discriminate].
  intros Ex. injection Ex as <-. apply (nth_error_In _ _ E).
Qed.

Lemma np_set_ok_inv (a a' : list F) (i : Z) (x : F) :
  np_set a i x = Ok a' ->
  exists j, (j < length a)%nat /\ a' = list_set a j x.
Proof.
  unfold np_set, np_index.
  destruct ((0 <=? (if i <? 0 then i + len a else i))
            && ((if i <? 0 then i + len a else i) <? len a)) eqn:E;
    cbn [res_bind]; [| discriminate].
  intros Ea. injection Ea as <-. eexists. split; [| reflexivity].
  apply andb_prop in E. destruct E as [E1 E2].
  apply Z.leb_le in E1. apply Z.ltb_lt in E2. unfold len in *. lia.
Qed.

(** The wet signal of the chorus holds zeros and samples of the input,
    nothing else. *)
Lemma chorus_loop_samples (audio lfo : list F) (xs : list Z)
    (acc out : list F) :
  (forall c, In c acc -> c = of_int 0 \/ In c audio) ->
  res_for xs (chorus_step audio lfo) acc = Ok out ->
  forall c, In c out -> c = of_int 0 \/ In c audio.
Proof.
  intros Hacc E.
  apply (res_for_invariant
           (fun a => forall c, In c a -> c = of_int 0 \/ In c audio)
           xs (chorus_step audio lfo)) with (acc := acc); auto.
  clear. intros i acc acc' _ Es Hacc c Hc. unfold chorus_step in Es.
  apply res_bind_ok_inv in Es. destruct Es as (l & _ & Es).
  apply res_bind_ok_inv in Es. destruct Es as (d & _ & Es).
  destruct (d <=? i).
  - apply res_bind_ok_inv in Es. destruct Es as (x & Ex & Es).
    apply np_get_ok_in in Ex.
    apply np_set_ok_inv in Es. destruct Es as (j & Hj & ->).
    apply In_nth_error in Hc. destruct Hc as (k & Hk).
    rewrite nth_error_list_set in Hk by exact Hj.
    destruct (Nat.eq_dec j k).
    + injection Hk as <-. now right.
    + apply Hacc. apply (nth_error_In _ _ Hk).
  - injection Es as <-. now apply Hacc.
Qed.

(** X21. Whenever the chorus returns past its guard, it leaves the state as
    it was and keeps the length, and every output sample is the dry/wet mix
    [(1 - mix) * x + mix * c] of the input sample [x] with a wet sample [c]
    that is zero or one of the samples of the input: the chorus makes up no
    sample of its own. *)
Theorem chorus_mixes_input_samples (audio out : list F)
    (rate depth mix : F) (w w' : World F) :
  fle rate (of_int 0) || fle depth (of_int 0) = false ->
  apply_chorus audio rate depth mix w = (Ok out, w') ->
  w' = w /\
  length out = length audio /\
  forall (i : nat) (x y : F),
    nth_error audio i = Some x ->
    nth_error out i = Some y ->
    exists c,
      (c = of_int 0 \/ In c audio) /\
      y = fadd (fmul (fsub (of_int 1) mix) x) (fmul mix c).
Proof.
  intros Hg E. unfold apply_chorus in E. rewrite Hg in E.
  apply bind_ok_inv in E. destruct E as (sr & w1 & Esr & E).
  unfold get_sample_rate in Esr. injection Esr as _ <-.
  apply lift_ok_inv in E. destruct E as (E & ->).
  split; [reflexivity |].
  apply res_bind_ok_inv in E. destruct E as (lfo & _ & E).
  apply res_bind_ok_inv in E. destruct E as (ch & Ec & E).
  assert (Lch : length ch = length audio).
  { apply filter_loop_length in Ec.
    - now rewrite np_zeros_like_length in Ec.
    - intros i a a'. apply chorus_step_length. }
  destruct (mix_dry_wet_values mix audio ch Lch) as (out' & Eo & Lo & Vo).
  assert (out' = out) by congruence. subst out'.
  split; [exact Lo |].
  intros i x y Hx Hy.
  destruct (nth_error ch i) as [c |] eqn:Hc.
  2:{ apply nth_error_None in Hc.
      assert (i < length audio)%nat by (apply nth_error_Some; congruence).
      lia. }
  exists c. split.
  - apply (chorus_loop_samples audio lfo (range 0 (len audio))
             (np_zeros_like audio) ch); [| exact Ec |].
    + intros c0 Hc0. left. unfold np_zeros_like in Hc0.
      apply in_map_iff in Hc0. destruct Hc0 as (? & <- & _). reflexivity.
    + apply (nth_error_In _ _ Hc).
  - rewrite (Vo i x c Hx Hc) in Hy. now injection Hy as <-.
Qed.
End ChorusWet.

Section ChorusOnOneSample.
Local Open Scope R_scope.

(** The chorus on one sample at 4 Hz: the oscillator is at zero and the
    wet signal is the sample itself. *)
Lemma apply_chorus_one_sample (x mix : R) (noise : nat -> R) :
  apply_chorus [x] 1 1 mix (processor 4 noise)
  = (Ok [(1 - mix) * x + mix * x], processor 4 noise).
Proof.
  unfold apply_chorus. enter_stage. unfold lift.
  unfold delay_lfo, lfo_times, py_truediv, np_linspace. real_cbn.
  replace (2 * PI * 1 * (0 * (1 / 4 - 0) + 0)) with 0 by lra.
  rewrite sin_0.
  replace (0 * 1 * 4) with (IZR 0) by lra.
  change (range 0 (len [x])) with ([0]%Z).
  unfold res_for, chorus_step. real_cbn. rewrite Rtrunc_IZR. real_cbn.
  reflexivity.
Qed.

(** X21 on one sample at 4 Hz with mix 0.5. *)
Lemma chorus_mixes_input_samples_witness :
  exists c,
    (c = 0 \/ In c [1]) /\
    (1 - 1 / 2) * 1 + 1 / 2 * 1 = (1 - 1 / 2) * 1 + 1 / 2 * c.
Proof.
  destruct (chorus_mixes_input_samples (F := R) [1]
              [(1 - 1 / 2) * 1 + 1 / 2 * 1] 1 1 (1 / 2)
              (processor 4 (fun _ => 0)) (processor 4 (fun _ => 0)))
    as (_ & _ & V).
  - cbn [fle of_int R_Float64]. rewrite !Rleb_false by lra. reflexivity.
  - apply apply_chorus_one_sample.
  - exact (V O 1 _ eq_refl eq_refl).
Defined.
End ChorusOnOneSample.
